(** * A shallow embedding of the Jinja runtime (packages/jinja/src/runtime.ts)

    The development follows the TypeScript source function by function:
    runtime values, the environment chain, the conversion of host values,
    the tree-walking [evaluate] with its filters, tests and statements, and
    [toJSON].  JavaScript objects that the interpreter shares and mutates
    (the arrays behind [ArrayValue], the [Map]s behind [ObjectValue] and
    behind an [Environment]'s variables) live in an explicit heap, so that
    aliasing is visible.  JavaScript built-ins whose definition is outside
    the repository (IEEE arithmetic away from the safe integers, Unicode
    case mapping, number formatting, and the helpers of ./utils) are fields
    of the class [JSPrims]; every theorem holds for all their
    implementations. *)

From Stdlib Require Import ZArith Lia String Ascii List Bool DecimalString
  Floats.SpecFloat.
From stdpp Require Import base list strings.
Import ListNotations.
Open Scope string_scope.

(** ** JavaScript numbers *)

(** A JavaScript [number] is a binary64 float.  The safe integers are kept
    apart as [Int z] because the runtime's own arithmetic (loop counters,
    lengths, indices) is exact on them; every other double (fractions, -0,
    NaN, the infinities, magnitudes above 2^53) is a [Flt]. *)
Definition float64 : Set := spec_float.

Inductive number : Set :=
| Int (z : Z)
| Flt (f : float64).

Definition safeInteger (z : Z) : bool := (Z.abs z <=? 2 ^ 53)%Z.

Inductive ArithOp : Set := OpAdd | OpSub | OpMul | OpDiv | OpRem.
Inductive CmpOp : Set := OpLt | OpGt | OpGe | OpLe.

(** The result of the specification function ToIntegerOrInfinity. *)
Inductive IntegerOrInfinity : Set :=
| Finite (z : Z)
| PosInfinity
| NegInfinity.

(** ** The syntax tree consumed by the interpreter (./ast)

    One type of nodes, as in the source, where every node is a [Statement]
    carrying a [type] string that the interpreter inspects at run time. *)
#[local] Unset Elimination Schemes.
Inductive Node : Set :=
| Program (body : list Node)
| If (test : Node) (body alternate : list Node)
| For (loopvar iterable : Node) (body defaultBlock : list Node)
| SetStatement (assignee : Node) (value : option Node) (body : list Node)
| Macro (name : string) (args : list Node) (body : list Node)
| CallStatement (callee : Node) (args : list Node)
                (callerArgs : option (list Node)) (body : list Node)
| FilterStatement (filter : Node) (body : list Node)
| Break
| Continue
| Comment (value : string)
| IntegerLiteral (value : number)
| FloatLiteral (value : number)
| StringLiteral (value : string)
| ArrayLiteral (value : list Node)
| TupleLiteral (value : list Node)
| ObjectLiteral (value : list (Node * Node))
| Identifier (value : string)
| MemberExpression (object property : Node) (computed : bool)
| CallExpression (callee : Node) (args : list Node)
| BinaryExpression (operator : string) (left right : Node)
| UnaryExpression (operator : string) (argument : Node)
| FilterExpression (operand filter : Node)
| TestExpression (operand : Node) (negate : bool) (test : string)
| SelectExpression (lhs test : Node)
| Ternary (condition trueExpr falseExpr : Node)
| SliceExpression (start stop step : option Node)
| KeywordArgumentExpression (key : string) (value : Node)
| SpreadExpression (argument : Node)
| OtherNode (type : string).

#[local] Set Elimination Schemes.

(** [statement.type] *)
Definition nodeType (n : Node) : string :=
  match n with
  | Program _ => "Program"
  | If _ _ _ => "If"
  | For _ _ _ _ => "For"
  | SetStatement _ _ _ => "Set"
  | Macro _ _ _ => "Macro"
  | CallStatement _ _ _ _ => "CallStatement"
  | FilterStatement _ _ => "FilterStatement"
  | Break => "Break"
  | Continue => "Continue"
  | Comment _ => "Comment"
  | IntegerLiteral _ => "IntegerLiteral"
  | FloatLiteral _ => "FloatLiteral"
  | StringLiteral _ => "StringLiteral"
  | ArrayLiteral _ => "ArrayLiteral"
  | TupleLiteral _ => "TupleLiteral"
  | ObjectLiteral _ => "ObjectLiteral"
  | Identifier _ => "Identifier"
  | MemberExpression _ _ _ => "MemberExpression"
  | CallExpression _ _ => "CallExpression"
  | BinaryExpression _ _ _ => "BinaryExpression"
  | UnaryExpression _ _ => "UnaryExpression"
  | FilterExpression _ _ => "FilterExpression"
  | TestExpression _ _ _ => "TestExpression"
  | SelectExpression _ _ => "SelectExpression"
  | Ternary _ _ _ => "Ternary"
  | SliceExpression _ _ _ => "SliceExpression"
  | KeywordArgumentExpression _ _ => "KeywordArgumentExpression"
  | SpreadExpression _ => "SpreadExpression"
  | OtherNode t => t
  end.

(** ** Runtime values *)

(** A heap address of a JavaScript array or [Map]. *)
Abbreviation loc := nat (only parsing).

(** The arrow functions that the source wraps in [FunctionValue], one
    constructor per creation site, with what each closes over. *)
Inductive Closure : Set :=
| StringBuiltin (name : string) (this : string)
| ObjectBuiltin (name : string) (this : loc)
| NamespaceFn
| MacroFn (name : string) (args : list Node) (body : list Node)
| CallerFn (callerArgs : option (list Node)) (body : list Node)
| HostFn (name : string).

Inductive Value : Set :=
| IntegerValue (value : number)
| FloatValue (value : number)
| StringValue (value : string)
| BooleanValue (value : bool)
| ObjectValue (value : loc)
| KeywordArgumentsValue (value : loc)
| ArrayValue (value : loc)
| TupleValue (value : loc)
| FunctionValue (value : Closure)
| NullValue
| UndefinedValue.

(** The [type] field of each class. *)
Definition typeOf (v : Value) : string :=
  match v with
  | IntegerValue _ => "IntegerValue"
  | FloatValue _ => "FloatValue"
  | StringValue _ => "StringValue"
  | BooleanValue _ => "BooleanValue"
  | ObjectValue _ => "ObjectValue"
  | KeywordArgumentsValue _ => "KeywordArgumentsValue"
  | ArrayValue _ => "ArrayValue"
  | TupleValue _ => "TupleValue"
  | FunctionValue _ => "FunctionValue"
  | NullValue => "NullValue"
  | UndefinedValue => "UndefinedValue"
  end.

(** [v instanceof ArrayValue]: [TupleValue] extends [ArrayValue]. *)
Definition asArray (v : Value) : option loc :=
  match v with
  | ArrayValue a | TupleValue a => Some a
  | _ => None
  end.

(** [v instanceof ObjectValue]: [KeywordArgumentsValue] extends it. *)
Definition asObject (v : Value) : option loc :=
  match v with
  | ObjectValue m | KeywordArgumentsValue m => Some m
  | _ => None
  end.

Definition asNumber (v : Value) : option number :=
  match v with
  | IntegerValue n | FloatValue n => Some n
  | _ => None
  end.

(** ** The heap *)

(** A JavaScript [Map<string, AnyRuntimeValue>]: insertion ordered. *)
Abbreviation JMap := (list (string * Value)) (only parsing).

Fixpoint map_get (k : string) (m : JMap) : option Value :=
  match m with
  | [] => None
  | (k', v) :: m' => if String.eqb k k' then Some v else map_get k m'
  end.

Definition map_has (k : string) (m : JMap) : bool :=
  match map_get k m with Some _ => true | None => false end.

(** [Map.prototype.set]: an existing key keeps its position. *)
Fixpoint map_set (k : string) (v : Value) (m : JMap) : JMap :=
  match m with
  | [] => [(k, v)]
  | (k', v') :: m' =>
      if String.eqb k k' then (k, v) :: m' else (k', v') :: map_set k v m'
  end.

Record Heap : Set := mkHeap {
  maps : list JMap;
  arrays : list (list Value)
}.

Definition emptyHeap : Heap := mkHeap [] [].

Definition getMap (h : Heap) (l : loc) : JMap := default [] (maps h !! l).
Definition getArray (h : Heap) (l : loc) : list Value :=
  default [] (arrays h !! l).

Definition putMap (l : loc) (m : JMap) (h : Heap) : Heap :=
  mkHeap (<[l:=m]> (maps h)) (arrays h).
Definition putArray (l : loc) (a : list Value) (h : Heap) : Heap :=
  mkHeap (maps h) (<[l:=a]> (arrays h)).

(** ** Environments

    An [Environment] object is its [variables] map, which lives in the heap
    and is mutated in place, and its [parent], which the source never
    reassigns.  The [tests] map has the same content in every environment
    and is never written; it is the function [lookupTest] below. *)
#[local] Unset Elimination Schemes.
Inductive Environment : Set :=
| mkEnvironment (variables : loc) (parent : option Environment).
#[local] Set Elimination Schemes.

Definition variables (e : Environment) : loc :=
  match e with mkEnvironment v _ => v end.
Definition parent (e : Environment) : option Environment :=
  match e with mkEnvironment _ p => p end.

(** ** Exceptions and the evaluation monad *)

Inductive Exn : Set :=
| Error (message : string)
| SyntaxError (message : string)
| TypeError (message : string)
| RangeError (message : string)
| BreakControl
| ContinueControl.

(** The outcome of running a piece of the interpreter from a heap: a value
    and the heap it leaves, an exception and the heap it leaves, or the
    exhaustion of the recursion budget. *)
Inductive Result (A : Type) : Type :=
| Ok (a : A) (h : Heap)
| Throw (e : Exn) (h : Heap)
| OutOfFuel.
Arguments Ok {A} a h.
Arguments Throw {A} e h.
Arguments OutOfFuel {A}.

Definition M (A : Type) : Type := Heap -> Result A.

Definition ret {A} (a : A) : M A := fun h => Ok a h.
Definition throw {A} (e : Exn) : M A := fun h => Throw e h.
Definition bind {A B} (m : M A) (k : A -> M B) : M B :=
  fun h =>
    match m h with
    | Ok a h' => k a h'
    | Throw e h' => Throw e h'
    | OutOfFuel => OutOfFuel
    end.

Declare Scope eval_scope.
Delimit Scope eval_scope with eval.
Notation "x <- c1 ;; c2" := (bind c1 (fun x => c2))
  (at level 100, c1 at next level, right associativity) : eval_scope.
Notation "c1 ;;; c2" := (bind c1 (fun _ => c2))
  (at level 100, right associativity) : eval_scope.
Open Scope eval_scope.

Definition getHeap : M Heap := fun h => Ok h h.

Definition readMap (l : loc) : M JMap := fun h => Ok (getMap h l) h.
Definition readArray (l : loc) : M (list Value) := fun h => Ok (getArray h l) h.
Definition writeMap (l : loc) (m : JMap) : M unit := fun h => Ok tt (putMap l m h).
Definition writeArray (l : loc) (a : list Value) : M unit :=
  fun h => Ok tt (putArray l a h).

(** [new Map(entries)] and a fresh array. *)
Definition allocMap (m : JMap) : M loc :=
  fun h => Ok (length (maps h)) (mkHeap (maps h ++ [m]) (arrays h)).
Definition allocArray (a : list Value) : M loc :=
  fun h => Ok (length (arrays h)) (mkHeap (maps h) (arrays h ++ [a])).

Definition newArrayValue (a : list Value) : M Value :=
  l <- allocArray a ;; ret (ArrayValue l).
Definition newObjectValue (m : JMap) : M Value :=
  l <- allocMap m ;; ret (ObjectValue l).

(** ** Host values: the argument of [Environment.set] *)

#[local] Unset Elimination Schemes.
Inductive HostValue : Set :=
| HNumber (n : number)
| HString (s : string)
| HBoolean (b : bool)
| HUndefined
| HNull
| HArray (items : list HostValue)
| HObject (entries : list (string * HostValue))
| HFunction (name : string)
| HBigInt (value : Z)
| HSymbol.
#[local] Set Elimination Schemes.

(** ** JavaScript built-ins and the helpers of ./utils

    What the runtime calls but does not define.  The floating-point fields
    are consulted only where the exact integer arithmetic below does not
    apply. *)
Class JSPrims : Type := {
  (** [a + b], [a - b], [a * b], [a / b], [a % b] *)
  fp_arith : ArithOp -> number -> number -> number;
  (** [a < b], [a > b], [a >= b], [a <= b] *)
  fp_cmp : CmpOp -> number -> number -> bool;
  (** [a === b] on numbers *)
  fp_eq : number -> number -> bool;
  (** [!!x] *)
  fp_truthy : float64 -> bool;
  fp_isNaN : float64 -> bool;
  fp_isFinite : float64 -> bool;
  (** [Number.isInteger(x)], which is also [x % 1 === 0] *)
  fp_isInteger : float64 -> bool;
  (** [String(x)] and [x.toString()] *)
  fp_toString : float64 -> string;
  (** [x.toFixed(1)] *)
  fp_toFixed1 : float64 -> string;
  fp_abs : float64 -> number;
  fp_floor : float64 -> number;
  fp_toIntegerOrInfinity : float64 -> IntegerOrInfinity;
  (** the characters that [trim] removes and that [\s] matches *)
  isWhitespace : ascii -> bool;
  toUpperCase : string -> string;
  toLowerCase : string -> string;
  localeCompare : string -> string -> number;
  (** [parseInt(s, 10)] *)
  parseInt10 : string -> number;
  parseFloat : string -> number;
  (** ToNumber on a string, for [==] between a string and a number *)
  stringToNumber : string -> number;
  (** [JSON.stringify(s)] on a string *)
  jsonQuote : string -> string;
  (** [titleCase], [replace] and [slice] of ./utils *)
  titleCase : string -> string;
  replace : string -> string -> string -> option number -> string;
  slice : forall A : Type,
      list A -> option number -> option number -> option number -> list A;
  (** the source text of a function, which is what [String(f)] returns *)
  functionSource : Closure -> string;
  (** identity of two function objects *)
  sameFunction : Closure -> Closure -> bool;
  (** a host function applied to the [value]s of its arguments (see
      [hostArgument]); it may read the heap and throw, and returns a host
      value *)
  hostCall : string -> list Value -> Heap -> Exn + HostValue
}.

Section Runtime.
Context {js : JSPrims}.

(** *** Numbers *)

Definition decimal (z : Z) : string :=
  NilZero.string_of_int (Z.to_int z).

(** Arithmetic is exact when both operands are safe integers and the
    mathematical result is one too (and is not the negative zero). *)
Definition num_arith (op : ArithOp) (a b : number) : number :=
  match a, b with
  | Int x, Int y =>
      match op with
      | OpAdd => if safeInteger (x + y) then Int (x + y) else fp_arith op a b
      | OpSub => if safeInteger (x - y) then Int (x - y) else fp_arith op a b
      | OpMul =>
          if safeInteger (x * y) && (negb (x * y =? 0) || ((0 <=? x) && (0 <=? y)))%Z
          then Int (x * y) else fp_arith op a b
      | OpDiv =>
          if negb (y =? 0)%Z && (Z.rem x y =? 0)%Z && (negb (x =? 0) || (0 <? y))%Z
          then Int (Z.quot x y) else fp_arith op a b
      | OpRem =>
          if negb (y =? 0)%Z && (negb (Z.rem x y =? 0) || (0 <=? x))%Z
          then Int (Z.rem x y) else fp_arith op a b
      end
  | _, _ => fp_arith op a b
  end.

Definition num_cmp (op : CmpOp) (a b : number) : bool :=
  match a, b with
  | Int x, Int y =>
      match op with
      | OpLt => (x <? y)%Z
      | OpGt => (y <? x)%Z
      | OpGe => (y <=? x)%Z
      | OpLe => (x <=? y)%Z
      end
  | _, _ => fp_cmp op a b
  end.

Definition num_eq (a b : number) : bool :=
  match a, b with
  | Int x, Int y => (x =? y)%Z
  | _, _ => fp_eq a b
  end.

Definition num_truthy (a : number) : bool :=
  match a with
  | Int z => negb (z =? 0)%Z
  | Flt f => fp_truthy f
  end.

Definition num_isNaN (a : number) : bool :=
  match a with Int _ => false | Flt f => fp_isNaN f end.

Definition num_isInteger (a : number) : bool :=
  match a with Int _ => true | Flt f => fp_isInteger f end.

Definition num_toString (a : number) : string :=
  match a with Int z => decimal z | Flt f => fp_toString f end.

Definition num_toFixed1 (a : number) : string :=
  match a with Int z => decimal z ++ ".0" | Flt f => fp_toFixed1 f end.

Definition num_abs (a : number) : number :=
  match a with Int z => Int (Z.abs z) | Flt f => fp_abs f end.

Definition num_floor (a : number) : number :=
  match a with Int z => Int z | Flt f => fp_floor f end.

Definition toIntegerOrInfinity (a : number) : IntegerOrInfinity :=
  match a with Int z => Finite z | Flt f => fp_toIntegerOrInfinity f end.

(** [JSON.stringify(x)] on a number *)
Definition num_json (a : number) : string :=
  match a with
  | Int z => decimal z
  | Flt f => if fp_isFinite f then fp_toString f else "null"
  end.

(** *** Strings *)

Definition join (sep : string) (parts : list string) : string :=
  String.concat sep parts.

Fixpoint dropString (n : nat) (s : string) : string :=
  match n, s with
  | S n', String _ s' => dropString n' s'
  | _, _ => s
  end.

Fixpoint revString (s acc : string) : string :=
  match s with
  | EmptyString => acc
  | String c s' => revString s' (String c acc)
  end.

Definition startsWith (s p : string) : bool := String.prefix p s.
Definition endsWith (s p : string) : bool :=
  String.prefix (revString p "") (revString s "").

(** [s.includes(needle)] *)
Fixpoint includes (s needle : string) : bool :=
  String.prefix needle s ||
  match s with
  | EmptyString => false
  | String _ s' => includes s' needle
  end.

Fixpoint trimStart (s : string) : string :=
  match s with
  | String c s' => if isWhitespace c then trimStart s' else s
  | EmptyString => EmptyString
  end.

Definition trimEnd (s : string) : string :=
  revString (trimStart (revString s "")) "".

Definition trim (s : string) : string := trimEnd (trimStart s).

(** [Array.from(s)] and [s.split("")] on the strings of this model *)
Fixpoint characters (s : string) : list string :=
  match s with
  | EmptyString => []
  | String c s' => String c EmptyString :: characters s'
  end.

Fixpoint repeatString (s : string) (n : nat) : string :=
  match n with
  | O => EmptyString
  | S n' => s ++ repeatString s n'
  end.

(** [s.charAt(0).toUpperCase() + s.slice(1)] *)
Definition capitalize (s : string) : string :=
  match s with
  | EmptyString => toUpperCase EmptyString
  | String c s' => toUpperCase (String c EmptyString) ++ s'
  end.

(** The leftmost occurrence of [sep] in [s]: the text before it and the
    text after it. *)
Fixpoint cut (sep s : string) : option (string * string) :=
  if String.prefix sep s then Some (EmptyString, dropString (String.length sep) s)
  else
    match s with
    | EmptyString => None
    | String c s' =>
        match cut sep s' with
        | Some (before, after) => Some (String c before, after)
        | None => None
        end
    end.

Fixpoint splitFuel (fuel : nat) (sep s : string) : list string :=
  match cut sep s with
  | None => [s]
  | Some (before, after) =>
      match fuel with
      | O => [s]
      | S fuel' => before :: splitFuel fuel' sep after
      end
  end.

(** [s.split(sep)] for a non-empty [sep]; a string of length n has at most
    n occurrences of [sep]. *)
Definition split (s sep : string) : list string :=
  splitFuel (String.length s) sep s.

(** The longest prefix without whitespace, and what follows it. *)
Fixpoint spanNonSpace (s : string) : string * string :=
  match s with
  | EmptyString => (EmptyString, EmptyString)
  | String c s' =>
      if isWhitespace c then (EmptyString, s)
      else let '(w, rest) := spanNonSpace s' in (String c w, rest)
  end.

(** The matches of [/\S+/g] in the part [s] of a string that starts at
    index [pos], each with the index where it starts. *)
Fixpoint matchAllFuel (fuel : nat) (s : string) (pos : nat) : list (string * nat) :=
  match fuel with
  | O => []
  | S fuel' =>
      let t := trimStart s in
      match t with
      | EmptyString => []
      | String _ _ =>
          let '(w, rest) := spanNonSpace t in
          let index := pos + (String.length s - String.length t) in
          (w, index) :: matchAllFuel fuel' rest (index + String.length w)
      end
  end.

(** [text.matchAll(/\S+/g)]: a string of length n has at most n matches. *)
Definition matchAllNonSpace (text : string) : list (string * nat) :=
  matchAllFuel (S (String.length text)) text 0.

(** *** Truthiness, rendering and equality of runtime values *)

(** [v.__bool__().value]: [!!this.value], overridden by [ObjectValue] and
    [ArrayValue] to look at the size. *)
Definition __bool__ (h : Heap) (v : Value) : bool :=
  match v with
  | IntegerValue n | FloatValue n => num_truthy n
  | StringValue s => negb (String.eqb s EmptyString)
  | BooleanValue b => b
  | ObjectValue m | KeywordArgumentsValue m => (0 <? length (getMap h m))%nat
  | ArrayValue a | TupleValue a => (0 <? length (getArray h a))%nat
  | FunctionValue _ => true
  | NullValue | UndefinedValue => false
  end.

(** JavaScript's own truthiness of [v.value], where every object is true. *)
Definition jsTruthy (v : Value) : bool :=
  match v with
  | IntegerValue n | FloatValue n => num_truthy n
  | StringValue s => negb (String.eqb s EmptyString)
  | BooleanValue b => b
  | NullValue | UndefinedValue => false
  | _ => true
  end.

(** [v.toString()]: [String(this.value)], overridden by [FloatValue].  An
    array renders as its elements' [toString()] joined by commas; the
    budget bounds the nesting of arrays.  Every [NullValue] is built by
    [new NullValue()], so the value it carries is [undefined]. *)
Fixpoint toStringFuel (fuel : nat) (h : Heap) (v : Value) : string :=
  match v with
  | IntegerValue n => num_toString n
  | FloatValue n => if num_isInteger n then num_toFixed1 n else num_toString n
  | StringValue s => s
  | BooleanValue b => if b then "true" else "false"
  | ObjectValue _ | KeywordArgumentsValue _ => "[object Map]"
  | ArrayValue a | TupleValue a =>
      match fuel with
      | O => EmptyString
      | S fuel' => join "," (map (toStringFuel fuel' h) (getArray h a))
      end
  | FunctionValue f => functionSource f
  | NullValue | UndefinedValue => "undefined"
  end.

Definition toString (h : Heap) (v : Value) : string :=
  toStringFuel (S (length (arrays h))) h v.

(** [v.value.toString()], which is not defined on [null] and [undefined]
    and which does not go through the override of [FloatValue]. *)
Definition valueToString (h : Heap) (v : Value) : option string :=
  match v with
  | NullValue | UndefinedValue => None
  | FloatValue n => Some (num_toString n)
  | _ => Some (toString h v)
  end.

(** [a.value === b.value]; a [NullValue] and an [UndefinedValue] both carry
    [undefined]. *)
Definition strictEq (a b : Value) : bool :=
  match a, b with
  | IntegerValue x, IntegerValue y | IntegerValue x, FloatValue y
  | FloatValue x, IntegerValue y | FloatValue x, FloatValue y => num_eq x y
  | StringValue x, StringValue y => String.eqb x y
  | BooleanValue x, BooleanValue y => Bool.eqb x y
  | (NullValue | UndefinedValue), (NullValue | UndefinedValue) => true
  | ArrayValue x, ArrayValue y | ArrayValue x, TupleValue y
  | TupleValue x, ArrayValue y | TupleValue x, TupleValue y => Nat.eqb x y
  | ObjectValue x, ObjectValue y | ObjectValue x, KeywordArgumentsValue y
  | KeywordArgumentsValue x, ObjectValue y
  | KeywordArgumentsValue x, KeywordArgumentsValue y => Nat.eqb x y
  | FunctionValue f, FunctionValue g => sameFunction f g
  | _, _ => false
  end.

(** SameValueZero on [value]s, the comparison of [Set.prototype.has]. *)
Definition sameValueZero (a b : Value) : bool :=
  strictEq a b ||
  match asNumber a, asNumber b with
  | Some x, Some y => num_isNaN x && num_isNaN y
  | _, _ => false
  end.

Definition isObjectRef (v : Value) : bool :=
  match v with
  | ObjectValue _ | KeywordArgumentsValue _ | ArrayValue _ | TupleValue _
  | FunctionValue _ => true
  | _ => false
  end.

Definition boolNumber (b : bool) : number := Int (if b then 1 else 0).

(** [a == b] between two primitive [value]s. *)
Definition looseEqPrimitive (a b : Value) : bool :=
  match a, b with
  | (NullValue | UndefinedValue), (NullValue | UndefinedValue) => true
  | (NullValue | UndefinedValue), _ | _, (NullValue | UndefinedValue) => false
  | StringValue x, StringValue y => String.eqb x y
  | BooleanValue x, BooleanValue y => Bool.eqb x y
  | (IntegerValue x | FloatValue x), (IntegerValue y | FloatValue y) => num_eq x y
  | (IntegerValue x | FloatValue x), StringValue s
  | StringValue s, (IntegerValue x | FloatValue x) => num_eq x (stringToNumber s)
  | (IntegerValue x | FloatValue x), BooleanValue c
  | BooleanValue c, (IntegerValue x | FloatValue x) => num_eq x (boolNumber c)
  | BooleanValue c, StringValue s
  | StringValue s, BooleanValue c => num_eq (boolNumber c) (stringToNumber s)
  | _, _ => false
  end.

(** [a.value == b.value]: two objects are compared by identity, and an
    object meeting a primitive is first converted by its [toString]. *)
Definition looseEq (h : Heap) (a b : Value) : bool :=
  if isObjectRef a && isObjectRef b then strictEq a b
  else if isObjectRef a then looseEqPrimitive (StringValue (toString h a)) b
  else if isObjectRef b then looseEqPrimitive a (StringValue (toString h b))
  else looseEqPrimitive a b.

(** *** Environment *)

(** The initial content of [variables] in every [new Environment]. *)
Definition initialVariables : JMap :=
  [("namespace", FunctionValue NamespaceFn)].

(** [new Environment(parent)] *)
Definition newEnvironment (parent : option Environment) : M Environment :=
  l <- allocMap initialVariables ;; ret (mkEnvironment l parent).

Definition declareVariable (env : Environment) (name : string) (value : Value)
  : M Value :=
  vars <- readMap (variables env) ;;
  if map_has name vars
  then throw (SyntaxError ("Variable already declared: " ++ name))
  else writeMap (variables env) (map_set name value vars) ;;; ret value.

Definition setVariable (env : Environment) (name : string) (value : Value)
  : M Value :=
  vars <- readMap (variables env) ;;
  writeMap (variables env) (map_set name value vars) ;;;
  ret value.

Fixpoint resolve (h : Heap) (name : string) (env : Environment)
  : Exn + Environment :=
  match env with
  | mkEnvironment vars parent =>
      if map_has name (getMap h vars) then inr env
      else
        match parent with
        | Some p => resolve h name p
        | None => inl (Error ("Unknown variable: " ++ name))
        end
  end.

Definition lookupVariable (h : Heap) (env : Environment) (name : string) : Value :=
  match resolve h name env with
  | inr e => default UndefinedValue (map_get name (getMap h (variables e)))
  | inl _ => UndefinedValue
  end.

(** *** convertToRuntimeValues *)

Fixpoint convertToRuntimeValues (input : HostValue) : M Value :=
  match input with
  | HNumber n => ret (if num_isInteger n then IntegerValue n else FloatValue n)
  | HString s => ret (StringValue s)
  | HBoolean b => ret (BooleanValue b)
  | HUndefined => ret UndefinedValue
  | HNull => ret NullValue
  | HArray items =>
      vs <- (fix convertAll (l : list HostValue) : M (list Value) :=
               match l with
               | [] => ret []
               | x :: l' =>
                   v <- convertToRuntimeValues x ;;
                   vs <- convertAll l' ;;
                   ret (v :: vs)
               end) items ;;
      newArrayValue vs
  | HObject entries =>
      m <- (fix convertEntries (l : list (string * HostValue)) (acc : JMap)
              : M JMap :=
              match l with
              | [] => ret acc
              | (k, x) :: l' =>
                  v <- convertToRuntimeValues x ;;
                  convertEntries l' (map_set k v acc)
              end) entries [] ;;
      newObjectValue m
  | HFunction name => ret (FunctionValue (HostFn name))
  | HBigInt z => throw (Error ("Cannot convert to runtime value: " ++ decimal z))
  | HSymbol => throw (TypeError "Cannot convert a Symbol value to a string")
  end.

(** [Environment.set] *)
Definition Environment_set (env : Environment) (name : string) (value : HostValue)
  : M Value :=
  v <- convertToRuntimeValues value ;;
  declareVariable env name v.

(** The host functions that [setupGlobals] registers. *)
Definition setupGlobals (env : Environment) : M unit :=
  Environment_set env "false" (HBoolean false) ;;;
  Environment_set env "true" (HBoolean true) ;;;
  Environment_set env "none" HNull ;;;
  Environment_set env "raise_exception" (HFunction "raise_exception") ;;;
  Environment_set env "range" (HFunction "range") ;;;
  Environment_set env "strftime_now" (HFunction "strftime_now") ;;;
  Environment_set env "True" (HBoolean true) ;;;
  Environment_set env "False" (HBoolean false) ;;;
  Environment_set env "None" HNull ;;;
  ret tt.

(** *** The tests of an environment *)

(** [environment.tests.get(name)]; a test receives its operand and, from
    [selectattr], a second argument that may be missing. *)
Definition lookupTest (name : string)
  : option (Value -> option Value -> Exn + bool) :=
  let simple (p : Value -> bool) := Some (fun a (_ : option Value) => inr (p a) : Exn + bool) in
  if String.eqb name "boolean" then
    simple (fun a => String.eqb (typeOf a) "BooleanValue")
  else if String.eqb name "callable" then
    simple (fun a => match a with FunctionValue _ => true | _ => false end)
  else if String.eqb name "odd" then
    Some (fun a _ =>
            match a with
            | IntegerValue n => inr (negb (num_eq (num_arith OpRem n (Int 2)) (Int 0)))
            | _ => inl (Error ("cannot odd on " ++ typeOf a))
            end)
  else if String.eqb name "even" then
    Some (fun a _ =>
            match a with
            | IntegerValue n => inr (num_eq (num_arith OpRem n (Int 2)) (Int 0))
            | _ => inl (Error ("cannot even on " ++ typeOf a))
            end)
  else if String.eqb name "false" then
    simple (fun a => match a with BooleanValue b => negb b | _ => false end)
  else if String.eqb name "true" then
    simple (fun a => match a with BooleanValue b => b | _ => false end)
  else if String.eqb name "none" then
    simple (fun a => String.eqb (typeOf a) "NullValue")
  else if String.eqb name "string" then
    simple (fun a => String.eqb (typeOf a) "StringValue")
  else if String.eqb name "number" then
    simple (fun a => match asNumber a with Some _ => true | None => false end)
  else if String.eqb name "integer" then
    simple (fun a => match a with IntegerValue _ => true | _ => false end)
  else if String.eqb name "iterable" then
    simple (fun a => String.eqb (typeOf a) "ArrayValue"
                     || String.eqb (typeOf a) "StringValue")
  else if String.eqb name "mapping" then
    simple (fun a => String.eqb (typeOf a) "ObjectValue")
  else if String.eqb name "lower" then
    simple (fun a => match a with
                     | StringValue s => String.eqb s (toLowerCase s)
                     | _ => false
                     end)
  else if String.eqb name "upper" then
    simple (fun a => match a with
                     | StringValue s => String.eqb s (toUpperCase s)
                     | _ => false
                     end)
  else if String.eqb name "defined" then
    simple (fun a => negb (String.eqb (typeOf a) "UndefinedValue"))
  else if String.eqb name "undefined" then
    simple (fun a => String.eqb (typeOf a) "UndefinedValue")
  else if String.eqb name "equalto" || String.eqb name "eq" then
    Some (fun a b =>
            match b with
            | Some b' => inr (strictEq a b')
            | None => inl (TypeError "Cannot read properties of undefined (reading 'value')")
            end)
  else None.

(** *** toJSON *)

(** The double quote character. *)
Definition quote : string := String "034"%char EmptyString.

(** [" ".repeat(n)] *)
Definition repeatSpaces (n : number) : M string :=
  let invalid := RangeError ("Invalid count value: " ++ num_toString n) in
  match toIntegerOrInfinity n with
  | Finite z =>
      if (z <? 0)%Z then throw invalid
      else ret (repeatString " " (Z.to_nat z))
  | _ => throw invalid
  end.

Fixpoint mapM {A B} (f : A -> M B) (l : list A) : M (list B) :=
  match l with
  | [] => ret []
  | x :: l' => y <- f x ;; ys <- mapM f l' ;; ret (y :: ys)
  end.

(** [indent] is a number, [null] or missing; the recursion follows the
    nesting of the value, which a cyclic object makes unbounded. *)
Fixpoint toJSON (fuel : nat) (input : Value) (indent : option number) (depth : nat)
  : M string :=
  match fuel with
  | O => fun _ => OutOfFuel
  | S fuel' =>
      let indented := match indent with Some n => num_truthy n | None => false end in
      let paddings : M (string * string) :=
        indentValue <- match indent with
                       | Some n => if num_truthy n then repeatSpaces n else ret EmptyString
                       | None => ret EmptyString
                       end ;;
        let basePadding := String "010"%char (repeatString indentValue depth) in
        ret (basePadding, basePadding ++ indentValue) in
      match input with
      | NullValue | UndefinedValue => ret "null"
      | IntegerValue n | FloatValue n => ret (num_json n)
      | StringValue s => ret (jsonQuote s)
      | BooleanValue b => ret (if b then "true" else "false")
      | ArrayValue a =>
          p <- paddings ;;
          let '(basePadding, childrenPadding) := p in
          items <- readArray a ;;
          core <- mapM (fun x => toJSON fuel' x indent (S depth)) items ;;
          ret (if indented
               then "[" ++ childrenPadding ++ join ("," ++ childrenPadding) core
                        ++ basePadding ++ "]"
               else "[" ++ join ", " core ++ "]")
      | ObjectValue m =>
          p <- paddings ;;
          let '(basePadding, childrenPadding) := p in
          entries <- readMap m ;;
          core <- mapM (fun '(key, value) =>
                          j <- toJSON fuel' value indent (S depth) ;;
                          let v := quote ++ key ++ quote ++ ": " ++ j in
                          ret (if indented then childrenPadding ++ v else v))
                       entries ;;
          ret (if indented
               then "{" ++ join "," core ++ basePadding ++ "}"
               else "{" ++ join ", " core ++ "}")
      | _ => throw (Error ("Cannot convert to JSON: " ++ typeOf input))
      end
  end.

(** *** The built-in members of a value *)

(** The loop of [startswith] and [endswith] over a tuple of patterns. *)
Fixpoint anyPattern (what : string) (test : string -> bool) (items : list Value)
  : M Value :=
  match items with
  | [] => ret (BooleanValue false)
  | StringValue p :: items' =>
      if test p then ret (BooleanValue true) else anyPattern what test items'
  | _ :: _ => throw (Error (what ++ "() tuple elements must be strings"))
  end.

Definition patternTest (what : string) (test : string -> bool) (args : list Value)
  : M Value :=
  match args with
  | [] => throw (Error (what ++ "() requires at least one argument"))
  | StringValue p :: _ => ret (BooleanValue (test p))
  | (ArrayValue a | TupleValue a) :: _ =>
      items <- readArray a ;; anyPattern what test items
  | _ :: _ =>
      throw (Error (what ++ "() argument must be a string or tuple of strings"))
  end.

(** The loop of [split] over the matches of [/\S+/g], for [sep] null. *)
Fixpoint splitWhitespaceLoop (text : string) (maxsplit : number)
    (matches : list (string * nat)) (result : list string) : list string :=
  match matches with
  | [] => result
  | (m, index) :: matches' =>
      if negb (num_eq maxsplit (Int (-1)))
         && num_cmp OpGe (Int (Z.of_nat (length result))) maxsplit
      then result ++ [m ++ dropString (index + String.length m) text]
      else splitWhitespaceLoop text maxsplit matches' (result ++ [m])
  end.

Definition splitWhitespace (this : string) (maxsplit : number) : list string :=
  let text := trimStart this in
  splitWhitespaceLoop text maxsplit (matchAllNonSpace text) [].

(** The index from which [result.splice(start)] removes. *)
Definition spliceStart (len : nat) (start : number) : nat :=
  match toIntegerOrInfinity start with
  | NegInfinity => 0
  | Finite z =>
      if (z <? 0)%Z then Z.to_nat (Z.max (Z.of_nat len + z) 0)
      else Z.to_nat (Z.min z (Z.of_nat len))
  | PosInfinity => len
  end.

Definition splitSeparator (this sep : string) (maxsplit : number) : list string :=
  let result := split this sep in
  if negb (num_eq maxsplit (Int (-1)))
     && num_cmp OpGt (Int (Z.of_nat (length result))) maxsplit
  then
    let k := spliceStart (length result) maxsplit in
    firstn k result ++ [join sep (skipn k result)]
  else result.

(** The [split] member of [StringValue.builtins]. *)
Definition stringSplit (this : string) (args : list Value) : M Value :=
  let sep := default NullValue (args !! 0%nat) in
  match sep with
  | StringValue _ | NullValue =>
      let maxsplit := default (IntegerValue (Int (-1))) (args !! 1%nat) in
      match maxsplit with
      | IntegerValue ms =>
          parts <- match sep with
                   | StringValue s =>
                       if String.eqb s EmptyString
                       then throw (Error "empty separator")
                       else ret (splitSeparator this s ms)
                   | _ => ret (splitWhitespace this ms)
                   end ;;
          newArrayValue (map StringValue parts)
      | _ => throw (Error "maxsplit argument must be a number")
      end
  | _ => throw (Error "sep argument must be a string or null")
  end.

(** The [replace] member of [StringValue.builtins]. *)
Definition stringReplace (this : string) (args : list Value) : M Value :=
  match args with
  | StringValue oldValue :: StringValue newValue :: rest =>
      count <- match rest with
               | KeywordArgumentsValue kw :: _ =>
                   m <- readMap kw ;; ret (default NullValue (map_get "count" m))
               | c :: _ => ret c
               | [] => ret NullValue
               end ;;
      match count with
      | IntegerValue n => ret (StringValue (replace this oldValue newValue (Some n)))
      | NullValue => ret (StringValue (replace this oldValue newValue None))
      | _ => throw (Error "replace() count argument must be a number or null")
      end
  | _ :: _ :: _ => throw (Error "replace() arguments must be strings")
  | _ => throw (Error "replace() requires at least two arguments")
  end.

(** A function of [StringValue.builtins] applied to [args]. *)
Definition callStringBuiltin (name this : string) (args : list Value) : M Value :=
  if String.eqb name "upper" then ret (StringValue (toUpperCase this))
  else if String.eqb name "lower" then ret (StringValue (toLowerCase this))
  else if String.eqb name "strip" then ret (StringValue (trim this))
  else if String.eqb name "title" then ret (StringValue (titleCase this))
  else if String.eqb name "capitalize" then ret (StringValue (capitalize this))
  else if String.eqb name "rstrip" then ret (StringValue (trimEnd this))
  else if String.eqb name "lstrip" then ret (StringValue (trimStart this))
  else if String.eqb name "startswith" then
    patternTest "startswith" (startsWith this) args
  else if String.eqb name "endswith" then
    patternTest "endswith" (endsWith this) args
  else if String.eqb name "split" then stringSplit this args
  else if String.eqb name "replace" then stringReplace this args
  else throw (TypeError "not a function").

Definition stringFunctionNames : list string :=
  ["upper"; "lower"; "strip"; "title"; "capitalize"; "rstrip"; "lstrip";
   "startswith"; "endswith"; "split"; "replace"].

(** [ObjectValue.items], [keys], [values] *)
Fixpoint itemPairs (entries : JMap) : M (list Value) :=
  match entries with
  | [] => ret []
  | (k, v) :: entries' =>
      pair <- newArrayValue [StringValue k; v] ;;
      pairs <- itemPairs entries' ;;
      ret (pair :: pairs)
  end.

Definition objectItems (this : loc) : M Value :=
  entries <- readMap this ;; pairs <- itemPairs entries ;; newArrayValue pairs.
Definition objectKeys (this : loc) : M Value :=
  entries <- readMap this ;; newArrayValue (map (fun e => StringValue (fst e)) entries).
Definition objectValues (this : loc) : M Value :=
  entries <- readMap this ;; newArrayValue (map snd entries).

(** A function of [ObjectValue.builtins] applied to [args]. *)
Definition callObjectBuiltin (name : string) (this : loc) (args : list Value)
  : M Value :=
  if String.eqb name "get" then
    match args with
    | [] => throw (TypeError "Cannot read properties of undefined (reading 'type')")
    | StringValue key :: rest =>
        entries <- readMap this ;;
        ret (match map_get key entries with
             | Some v => v
             | None => default NullValue (rest !! 0%nat)
             end)
    | key :: _ => throw (Error ("Object key must be a string: got " ++ typeOf key))
    end
  else if String.eqb name "items" then objectItems this
  else if String.eqb name "keys" then objectKeys this
  else if String.eqb name "values" then objectValues this
  else throw (TypeError "not a function").

Definition objectFunctionNames : list string := ["get"; "items"; "keys"; "values"].

Definition inNames (name : string) (names : list string) : bool :=
  existsb (String.eqb name) names.

(** [v.builtins.get(name)] *)
Definition builtinsGet (h : Heap) (v : Value) (name : string) : option Value :=
  match v with
  | StringValue s =>
      if String.eqb name "length" then Some (IntegerValue (Int (Z.of_nat (String.length s))))
      else if inNames name stringFunctionNames
           then Some (FunctionValue (StringBuiltin name s))
           else None
  | ObjectValue m | KeywordArgumentsValue m =>
      if inNames name objectFunctionNames
      then Some (FunctionValue (ObjectBuiltin name m))
      else None
  | ArrayValue a | TupleValue a =>
      if String.eqb name "length"
      then Some (IntegerValue (Int (Z.of_nat (length (getArray h a)))))
      else None
  | _ => None
  end.

(** The function that [Environment] binds to [namespace]. *)
Definition callNamespace (args : list Value) : M Value :=
  match args with
  | [] => newObjectValue []
  | [(ObjectValue _ | KeywordArgumentsValue _) as o] => ret o
  | _ =>
      throw (Error "`namespace` expects either zero arguments or a single object argument")
  end.

(** What a host function sees of an argument is its [value]: the tag of the
    wrapper is gone, so that [none] arrives as [undefined], a whole
    [FloatValue] as the integer it holds, a tuple as its array and keyword
    arguments as their map. *)
Definition hostArgument (v : Value) : Value :=
  match v with
  | NullValue => UndefinedValue
  | FloatValue n => if num_isInteger n then IntegerValue n else v
  | TupleValue a => ArrayValue a
  | KeywordArgumentsValue m => ObjectValue m
  | _ => v
  end.

(** A converted host function: it receives the [value]s of its arguments
    and its result is converted back, [undefined] becoming [null].
    [raise_exception] is the function that [setupGlobals] defines: the
    message of [new Error(x)] is empty for [undefined] and [String(x)]
    otherwise. *)
Definition callHost (name : string) (args : list Value) : M Value :=
  h <- getHeap ;;
  if String.eqb name "raise_exception" then
    throw (Error (match args with
                  | [] | (NullValue | UndefinedValue) :: _ => EmptyString
                  | v :: _ => default EmptyString (valueToString h v)
                  end))
  else
    match hostCall name (map hostArgument args) h with
    | inl e => throw e
    | inr HUndefined => convertToRuntimeValues HNull
    | inr result => convertToRuntimeValues result
    end.

(** ** The interpreter

    [evaluate] recurses through the syntax tree and, at a call, into the
    body of the called macro; the functions below take the recursive call
    [ev] as an argument and are tied together by [evaluate] at the end. *)
Definition Eval : Type := Node -> Environment -> M Value.

(** The [value] of a [StringValue]. *)
Definition stringValue (v : Value) : string :=
  match v with StringValue s => s | _ => EmptyString end.

Definition isUndefined (v : Value) : bool :=
  match v with UndefinedValue => true | _ => false end.
Definition isNull (v : Value) : bool :=
  match v with NullValue => true | _ => false end.
Definition isString (v : Value) : bool :=
  match v with StringValue _ => true | _ => false end.

(** *** evaluateBlock *)

Fixpoint evaluateBlockFrom (ev : Eval) (statements : list Node)
    (environment : Environment) (result : string) : M Value :=
  match statements with
  | [] => ret (StringValue result)
  | statement :: statements' =>
      lastEvaluated <- ev statement environment ;;
      h <- getHeap ;;
      evaluateBlockFrom ev statements' environment
        (if negb (String.eqb (typeOf lastEvaluated) "NullValue")
            && negb (String.eqb (typeOf lastEvaluated) "UndefinedValue")
         then result ++ toString h lastEvaluated
         else result)
  end.

Definition evaluateBlock (ev : Eval) (statements : list Node)
    (environment : Environment) : M Value :=
  evaluateBlockFrom ev statements environment EmptyString.

Definition evalProgram (ev : Eval) (body : list Node) (environment : Environment)
  : M Value :=
  evaluateBlock ev body environment.

(** *** evaluateArguments *)

Fixpoint evaluateArgumentsFrom (ev : Eval) (args : list Node)
    (environment : Environment) (positionalArguments : list Value)
    (keywordArguments : JMap) : M (list Value * JMap) :=
  match args with
  | [] => ret (positionalArguments, keywordArguments)
  | argument :: args' =>
      match argument with
      | SpreadExpression spreadArgument =>
          val <- ev spreadArgument environment ;;
          match asArray val with
          | Some a =>
              items <- readArray a ;;
              evaluateArgumentsFrom ev args' environment
                (positionalArguments ++ items) keywordArguments
          | None => throw (Error ("Cannot unpack non-iterable type: " ++ typeOf val))
          end
      | KeywordArgumentExpression key value =>
          v <- ev value environment ;;
          evaluateArgumentsFrom ev args' environment
            positionalArguments (map_set key v keywordArguments)
      | _ =>
          if (0 <? length keywordArguments)%nat
          then throw (Error "Positional arguments must come before keyword arguments")
          else
            v <- ev argument environment ;;
            evaluateArgumentsFrom ev args' environment
              (positionalArguments ++ [v]) keywordArguments
      end
  end.

Definition evaluateArguments (ev : Eval) (args : list Node)
    (environment : Environment) : M (list Value * JMap) :=
  evaluateArgumentsFrom ev args environment [] [].

(** *** evaluateBinaryExpression *)

(** The numeric operators, on the [value]s of two numeric operands;
    [None] when the [switch] has no case for the operator. *)
Definition numericOperation (operator : string) (isFloat : bool) (a b : number)
  : option Value :=
  let tagged (res : number) := if isFloat then FloatValue res else IntegerValue res in
  if String.eqb operator "+" then Some (tagged (num_arith OpAdd a b))
  else if String.eqb operator "-" then Some (tagged (num_arith OpSub a b))
  else if String.eqb operator "*" then Some (tagged (num_arith OpMul a b))
  else if String.eqb operator "/" then Some (FloatValue (num_arith OpDiv a b))
  else if String.eqb operator "%" then Some (tagged (num_arith OpRem a b))
  else if String.eqb operator "<" then Some (BooleanValue (num_cmp OpLt a b))
  else if String.eqb operator ">" then Some (BooleanValue (num_cmp OpGt a b))
  else if String.eqb operator ">=" then Some (BooleanValue (num_cmp OpGe a b))
  else if String.eqb operator "<=" then Some (BooleanValue (num_cmp OpLe a b))
  else None.

Definition isFloatValue (v : Value) : bool :=
  match v with FloatValue _ => true | _ => false end.

(** What follows the chain of [if]s on the operand classes: string
    concatenation, containment in a string or an object, and the final
    [throw]. *)
Definition stringOperation (operator : string) (left right : Value) : M Value :=
  h <- getHeap ;;
  let unknown : M Value :=
    throw (SyntaxError ("Unknown operator " ++ quote ++ operator ++ quote
                          ++ " between " ++ typeOf left ++ " and " ++ typeOf right)) in
  let objectCase : M Value :=
    match left, right with
    | StringValue l, (ObjectValue m | KeywordArgumentsValue m) =>
        if String.eqb operator "in"
        then ret (BooleanValue (map_has l (getMap h m)))
        else if String.eqb operator "not in"
             then ret (BooleanValue (negb (map_has l (getMap h m))))
             else unknown
    | _, _ => unknown
    end in
  let containmentCase : M Value :=
    match left, right with
    | StringValue l, StringValue r =>
        if String.eqb operator "in" then ret (BooleanValue (includes r l))
        else if String.eqb operator "not in"
             then ret (BooleanValue (negb (includes r l)))
             else objectCase
    | _, _ => objectCase
    end in
  if (isString left || isString right) && String.eqb operator "+"
  then
    match valueToString h left, valueToString h right with
    | Some l, Some r => ret (StringValue (l ++ r))
    | _, _ => throw (TypeError "Cannot read properties of null")
    end
  else containmentCase.

(** [evaluateBinaryExpression] from the point where both operands are
    evaluated, that is, for every operator but [and] and [or]. *)
Definition binaryOperation (operator : string) (left right : Value) : M Value :=
  h <- getHeap ;;
  if String.eqb operator "==" then ret (BooleanValue (looseEq h left right))
  else if String.eqb operator "!=" then ret (BooleanValue (negb (looseEq h left right)))
  else if isUndefined left || isUndefined right then
    if isUndefined right && (String.eqb operator "in" || String.eqb operator "not in")
    then ret (BooleanValue (String.eqb operator "not in"))
    else throw (Error ("Cannot perform operation " ++ operator ++ " on undefined values"))
  else if isNull left || isNull right then
    throw (Error "Cannot perform operation on null values")
  else if String.eqb operator "~" then
    match valueToString h left, valueToString h right with
    | Some l, Some r => ret (StringValue (l ++ r))
    | _, _ => throw (TypeError "Cannot read properties of null")
    end
  else
    match asNumber left, asNumber right with
    | Some a, Some b =>
        match numericOperation operator (isFloatValue left || isFloatValue right) a b with
        | Some v => ret v
        | None => stringOperation operator left right
        end
    | _, _ =>
        match asArray left, asArray right with
        | Some x, Some y =>
            if String.eqb operator "+"
            then newArrayValue (getArray h x ++ getArray h y)
            else stringOperation operator left right
        | None, Some y =>
            let member := existsb (fun x => strictEq x left) (getArray h y) in
            if String.eqb operator "in" then ret (BooleanValue member)
            else if String.eqb operator "not in" then ret (BooleanValue (negb member))
            else stringOperation operator left right
        | _, None => stringOperation operator left right
        end
    end.

Definition evaluateBinaryExpression (ev : Eval) (operator : string)
    (leftNode rightNode : Node) (environment : Environment) : M Value :=
  left <- ev leftNode environment ;;
  h <- getHeap ;;
  if String.eqb operator "and" then
    if __bool__ h left then ev rightNode environment else ret left
  else if String.eqb operator "or" then
    if __bool__ h left then ret left else ev rightNode environment
  else
    right <- ev rightNode environment ;;
    binaryOperation operator left right.

(** *** applyFilter *)

Definition newline : string := String "010"%char EmptyString.

(** The comparator that the [sort] filter passes to [Array.prototype.sort]. *)
Definition sortComparator (a b : Value) : Exn + number :=
  if negb (String.eqb (typeOf a) (typeOf b)) then
    inl (Error ("Cannot compare different types: " ++ typeOf a ++ " and " ++ typeOf b))
  else
    match a, b with
    | IntegerValue x, IntegerValue y | FloatValue x, FloatValue y =>
        inr (num_arith OpSub x y)
    | StringValue x, StringValue y => inr (localeCompare x y)
    | _, _ => inl (Error ("Cannot compare type: " ++ typeOf a))
    end.

Definition comesBefore (a b : Value) : bool :=
  match sortComparator a b with
  | inr n => num_cmp OpLt n (Int 0)
  | inl _ => false
  end.

Fixpoint insertSorted (x : Value) (sorted : list Value) : list Value :=
  match sorted with
  | [] => [x]
  | y :: sorted' =>
      if comesBefore x y then x :: sorted else y :: insertSorted x sorted'
  end.

(** The first failure of the comparator on neighbouring elements.  When
    the comparator fails on any pair it fails on one of these, and
    [Array.prototype.sort] on two or more elements calls it. *)
Fixpoint comparatorFailure (items : list Value) : option Exn :=
  match items with
  | a :: ((b :: _) as items') =>
      match sortComparator b a with
      | inl e => Some e
      | inr _ => comparatorFailure items'
      end
  | _ => None
  end.

(** [items.sort(comparator)]: a stable sort; the array is left as it was
    when the comparator throws. *)
Definition sortValues (items : list Value) : Exn + list Value :=
  match comparatorFailure items with
  | Some e => inl e
  | None => inr (fold_left (fun sorted x => insertSorted x sorted) items [])
  end.

(** The loop of the [unique] filter. *)
Fixpoint uniqueFrom (items seen output : list Value) : list Value :=
  match items with
  | [] => output
  | item :: items' =>
      if existsb (sameValueZero item) seen
      then uniqueFrom items' seen output
      else uniqueFrom items' (seen ++ [item]) (output ++ [item])
  end.

(** How [Array.prototype.join] renders the [value] of an element. *)
Definition joinElement (h : Heap) (v : Value) : string :=
  match v with
  | NullValue | UndefinedValue => EmptyString
  | FloatValue n => num_toString n
  | _ => toString h v
  end.

(** [lines.map((x, i) => ...)] of the [indent] filter. *)
Fixpoint indentLines (indent : string) (first blank : bool) (i : nat)
    (lines : list string) : list string :=
  match lines with
  | [] => []
  | x :: lines' =>
      (if (negb first && (i =? 0)%nat) || (negb blank && String.eqb x EmptyString)
       then x else indent ++ x)
        :: indentLines indent first blank (S i) lines'
  end.

(** The filter given by name only: [operand | name]. *)
Definition applyFilterIdentifier (fuel : nat) (operand : Value) (name : string)
  : M Value :=
  h <- getHeap ;;
  if String.eqb name "tojson" then
    s <- toJSON fuel operand None 0 ;; ret (StringValue s)
  else
    match operand with
    | ArrayValue a | TupleValue a =>
        let items := getArray h a in
        if String.eqb name "list" then ret operand
        else if String.eqb name "first" then
          (* [operand.value[0]] of an empty array is JavaScript's
             [undefined], which is no runtime value: a consumer that reads
             its [type] or [value] fails with a TypeError, while a [set]
             stores it and a later lookup reads [UndefinedValue].  The
             model fails at the filter, here and for [last]. *)
          match items with
          | x :: _ => ret x
          | [] => throw (TypeError "Cannot read properties of undefined")
          end
        else if String.eqb name "last" then
          match last items with
          | Some x => ret x
          | None => throw (TypeError "Cannot read properties of undefined")
          end
        else if String.eqb name "length" then
          ret (IntegerValue (Int (Z.of_nat (length items))))
        else if String.eqb name "reverse" then
          writeArray a (rev items) ;;; ret (ArrayValue a)
        else if String.eqb name "sort" then
          match sortValues items with
          | inl e => throw e
          | inr sorted => writeArray a sorted ;;; ret (ArrayValue a)
          end
        else if String.eqb name "join" then
          ret (StringValue (join EmptyString (map (joinElement h) items)))
        else if String.eqb name "string" then
          s <- toJSON fuel operand None 0 ;; ret (StringValue s)
        else if String.eqb name "unique" then
          newArrayValue (uniqueFrom items [] [])
        else throw (Error ("Unknown ArrayValue filter: " ++ name))
    | StringValue s =>
        if String.eqb name "length" then
          ret (IntegerValue (Int (Z.of_nat (String.length s))))
        else if inNames name ["upper"; "lower"; "title"; "capitalize"] then
          callStringBuiltin name s []
        else if String.eqb name "trim" then ret (StringValue (trim s))
        else if String.eqb name "indent" then
          ret (StringValue
                 (join newline (indentLines "    " false false 0 (split s newline))))
        else if String.eqb name "join" || String.eqb name "string" then ret operand
        else if String.eqb name "int" then
          let val := parseInt10 s in
          ret (IntegerValue (if num_isNaN val then Int 0 else val))
        else if String.eqb name "float" then
          let val := parseFloat s in
          ret (FloatValue (if num_isNaN val then Int 0 else val))
        else throw (Error ("Unknown StringValue filter: " ++ name))
    | IntegerValue n | FloatValue n =>
        if String.eqb name "abs" then
          ret (if isFloatValue operand then FloatValue (num_abs n)
               else IntegerValue (num_abs n))
        else if String.eqb name "int" then ret (IntegerValue (num_floor n))
        else if String.eqb name "float" then ret (FloatValue n)
        else throw (Error ("Unknown NumericValue filter: " ++ name))
    | ObjectValue m | KeywordArgumentsValue m =>
        if String.eqb name "items" then objectItems m
        else if String.eqb name "length" then
          ret (IntegerValue (Int (Z.of_nat (length (getMap h m)))))
        else throw (Error ("Unknown ObjectValue filter: " ++ name))
    | BooleanValue b =>
        if String.eqb name "bool" then ret (BooleanValue b)
        else if String.eqb name "int" then ret (IntegerValue (boolNumber b))
        else if String.eqb name "float" then ret (FloatValue (boolNumber b))
        else if String.eqb name "string" then
          ret (StringValue (if b then "true" else "false"))
        else throw (Error ("Unknown BooleanValue filter: " ++ name))
    | _ =>
        throw (Error ("Cannot apply filter " ++ quote ++ name ++ quote
                        ++ " to type: " ++ typeOf operand))
    end.

(** [args.at(0) ?? kwargs.get(key) ?? fallback] *)
Definition argumentOr (args : list Value) (i : nat) (kwargs : JMap) (key : string)
    (fallback : Value) : Value :=
  match args !! i with
  | Some v => v
  | None => default fallback (map_get key kwargs)
  end.

(** [operand.value.filter(...)] of [selectattr] and [rejectattr]. *)
Fixpoint selectItems (select : bool) (attr : option string)
    (testFunction : Value -> option Value -> M bool) (value : option Value)
    (items : list Value) : M (list Value) :=
  match items with
  | [] => ret []
  | item :: items' =>
      match attr with
      | None => throw (TypeError "Cannot read properties of undefined (reading 'value')")
      | Some attrName =>
          entries <- match asObject item with
                     | Some m => readMap m
                     | None => ret []
                     end ;;
          result <- match map_get attrName entries with
                    | Some a => testFunction a value
                    | None => ret false
                    end ;;
          kept <- selectItems select attr testFunction value items' ;;
          ret (if Bool.eqb select result then item :: kept else kept)
      end
  end.

Definition liftTest (test : Value -> option Value -> Exn + bool)
  : Value -> option Value -> M bool :=
  fun a b => match test a b with inl e => throw e | inr r => ret r end.

(** [operand.value.map(...)] of the [map] filter with [attribute]. *)
Fixpoint mapAttribute (attr : string) (defaultValue : option Value)
    (items : list Value) : M (list Value) :=
  match items with
  | [] => ret []
  | item :: items' =>
      match asObject item with
      | None => throw (Error "items in map must be an object")
      | Some m =>
          entries <- readMap m ;;
          mapped <- mapAttribute attr defaultValue items' ;;
          ret (match map_get attr entries with
               | Some v => v
               | None => default UndefinedValue defaultValue
               end :: mapped)
      end
  end.

(** The filter given as a call: [operand | name(args)]. *)
Definition applyFilterCall (fuel : nat) (ev : Eval) (operand : Value)
    (filterName : string) (filterArgs : list Node) (environment : Environment)
  : M Value :=
  let cannotApply : M Value :=
    throw (Error ("Cannot apply filter " ++ quote ++ filterName ++ quote
                    ++ " to type: " ++ typeOf operand)) in
  if String.eqb filterName "tojson" then
    p <- evaluateArguments ev filterArgs environment ;;
    match default NullValue (map_get "indent" (snd p)) with
    | IntegerValue n => s <- toJSON fuel operand (Some n) 0 ;; ret (StringValue s)
    | NullValue => s <- toJSON fuel operand None 0 ;; ret (StringValue s)
    | _ => throw (Error "If set, indent must be a number")
    end
  else if String.eqb filterName "join" then
    value <- match operand with
             | StringValue s => ret (map StringValue (characters s))
             | ArrayValue a | TupleValue a => readArray a
             | _ => cannotApply ;;; ret []
             end ;;
    p <- evaluateArguments ev filterArgs environment ;;
    match argumentOr (fst p) 0 (snd p) "separator" (StringValue EmptyString) with
    | StringValue separator =>
        h <- getHeap ;;
        ret (StringValue (join separator (map (joinElement h) value)))
    | _ => throw (Error "separator must be a string")
    end
  else if String.eqb filterName "int" || String.eqb filterName "float" then
    let isInt := String.eqb filterName "int" in
    p <- evaluateArguments ev filterArgs environment ;;
    let defaultValue :=
      argumentOr (fst p) 0 (snd p) "default"
        (if isInt then IntegerValue (Int 0) else FloatValue (Int 0)) in
    match operand with
    | StringValue s =>
        let val := if isInt then parseInt10 s else parseFloat s in
        ret (if num_isNaN val then defaultValue
             else if isInt then IntegerValue val else FloatValue val)
    | IntegerValue _ | FloatValue _ => ret operand
    | BooleanValue b =>
        ret (if isInt then IntegerValue (boolNumber b) else FloatValue (boolNumber b))
    | _ => cannotApply
    end
  else if String.eqb filterName "default" then
    p <- evaluateArguments ev filterArgs environment ;;
    let defaultValue := default (StringValue EmptyString) (fst p !! 0%nat) in
    match argumentOr (fst p) 1 (snd p) "boolean" (BooleanValue false) with
    | BooleanValue booleanValue =>
        h <- getHeap ;;
        if isUndefined operand || (booleanValue && negb (__bool__ h operand))
        then ret defaultValue
        else ret operand
    | _ => throw (Error "`default` filter flag must be a boolean")
    end
  else
    match operand with
    | ArrayValue a | TupleValue a =>
        if String.eqb filterName "selectattr" || String.eqb filterName "rejectattr" then
          let select := String.eqb filterName "selectattr" in
          items <- readArray a ;;
          if existsb (fun x => match asObject x with Some _ => false | None => true end) items
          then throw (Error ("`" ++ filterName ++ "` can only be applied to array of objects"))
          else if existsb (fun x => negb (String.eqb (nodeType x) "StringLiteral")) filterArgs
          then throw (Error ("arguments of `" ++ filterName ++ "` must be strings"))
          else
            evaluated <- mapM (fun x => ev x environment) filterArgs ;;
            let attr := option_map stringValue (evaluated !! 0%nat) in
            let testName := evaluated !! 1%nat in
            let value := evaluated !! 2%nat in
            testFunction <-
              match testName with
              | Some name =>
                  match lookupTest (stringValue name) with
                  | Some test => ret (liftTest test)
                  | None => throw (Error ("Unknown test: " ++ stringValue name))
                  end
              | None =>
                  ret (fun (x : Value) (_ : option Value) =>
                         h <- getHeap ;; ret (__bool__ h x))
              end ;;
            items <- readArray a ;;
            filtered <- selectItems select attr testFunction value items ;;
            newArrayValue filtered
        else if String.eqb filterName "map" then
          p <- evaluateArguments ev filterArgs environment ;;
          match map_get "attribute" (snd p) with
          | Some (StringValue attr) =>
              items <- readArray a ;;
              mapped <- mapAttribute attr (map_get "default" (snd p)) items ;;
              newArrayValue mapped
          | Some _ => throw (Error "attribute must be a string")
          | None =>
              throw (Error "`map` expressions without `attribute` set are not currently supported.")
          end
        else throw (Error ("Unknown ArrayValue filter: " ++ filterName))
    | StringValue s =>
        if String.eqb filterName "indent" then
          p <- evaluateArguments ev filterArgs environment ;;
          match argumentOr (fst p) 0 (snd p) "width" (IntegerValue (Int 4)) with
          | IntegerValue width =>
              let first := argumentOr (fst p) 1 (snd p) "first" (BooleanValue false) in
              let blank := argumentOr (fst p) 2 (snd p) "blank" (BooleanValue false) in
              let lines := split s newline in
              indent <- repeatSpaces width ;;
              ret (StringValue
                     (join newline
                        (indentLines indent (jsTruthy first) (jsTruthy blank) 0 lines)))
          | _ => throw (Error "width must be a number")
          end
        else if String.eqb filterName "replace" then
          p <- evaluateArguments ev filterArgs environment ;;
          kwargs <- allocMap (snd p) ;;
          stringReplace s (fst p ++ [KeywordArgumentsValue kwargs])
        else throw (Error ("Unknown StringValue filter: " ++ filterName))
    | _ => cannotApply
    end.

Definition applyFilter (fuel : nat) (ev : Eval) (operand : Value)
    (filterNode : Node) (environment : Environment) : M Value :=
  match filterNode with
  | Identifier name => applyFilterIdentifier fuel operand name
  | CallExpression callee args =>
      match callee with
      | Identifier filterName =>
          applyFilterCall fuel ev operand filterName args environment
      | _ => throw (Error ("Unknown filter: " ++ nodeType callee))
      end
  | _ => throw (Error ("Unknown filter: " ++ nodeType filterNode))
  end.

(** *** Calling a function value *)

(** The parameter loop of a macro: positional argument, then the caller's
    keyword arguments, then the declared default. *)
Fixpoint bindMacroArguments (ev : Eval) (nodeArgs : list Node) (i : nat)
    (args : list Value) (kwargs : option loc) (macroScope : Environment) : M unit :=
  match nodeArgs with
  | [] => ret tt
  | nodeArg :: nodeArgs' =>
      let passedArg := args !! i in
      match nodeArg with
      | Identifier identifier =>
          match passedArg with
          | None => throw (Error ("Missing positional argument: " ++ identifier))
          | Some v => setVariable macroScope identifier v ;;; ret tt
          end
      | KeywordArgumentExpression key defaultNode =>
          value <- match passedArg with
                   | Some v => ret v
                   | None =>
                       given <- match kwargs with
                                | Some kw => m <- readMap kw ;; ret (map_get key m)
                                | None => ret None
                                end ;;
                       match given with
                       | Some v => ret v
                       | None => ev defaultNode macroScope
                       end
                   end ;;
          setVariable macroScope key value ;;; ret tt
      | _ => throw (Error ("Unknown argument type: " ++ nodeType nodeArg))
      end ;;;
      bindMacroArguments ev nodeArgs' (S i) args kwargs macroScope
  end.

(** The function that [evaluateMacro] stores, applied to [args] in the
    scope handed over by the caller. *)
Definition callMacro (ev : Eval) (nodeArgs body : list Node) (args : list Value)
    (scope : Environment) : M Value :=
  macroScope <- newEnvironment (Some scope) ;;
  let '(args, kwargs) :=
    match last args with
    | Some (KeywordArgumentsValue kw) => (removelast args, Some kw)
    | _ => (args, None)
    end in
  bindMacroArguments ev nodeArgs 0 args kwargs macroScope ;;;
  evaluateBlock ev body macroScope.

Fixpoint bindCallerArguments (params : list Node) (i : nat) (callerArgs : list Value)
    (callBlockEnv : Environment) : M unit :=
  match params with
  | [] => ret tt
  | Identifier name :: params' =>
      setVariable callBlockEnv name (default UndefinedValue (callerArgs !! i)) ;;;
      bindCallerArguments params' (S i) callerArgs callBlockEnv
  | param :: _ =>
      throw (Error ("Caller parameter must be an identifier, got " ++ nodeType param))
  end.

(** The function [callerFn] of [evaluateCallStatement]. *)
Definition callCaller (ev : Eval) (params : option (list Node)) (body : list Node)
    (callerArgs : list Value) (callerEnv : Environment) : M Value :=
  callBlockEnv <- newEnvironment (Some callerEnv) ;;
  match params with
  | Some ps => bindCallerArguments ps 0 callerArgs callBlockEnv
  | None => ret tt
  end ;;;
  evaluateBlock ev body callBlockEnv.

(** [fn.value(args, scope)] *)
Definition callFunction (ev : Eval) (fn : Closure) (args : list Value)
    (scope : Environment) : M Value :=
  match fn with
  | StringBuiltin name this => callStringBuiltin name this args
  | ObjectBuiltin name this => callObjectBuiltin name this args
  | NamespaceFn => callNamespace args
  | MacroFn _ nodeArgs body => callMacro ev nodeArgs body args scope
  | CallerFn params body => callCaller ev params body args scope
  | HostFn name => callHost name args
  end.

(** *** Expressions *)

Definition evaluateTestExpression (ev : Eval) (operandNode : Node) (negate : bool)
    (test : string) (environment : Environment) : M Value :=
  operand <- ev operandNode environment ;;
  match lookupTest test with
  | None => throw (Error ("Unknown test: " ++ test))
  | Some f =>
      result <- liftTest f operand None ;;
      ret (BooleanValue (if negate then negb result else result))
  end.

Definition evaluateSelectExpression (ev : Eval) (lhs test : Node)
    (environment : Environment) : M Value :=
  predicate <- ev test environment ;;
  h <- getHeap ;;
  if negb (__bool__ h predicate) then ret UndefinedValue
  else ev lhs environment.

Definition evaluateUnaryExpression (ev : Eval) (operator : string) (argumentNode : Node)
    (environment : Environment) : M Value :=
  argument <- ev argumentNode environment ;;
  if String.eqb operator "not" then ret (BooleanValue (negb (jsTruthy argument)))
  else throw (SyntaxError ("Unknown operator: " ++ operator)).

Definition evaluateTernaryExpression (ev : Eval) (condition trueExpr falseExpr : Node)
    (environment : Environment) : M Value :=
  cond <- ev condition environment ;;
  h <- getHeap ;;
  if __bool__ h cond then ev trueExpr environment else ev falseExpr environment.

Definition evaluateIdentifier (value : string) (environment : Environment) : M Value :=
  h <- getHeap ;; ret (lookupVariable h environment value).

Definition evaluateCallExpression (ev : Eval) (callee : Node) (exprArgs : list Node)
    (environment : Environment) : M Value :=
  p <- evaluateArguments ev exprArgs environment ;;
  args <- (if (0 <? length (snd p))%nat
           then kw <- allocMap (snd p) ;; ret (fst p ++ [KeywordArgumentsValue kw])%list
           else ret (fst p)) ;;
  fn <- ev callee environment ;;
  match fn with
  | FunctionValue f => callFunction ev f args environment
  | _ => throw (Error ("Cannot call something that is not a function: got " ++ typeOf fn))
  end.

(** [this.evaluate(expr.start, environment)] where the bound may be
    missing: [evaluate(undefined)] is [UndefinedValue]. *)
Definition evaluateOptional (ev : Eval) (node : option Node) (environment : Environment)
  : M Value :=
  match node with
  | Some n => ev n environment
  | None => ret UndefinedValue
  end.

(** The [value] of a slice bound that passed validation. *)
Definition sliceBound (what : string) (v : Value) : M (option number) :=
  match v with
  | IntegerValue n => ret (Some n)
  | UndefinedValue => ret None
  | _ => throw (Error ("Slice " ++ what ++ " must be numeric or undefined"))
  end.

Definition evaluateSliceExpression (ev : Eval) (object : Value)
    (start stop step : option Node) (environment : Environment) : M Value :=
  match object with
  | ArrayValue _ | TupleValue _ | StringValue _ =>
      startValue <- evaluateOptional ev start environment ;;
      stopValue <- evaluateOptional ev stop environment ;;
      stepValue <- evaluateOptional ev step environment ;;
      startBound <- sliceBound "start" startValue ;;
      stopBound <- sliceBound "stop" stopValue ;;
      stepBound <- sliceBound "step" stepValue ;;
      match object with
      | StringValue s =>
          ret (StringValue
                 (join EmptyString (slice string (characters s) startBound stopBound stepBound)))
      | _ =>
          items <- match asArray object with Some a => readArray a | None => ret [] end ;;
          newArrayValue (slice Value items startBound stopBound stepBound)
      end
  | _ => throw (Error "Slice object must be an array or string")
  end.

(** [list.at(n)] *)
Definition at_ {A} (l : list A) (n : number) : option A :=
  match toIntegerOrInfinity n with
  | Finite z =>
      let k := (if z <? 0 then Z.of_nat (length l) + z else z)%Z in
      if (k <? 0)%Z then None else l !! Z.to_nat k
  | _ => None
  end.

Definition evaluateMemberExpression (ev : Eval) (objectNode property : Node)
    (computed : bool) (environment : Environment) : M Value :=
  object <- ev objectNode environment ;;
  let access (property : Value) : M Value :=
    h <- getHeap ;;
    match object with
    | ObjectValue m | KeywordArgumentsValue m =>
        match property with
        | StringValue p =>
            ret (match map_get p (getMap h m) with
                 | Some v => v
                 | None => default UndefinedValue (builtinsGet h object p)
                 end)
        | _ => throw (Error ("Cannot access property with non-string: got "
                               ++ typeOf property))
        end
    | ArrayValue _ | TupleValue _ | StringValue _ =>
        match property with
        | IntegerValue n =>
            match object with
            | StringValue s =>
                (* [new StringValue(undefined)] fails while it builds its
                   [length] member *)
                match at_ (characters s) n with
                | Some c => ret (StringValue c)
                | None => throw (TypeError "Cannot read properties of undefined (reading 'length')")
                end
            | _ =>
                ret (default UndefinedValue
                       (at_ (match asArray object with
                             | Some a => getArray h a
                             | None => []
                             end) n))
            end
        | StringValue p => ret (default UndefinedValue (builtinsGet h object p))
        | _ => throw (Error ("Cannot access property with non-string/non-number: got "
                               ++ typeOf property))
        end
    | _ =>
        match property with
        | StringValue p => ret (default UndefinedValue (builtinsGet h object p))
        | _ => throw (Error ("Cannot access property with non-string: got "
                               ++ typeOf property))
        end
    end in
  if computed then
    match property with
    | SliceExpression start stop step =>
        evaluateSliceExpression ev object start stop step environment
    | _ => p <- ev property environment ;; access p
    end
  else
    (* [(expr.property as Identifier).value] reads the field of whatever
       node is there; the parser puts an identifier.  On a node whose
       [value] is no string the construction of the [StringValue] fails
       or yields no runtime string. *)
    match property with
    | Identifier name | StringLiteral name | Comment name =>
        access (StringValue name)
    | _ => throw (TypeError "Cannot read properties of undefined")
    end.

(** *** Statements *)

(** The loop of [evaluateSet] over the targets of a tuple. *)
Fixpoint unpackInSet (targets : list Node) (arr : list Value)
    (environment : Environment) : M unit :=
  match targets, arr with
  | elem :: targets', v :: arr' =>
      match elem with
      | Identifier name =>
          setVariable environment name v ;;; unpackInSet targets' arr' environment
      | _ => throw (Error ("Cannot unpack to non-identifier in set: " ++ nodeType elem))
      end
  | _, _ => ret tt
  end.

Definition evaluateSet (ev : Eval) (assignee : Node) (value : option Node)
    (body : list Node) (environment : Environment) : M Value :=
  rhs <- match value with
         | Some v => ev v environment
         | None => evaluateBlock ev body environment
         end ;;
  match assignee with
  | Identifier variableName => setVariable environment variableName rhs ;;; ret tt
  | TupleLiteral targets =>
      match asArray rhs with
      | None => throw (Error ("Cannot unpack non-iterable type in set: " ++ typeOf rhs))
      | Some a =>
          arr <- readArray a ;;
          if negb (length arr =? length targets)%nat
          then throw (Error ("Too " ++ (if (length arr <? length targets)%nat
                                        then "few" else "many")
                               ++ " items to unpack in set"))
          else unpackInSet targets arr environment
      end
  | MemberExpression objectNode property _ =>
      object <- ev objectNode environment ;;
      match asObject object with
      | None => throw (Error "Cannot assign to member of non-object")
      | Some m =>
          match property with
          | Identifier name =>
              entries <- readMap m ;; writeMap m (map_set name rhs entries)
          | _ => throw (Error "Cannot assign to member with non-identifier property")
          end
      end
  (* the source appends [JSON.stringify(node.assignee)] to the message *)
  | _ => throw (Error "Invalid LHS inside assignment expression")
  end ;;;
  ret NullValue.

Definition evaluateIf (ev : Eval) (test : Node) (body alternate : list Node)
    (environment : Environment) : M Value :=
  t <- ev test environment ;;
  h <- getHeap ;;
  evaluateBlock ev (if __bool__ h t then body else alternate) environment.

(** The closures [scopeUpdateFunction] of [evaluateFor], with what each
    closes over: the loop variable and the current item, or the targets
    and the array [c] that is read when the update runs. *)
Inductive ScopeUpdate : Set :=
| UpdateIdentifier (name : string) (current : Value)
| UpdateTuple (targets : list Node) (c : loc).

Fixpoint unpackInLoop (targets : list Node) (j : nat) (c : list Value)
    (scope : Environment) : M unit :=
  match targets with
  | [] => ret tt
  | Identifier name :: targets' =>
      setVariable scope name (default UndefinedValue (c !! j)) ;;;
      unpackInLoop targets' (S j) c scope
  | target :: _ =>
      throw (Error ("Cannot unpack non-identifier type: " ++ nodeType target))
  end.

Definition applyScopeUpdate (update : ScopeUpdate) (scope : Environment) : M unit :=
  match update with
  | UpdateIdentifier name current => setVariable scope name current ;;; ret tt
  | UpdateTuple targets c => items <- readArray c ;; unpackInLoop targets 0 items scope
  end.

(** The first loop of [evaluateFor]: the items that pass the test of a
    select expression, each with its scope update.  [remaining] counts
    the indices from [i] to the length of the iterable. *)
Fixpoint collectItems (ev : Eval) (loopvar : Node) (test : option Node)
    (scope : Environment) (iterable : loc) (remaining i : nat)
    (items : list Value) (scopeUpdateFunctions : list ScopeUpdate)
  : M (list Value * list ScopeUpdate) :=
  match remaining with
  | O => ret (items, scopeUpdateFunctions)
  | S remaining' =>
      loopScope <- newEnvironment (Some scope) ;;
      array <- readArray iterable ;;
      let current := default UndefinedValue (array !! i) in
      scopeUpdateFunction <-
        match loopvar with
        | Identifier name => ret (UpdateIdentifier name current)
        | TupleLiteral targets =>
            match current with
            | ArrayValue c =>
                cv <- readArray c ;;
                if negb (length targets =? length cv)%nat
                then throw (Error ("Too " ++ (if (length cv <? length targets)%nat
                                              then "few" else "many")
                                     ++ " items to unpack"))
                else ret (UpdateTuple targets c)
            | _ => throw (Error ("Cannot unpack non-iterable type: " ++ typeOf current))
            end
        | _ => throw (Error ("Invalid loop variable(s): " ++ nodeType loopvar))
        end ;;
      keep <- match test with
              | Some t =>
                  applyScopeUpdate scopeUpdateFunction loopScope ;;;
                  testValue <- ev t loopScope ;;
                  h <- getHeap ;;
                  ret (__bool__ h testValue)
              | None => ret true
              end ;;
      if keep
      then collectItems ev loopvar test scope iterable remaining' (S i)
             (items ++ [current]) (scopeUpdateFunctions ++ [scopeUpdateFunction])
      else collectItems ev loopvar test scope iterable remaining' (S i)
             items scopeUpdateFunctions
  end.

(** The [Map] that iteration [i] over [items] binds to [loop]. *)
Definition loopObject (items : list Value) (i : nat) : JMap :=
  let n := Z.of_nat (length items) in
  let i' := Z.of_nat i in
  [ ("index", IntegerValue (Int (i' + 1)));
    ("index0", IntegerValue (Int i'));
    ("revindex", IntegerValue (Int (n - i')));
    ("revindex0", IntegerValue (Int (n - i' - 1)));
    ("first", BooleanValue (i' =? 0)%Z);
    ("last", BooleanValue (i' =? n - 1)%Z);
    ("length", IntegerValue (Int n));
    ("previtem", if (0 <? i')%Z then default UndefinedValue (items !! (i - 1)%nat)
                 else UndefinedValue);
    ("nextitem", if (i' <? n - 1)%Z then default UndefinedValue (items !! (i + 1)%nat)
                 else UndefinedValue) ].

(** What an iteration does before the body: bind [loop], then run the
    scope update of the item. *)
Definition enterIteration (scope : Environment) (items : list Value) (i : nat)
    (update : ScopeUpdate) : M unit :=
  loop <- allocMap (loopObject items i) ;;
  setVariable scope "loop" (ObjectValue loop) ;;;
  applyScopeUpdate update scope.

(** The second loop of [evaluateFor], from iteration [i] on; [updates]
    are the scope updates of the items still to come. *)
Fixpoint iterateItems (ev : Eval) (body : list Node) (scope : Environment)
    (items : list Value) (updates : list ScopeUpdate) (i : nat)
    (result : string) (noIteration : bool) : M (string * bool) :=
  match updates with
  | [] => ret (result, noIteration)
  | update :: updates' =>
      enterIteration scope items i update ;;;
      fun h =>
        match evaluateBlock ev body scope h with
        | Ok evaluated h' =>
            iterateItems ev body scope items updates' (S i)
              (result ++ stringValue evaluated) false h'
        | Throw ContinueControl h' =>
            iterateItems ev body scope items updates' (S i) result noIteration h'
        | Throw BreakControl h' => Ok (result, noIteration) h'
        | Throw e h' => Throw e h'
        | OutOfFuel => OutOfFuel
        end
  end.

Definition evaluateFor (ev : Eval) (loopvar iterableNode : Node)
    (body defaultBlock : list Node) (environment : Environment) : M Value :=
  scope <- newEnvironment (Some environment) ;;
  p <- match iterableNode with
       | SelectExpression lhs test =>
           iterable <- ev lhs scope ;; ret (iterable, Some test)
       | _ => iterable <- ev iterableNode scope ;; ret (iterable, None)
       end ;;
  let '(iterable, test) := p in
  array <- match iterable with
           | ArrayValue a | TupleValue a => ret a
           | ObjectValue m | KeywordArgumentsValue m =>
               keys <- objectKeys m ;;
               ret (match keys with ArrayValue a => a | _ => 0%nat end)
           | _ => throw (Error ("Expected iterable or object type in for loop: got "
                                  ++ typeOf iterable))
           end ;;
  candidates <- readArray array ;;
  collected <- collectItems ev loopvar test scope array (length candidates) 0 [] [] ;;
  let '(items, scopeUpdateFunctions) := collected in
  r <- iterateItems ev body scope items scopeUpdateFunctions 0 EmptyString true ;;
  let '(result, noIteration) := r in
  if noIteration then
    defaultEvaluated <- evaluateBlock ev defaultBlock scope ;;
    ret (StringValue (result ++ stringValue defaultEvaluated))
  else ret (StringValue result).

Definition evaluateMacro (name : string) (args body : list Node)
    (environment : Environment) : M Value :=
  setVariable environment name (FunctionValue (MacroFn name args body)) ;;;
  ret NullValue.

Definition evaluateCallStatement (ev : Eval) (callee : Node) (callArgs : list Node)
    (callerArgs : option (list Node)) (body : list Node) (environment : Environment)
  : M Value :=
  let callerFn := FunctionValue (CallerFn callerArgs body) in
  p <- evaluateArguments ev callArgs environment ;;
  kw <- allocMap (snd p) ;;
  let macroArgs := (fst p ++ [KeywordArgumentsValue kw])%list in
  fn <- ev callee environment ;;
  match fn with
  | FunctionValue f =>
      newEnv <- newEnvironment (Some environment) ;;
      setVariable newEnv "caller" callerFn ;;;
      callFunction ev f macroArgs newEnv
  | _ => throw (Error ("Cannot call something that is not a function: got " ++ typeOf fn))
  end.

Definition evaluateFilterStatement (fuel : nat) (ev : Eval) (filter : Node)
    (body : list Node) (environment : Environment) : M Value :=
  rendered <- evaluateBlock ev body environment ;;
  applyFilter fuel ev rendered filter environment.

Definition evaluateFilterExpression (fuel : nat) (ev : Eval) (operandNode filter : Node)
    (environment : Environment) : M Value :=
  operand <- ev operandNode environment ;;
  applyFilter fuel ev operand filter environment.

(** The loop of the [ObjectLiteral] case of [evaluate]. *)
Fixpoint evaluateEntries (ev : Eval) (entries : list (Node * Node))
    (environment : Environment) (mapping : JMap) : M JMap :=
  match entries with
  | [] => ret mapping
  | (key, value) :: entries' =>
      evaluatedKey <- ev key environment ;;
      match evaluatedKey with
      | StringValue k =>
          v <- ev value environment ;;
          evaluateEntries ev entries' environment (map_set k v mapping)
      | _ => throw (Error ("Object keys must be strings: got " ++ typeOf evaluatedKey))
      end
  end.

(** *** evaluate *)

(** One level of [evaluate], with [ev] for the recursive calls and [fuel]
    for the nesting that [toJSON] may still use. *)
Definition evaluateNode (fuel : nat) (ev : Eval) (statement : Node)
    (environment : Environment) : M Value :=
  match statement with
  | Program body => evalProgram ev body environment
  | SetStatement assignee value body => evaluateSet ev assignee value body environment
  | If test body alternate => evaluateIf ev test body alternate environment
  | For loopvar iterable body defaultBlock =>
      evaluateFor ev loopvar iterable body defaultBlock environment
  | Macro name args body => evaluateMacro name args body environment
  | CallStatement callee args callerArgs body =>
      evaluateCallStatement ev callee args callerArgs body environment
  | Break => throw BreakControl
  | Continue => throw ContinueControl
  | IntegerLiteral value => ret (IntegerValue value)
  | FloatLiteral value => ret (FloatValue value)
  | StringLiteral value => ret (StringValue value)
  | ArrayLiteral value =>
      items <- mapM (fun x => ev x environment) value ;;
      l <- allocArray items ;; ret (ArrayValue l)
  | TupleLiteral value =>
      items <- mapM (fun x => ev x environment) value ;;
      l <- allocArray items ;; ret (TupleValue l)
  | ObjectLiteral value =>
      mapping <- evaluateEntries ev value environment [] ;;
      newObjectValue mapping
  | Identifier value => evaluateIdentifier value environment
  | CallExpression callee args => evaluateCallExpression ev callee args environment
  | MemberExpression object property computed =>
      evaluateMemberExpression ev object property computed environment
  | UnaryExpression operator argument =>
      evaluateUnaryExpression ev operator argument environment
  | BinaryExpression operator leftNode rightNode =>
      evaluateBinaryExpression ev operator leftNode rightNode environment
  | FilterExpression operand filter =>
      evaluateFilterExpression fuel ev operand filter environment
  | FilterStatement filter body =>
      evaluateFilterStatement fuel ev filter body environment
  | TestExpression operand negate test =>
      evaluateTestExpression ev operand negate test environment
  | SelectExpression lhs test => evaluateSelectExpression ev lhs test environment
  | Ternary condition trueExpr falseExpr =>
      evaluateTernaryExpression ev condition trueExpr falseExpr environment
  | Comment _ => ret NullValue
  | SliceExpression _ _ _ | KeywordArgumentExpression _ _ | SpreadExpression _
  | OtherNode _ =>
      throw (SyntaxError ("Unknown node type: " ++ nodeType statement))
  end.

(** [Interpreter.evaluate].  The budget bounds the depth of the recursion,
    which the nesting of macro calls makes unbounded; JavaScript ends such
    a run by exhausting its stack. *)
Fixpoint evaluate (fuel : nat) (statement : Node) (environment : Environment)
  : M Value :=
  match fuel with
  | O => fun _ => OutOfFuel
  | S fuel' => evaluateNode fuel' (evaluate fuel') statement environment
  end.

(** [new Interpreter(env).run(program)] *)
Definition run (fuel : nat) (global : Environment) (program : Node) : M Value :=
  evaluate fuel program global.

(** [new Interpreter().run(program)]: the global environment is a fresh
    one. *)
Definition runFresh (fuel : nat) (program : Node) : M Value :=
  global <- newEnvironment None ;; run fuel global program.

(** A run as a host sets it up: a fresh global environment on an empty
    heap, seeded by [setupGlobals]. *)
Definition runWithGlobals (fuel : nat) (program : Node) : Result Value :=
  (global <- newEnvironment None ;;
   setupGlobals global ;;;
   run fuel global program) emptyHeap.

End Runtime.

(** ** A reference implementation of the built-ins

    Used to run the interpreter on concrete templates.  Arithmetic is IEEE
    binary64 through [SpecFloat]; strings are ASCII.  Where JavaScript's
    behaviour depends on Unicode tables, the locale or the shortest
    round-trip printing of a fraction, the implementation below is the
    ASCII or exact-decimal reading of it. *)
Module Reference.

Definition prec : Z := 53.
Definition emax : Z := 1024.

Definition ofZ (z : Z) : float64 := binary_normalize prec emax z 0 false.

Definition toFloat (n : number) : float64 :=
  match n with Int z => ofZ z | Flt f => f end.

(** The integer that a float denotes, when it denotes one; the negative
    zero is not taken for the integer 0. *)
Definition integerOf (f : float64) : option Z :=
  match f with
  | S754_zero false => Some 0%Z
  | S754_finite s m e =>
      let magnitude :=
        if (0 <=? e)%Z then Some (Zpos m * 2 ^ e)%Z
        else if (Zpos m mod 2 ^ (- e) =? 0)%Z then Some (Zpos m / 2 ^ (- e))%Z
             else None in
      option_map (fun z => if s then (- z)%Z else z) magnitude
  | _ => None
  end.

Definition ofFloat (f : float64) : number :=
  match integerOf f with
  | Some z => if safeInteger z then Int z else Flt f
  | None => Flt f
  end.

Definition isNaN (f : float64) : bool :=
  match f with S754_nan => true | _ => false end.
Definition isFinite (f : float64) : bool :=
  match f with S754_zero _ | S754_finite _ _ _ => true | _ => false end.
Definition isZero (f : float64) : bool :=
  match f with S754_zero _ => true | _ => false end.
Definition isNegative (f : float64) : bool :=
  match f with
  | S754_zero s | S754_infinity s | S754_finite s _ _ => s
  | S754_nan => false
  end.

(** [a % b]: the remainder of the truncated division, which is exact. *)
Definition remainder (a b : float64) : float64 :=
  match a, b with
  | S754_nan, _ | _, S754_nan | S754_infinity _, _ | _, S754_zero _ => S754_nan
  | _, S754_infinity _ | S754_zero _, _ => a
  | S754_finite sa ma ea, S754_finite _ mb eb =>
      let e := Z.min ea eb in
      let r := ((Zpos ma * 2 ^ (ea - e)) mod (Zpos mb * 2 ^ (eb - e)))%Z in
      binary_normalize prec emax (if sa then (- r)%Z else r) e sa
  end.

Definition arith (op : ArithOp) (a b : number) : number :=
  let x := toFloat a in
  let y := toFloat b in
  ofFloat match op with
          | OpAdd => SFadd prec emax x y
          | OpSub => SFsub prec emax x y
          | OpMul => SFmul prec emax x y
          | OpDiv => SFdiv prec emax x y
          | OpRem => remainder x y
          end.

Definition cmp (op : CmpOp) (a b : number) : bool :=
  let x := toFloat a in
  let y := toFloat b in
  match op with
  | OpLt => SFltb x y
  | OpGt => SFltb y x
  | OpGe => SFleb y x
  | OpLe => SFleb x y
  end.

(** The integer part, towards zero. *)
Definition truncate (f : float64) : IntegerOrInfinity :=
  match f with
  | S754_zero _ | S754_nan => Finite 0
  | S754_infinity s => if s then NegInfinity else PosInfinity
  | S754_finite s m e =>
      let magnitude := (if 0 <=? e then Zpos m * 2 ^ e else Zpos m / 2 ^ (- e))%Z in
      Finite (if s then - magnitude else magnitude)%Z
  end.

Definition floor (f : float64) : number :=
  match f with
  | S754_finite true m e =>
      match integerOf f with
      | Some _ => ofFloat f
      | None => ofFloat (ofZ (- (Zpos m / 2 ^ (- e)) - 1)%Z)
      end
  | S754_finite false m e =>
      match truncate f with Finite z => ofFloat (ofZ z) | _ => Flt f end
  | _ => ofFloat f
  end.

Fixpoint skipZeros (s : string) : string :=
  match s with
  | String "0" s' => skipZeros s'
  | _ => s
  end.

Definition withoutTrailingZeros (s : string) : string :=
  revString (skipZeros (revString s EmptyString)) EmptyString.

(** The decimal expansion of m * 2^e for e < 0, which is finite: the
    digits of m * 5^(-e) with the point -e places from the right. *)
Definition fractionDigits (m : positive) (e : Z) : string :=
  let k := Z.to_nat (- e) in
  let scaled := (Zpos m * 5 ^ (- e))%Z in
  let whole := (scaled / 10 ^ (- e))%Z in
  let part := (scaled mod 10 ^ (- e))%Z in
  let digits := NilZero.string_of_int (Z.to_int part) in
  NilZero.string_of_int (Z.to_int whole) ++ "."
    ++ withoutTrailingZeros (repeatString "0" (k - String.length digits) ++ digits).

Definition floatToString (f : float64) : string :=
  match f with
  | S754_nan => "NaN"
  | S754_infinity s => if s then "-Infinity" else "Infinity"
  | S754_zero _ => "0"
  | S754_finite s m e =>
      (if s then "-" else EmptyString)
        ++ (if (0 <=? e)%Z then NilZero.string_of_int (Z.to_int (Zpos m * 2 ^ e))
            else if (Zpos m mod 2 ^ (- e) =? 0)%Z
                 then NilZero.string_of_int (Z.to_int (Zpos m / 2 ^ (- e)))
                 else fractionDigits m e)
  end.

(** [x.toFixed(1)]: the nearest multiple of 1/10, the larger of two. *)
Definition floatToFixed1 (f : float64) : string :=
  match f with
  | S754_zero s => if s then "-0.0" else "0.0"
  | S754_finite s m e =>
      let tenths :=
        (if 0 <=? e then Zpos m * 2 ^ e * 10
         else (2 * Zpos m * 10 + 2 ^ (- e)) / (2 * 2 ^ (- e)))%Z in
      (if s then "-" else EmptyString)
        ++ NilZero.string_of_int (Z.to_int (tenths / 10)) ++ "."
        ++ NilZero.string_of_int (Z.to_int (tenths mod 10))
  | _ => floatToString f
  end.

(** The white space of JavaScript among the ASCII characters: tab, line
    feed, vertical tab, form feed, carriage return and space.  Its other
    white space (U+00A0, U+FEFF, the Unicode space separators and line
    terminators) is not ASCII. *)
Definition whitespace (c : ascii) : bool :=
  let n := nat_of_ascii c in
  ((9 <=? n) && (n <=? 13) || (n =? 32))%nat.

Definition mapChars (f : ascii -> ascii) : string -> string :=
  fix go (s : string) : string :=
    match s with
    | EmptyString => EmptyString
    | String c s' => String (f c) (go s')
    end.

Definition upperChar (c : ascii) : ascii :=
  let n := nat_of_ascii c in
  if ((97 <=? n) && (n <=? 122))%nat then ascii_of_nat (n - 32) else c.
Definition lowerChar (c : ascii) : ascii :=
  let n := nat_of_ascii c in
  if ((65 <=? n) && (n <=? 90))%nat then ascii_of_nat (n + 32) else c.

Definition compareStrings (a b : string) : number :=
  match String.compare a b with
  | Lt => Int (-1)
  | Eq => Int 0
  | Gt => Int 1
  end.

Definition digitOf (c : ascii) : option Z :=
  let n := nat_of_ascii c in
  if ((48 <=? n) && (n <=? 57))%nat then Some (Z.of_nat (n - 48)) else None.

(** The digits that [s] starts with: their value, their number and the
    rest of [s]. *)
Fixpoint readDigits (s : string) (value : Z) (count : nat) : Z * nat * string :=
  match s with
  | String c s' =>
      match digitOf c with
      | Some d => readDigits s' (10 * value + d)%Z (S count)
      | None => (value, count, s)
      end
  | EmptyString => (value, count, s)
  end.

Definition readSign (s : string) : bool * string :=
  match s with
  | String "-" s' => (true, s')
  | String "+" s' => (false, s')
  | _ => (false, s)
  end.

Definition signed (negative : bool) (z : Z) : float64 :=
  if negative then SFopp (ofZ z) else ofZ z.

Fixpoint skipSpaces (s : string) : string :=
  match s with
  | String c s' => if whitespace c then skipSpaces s' else s
  | EmptyString => EmptyString
  end.

Definition parseInteger (s : string) : number :=
  let '(negative, s1) := readSign (skipSpaces s) in
  let '(value, count, _) := readDigits s1 0 0 in
  if (count =? 0)%nat then Flt S754_nan else ofFloat (signed negative value).

(** A decimal numeral without exponent at the start of [s], and what
    follows it. *)
Definition readDecimal (s : string) : option (float64 * string) :=
  let '(negative, s1) := readSign s in
  let '(whole, count, s2) := readDigits s1 0 0 in
  match s2 with
  | String "." s3 =>
      let '(part, places, s4) := readDigits s3 0 0 in
      if ((count =? 0) && (places =? 0))%nat then None
      else Some (SFdiv prec emax (signed negative (whole * 10 ^ Z.of_nat places + part))
                       (ofZ (10 ^ Z.of_nat places)), s4)
  | _ => if (count =? 0)%nat then None else Some (signed negative whole, s2)
  end.

Definition parseFloatPrefix (s : string) : number :=
  match readDecimal (skipSpaces s) with
  | Some (f, _) => ofFloat f
  | None => Flt S754_nan
  end.

Definition toNumber (s : string) : number :=
  let t := revString (skipSpaces (revString (skipSpaces s) EmptyString)) EmptyString in
  match t with
  | EmptyString => Int 0
  | _ =>
      match readDecimal t with
      | Some (f, EmptyString) => ofFloat f
      | _ => Flt S754_nan
      end
  end.

Definition escapeChar (c : ascii) : string :=
  let n := nat_of_ascii c in
  if (n =? 34)%nat then String "\" quote
  else if (n =? 92)%nat then "\\"
  else if (n =? 10)%nat then "\n"
  else if (n =? 13)%nat then "\r"
  else if (n =? 9)%nat then "\t"
  else String c EmptyString.

Fixpoint escapeString (s : string) : string :=
  match s with
  | EmptyString => EmptyString
  | String c s' => escapeChar c ++ escapeString s'
  end.

(** Modelled from the spec: [titleCase] of ./utils, "[title] title-cases
    each whitespace-separated word": the first character of the string and
    each character after whitespace is put in upper case. *)
Fixpoint titleCaseFrom (atStart : bool) (s : string) : string :=
  match s with
  | EmptyString => EmptyString
  | String c s' =>
      String (if atStart then upperChar c else c) (titleCaseFrom (whitespace c) s')
  end.

(** Modelled from the spec: [replace] of ./utils, "Replace first [count]
    left-to-right non-overlapping occurrences (or all if [Null])". *)
Fixpoint replaceFuel (fuel : nat) (s old new : string) (count : option nat) : string :=
  match fuel, count with
  | O, _ | _, Some O => s
  | S fuel', _ =>
      match cut old s with
      | None => s
      | Some (before, after) =>
          before ++ new ++ replaceFuel fuel' after old new (option_map pred count)
      end
  end.

Definition replaceCount (s old new : string) (count : option number) : string :=
  if String.eqb old EmptyString then s
  else replaceFuel (String.length s) s old new
         (option_map (fun n => match truncate (toFloat n) with
                               | Finite z => Z.to_nat z
                               | PosInfinity => String.length s
                               | NegInfinity => 0%nat
                               end) count).

(** The indices start, start + step, ... on the side of [stop] given by
    the sign of [step]. *)
Fixpoint sliceIndices (fuel : nat) (i stop step : Z) : list Z :=
  match fuel with
  | O => []
  | S fuel' =>
      if ((0 <? step) && (i <? stop) || (step <? 0) && (stop <? i))%Z
      then i :: sliceIndices fuel' (i + step)%Z stop step
      else []
  end.

Definition boundOf (n : number) : Z :=
  match truncate (toFloat n) with Finite z => z | _ => 0%Z end.

(** Modelled from the spec: [slice] of ./utils, "Semantics mirror Python:
    negative indices count from end; negative step reverses; default step
    is 1". *)
Definition pythonSlice (A : Type) (l : list A) (start stop step : option number)
  : list A :=
  let n := Z.of_nat (length l) in
  let step := match step with Some s => boundOf s | None => 1%Z end in
  let clamp (low high : Z) (bound : option number) (missing : Z) : Z :=
    match bound with
    | None => missing
    | Some b =>
        let z := boundOf b in
        if (z <? 0)%Z then Z.max (n + z) low else Z.min z high
    end in
  let '(first, last) :=
    if (0 <=? step)%Z
    then (clamp 0 n start 0, clamp 0 n stop n)%Z
    else (clamp (-1) (n - 1) start (n - 1), clamp (-1) (n - 1) stop (-1))%Z in
  omap (fun i => l !! Z.to_nat i) (sliceIndices (length l) first last step).

(** Modelled from the spec: [range] of ./utils, the Python builtin. *)
Definition pythonRange (args : list Value) : Exn + HostValue :=
  let numbers := omap (fun v => match v with
                                | IntegerValue n | FloatValue n => Some (boundOf n)
                                | _ => None
                                end) args in
  let build (start stop step : Z) :=
    if (step =? 0)%Z then inl (Error "range() step must not be zero")
    else inr (HArray (map (fun i => HNumber (Int i))
                          (sliceIndices (Z.to_nat (Z.abs (stop - start))) start stop step))) in
  match numbers with
  | [stop] => build 0%Z stop 1%Z
  | [start; stop] => build start stop 1%Z
  | [start; stop; step] => build start stop step
  | _ => inl (Error "range() expects one to three integer arguments")
  end.

Definition sameClosure (f g : Closure) : bool :=
  match f, g with
  | StringBuiltin n s, StringBuiltin n' s' => String.eqb n n' && String.eqb s s'
  | ObjectBuiltin n l, ObjectBuiltin n' l' => String.eqb n n' && Nat.eqb l l'
  | NamespaceFn, NamespaceFn => true
  | MacroFn n _ _, MacroFn n' _ _ => String.eqb n n'
  | HostFn n, HostFn n' => String.eqb n n'
  | _, _ => false
  end.

Definition prims : JSPrims := {|
  fp_arith := arith;
  fp_cmp := cmp;
  fp_eq := fun a b => SFeqb (toFloat a) (toFloat b);
  fp_truthy := fun f => negb (isZero f || isNaN f);
  fp_isNaN := isNaN;
  fp_isFinite := isFinite;
  fp_isInteger := fun f => isZero f || match integerOf f with Some _ => true | None => false end;
  fp_toString := floatToString;
  fp_toFixed1 := floatToFixed1;
  fp_abs := fun f => ofFloat (SFabs f);
  fp_floor := floor;
  fp_toIntegerOrInfinity := truncate;
  isWhitespace := whitespace;
  toUpperCase := mapChars upperChar;
  toLowerCase := mapChars lowerChar;
  localeCompare := compareStrings;
  parseInt10 := parseInteger;
  parseFloat := parseFloatPrefix;
  stringToNumber := toNumber;
  jsonQuote := fun s => quote ++ escapeString s ++ quote;
  titleCase := titleCaseFrom true;
  replace := replaceCount;
  slice := pythonSlice;
  functionSource := fun _ => "function";
  sameFunction := sameClosure;
  hostCall := fun name args _ =>
    if String.eqb name "range" then pythonRange args
    else if String.eqb name "strftime_now" then inr (HString EmptyString)
    else inl (TypeError (name ++ " is not a function"))
|}.

End Reference.

(** ** The specification's reading of the runtime

    Definitions that follow the words of the specification, to be compared
    with the definitions above, which follow the source. *)
Section Specification.
Context {js : JSPrims}.

(** What a statement's result contributes to the output of its block:
    nothing for [Null] and [Undefined], its rendering otherwise. *)
Definition rendering (h : Heap) (v : Value) : string :=
  match v with
  | NullValue | UndefinedValue => EmptyString
  | _ => toString h v
  end.

(** "Evaluate statements in sequence; accumulate stringifications." *)
Fixpoint renderBlock (ev : Eval) (statements : list Node) (environment : Environment)
  : M string :=
  match statements with
  | [] => ret EmptyString
  | statement :: statements' =>
      v <- ev statement environment ;;
      h <- getHeap ;;
      s <- renderBlock ev statements' environment ;;
      ret (rendering h v ++ s)
  end.

(** An environment followed by its parent chain, nearest first. *)
Fixpoint ancestors (env : Environment) : list Environment :=
  match env with
  | mkEnvironment _ parent =>
      env :: match parent with
             | Some p => ancestors p
             | None => []
             end
  end.

Fixpoint firstSome {A : Type} (l : list (option A)) : option A :=
  match l with
  | [] => None
  | Some a :: _ => Some a
  | None :: l' => firstSome l'
  end.

(** The binding of [name] in the nearest environment of the chain that
    has one. *)
Definition nearestBinding (h : Heap) (env : Environment) (name : string)
  : option Value :=
  firstSome (map (fun e => map_get name (getMap h (variables e))) (ancestors env)).

(** The limit on the number of splits that [maxsplit] stands for. *)
Definition splitLimit (maxsplit : Z) : option nat :=
  if (maxsplit =? -1)%Z then None else Some (Z.to_nat maxsplit).

(** The limit that is left once [done] parts are produced. *)
Definition remainingSplits (maxsplit : Z) (done : nat) : option nat :=
  if (maxsplit =? -1)%Z then None else Some (Z.to_nat maxsplit - done)%nat.

Fixpoint noWhitespace (s : string) : bool :=
  match s with
  | EmptyString => true
  | String c s' => negb (isWhitespace c) && noWhitespace s'
  end.

Definition startsWithWhitespace (s : string) : bool :=
  match s with
  | String c _ => isWhitespace c
  | EmptyString => false
  end.

(** [sep=Null]: "split on runs of whitespace, trimming leading whitespace;
    when [maxsplit] is reached, the remainder (including interior
    whitespace) becomes the last element."  A part is a maximal run of
    characters that are not whitespace. *)
Inductive WhitespaceSplit : option nat -> string -> list string -> Prop :=
| ws_nothing limit s :
    trimStart s = EmptyString ->
    WhitespaceSplit limit s []
| ws_remainder s :
    trimStart s <> EmptyString ->
    WhitespaceSplit (Some 0%nat) s [trimStart s]
| ws_part limit s part rest parts :
    limit <> Some 0%nat ->
    trimStart s = part ++ rest ->
    part <> EmptyString ->
    noWhitespace part = true ->
    rest = EmptyString \/ startsWithWhitespace rest = true ->
    WhitespaceSplit (option_map pred limit) rest parts ->
    WhitespaceSplit limit s (part :: parts).

(** [s] is [before ++ sep ++ after] and [sep] does not occur earlier. *)
Definition LeftmostOccurrence (sep s before after : string) : Prop :=
  s = before ++ sep ++ after
  /\ forall before' after', s = before' ++ sep ++ after' ->
                            (String.length before <= String.length before')%nat.

Definition NoOccurrence (sep s : string) : Prop :=
  forall before after, s <> before ++ sep ++ after.

(** [sep] a string: "split ...; when [maxsplit] is reached, rejoin the
    tail with [sep]", that is, at most [maxsplit] splits are done, from
    the left, and what remains is the last element. *)
Inductive SeparatorSplit (sep : string) : option nat -> string -> list string -> Prop :=
| ss_last limit s :
    limit = Some 0%nat \/ NoOccurrence sep s ->
    SeparatorSplit sep limit s [s]
| ss_split limit s before after parts :
    limit <> Some 0%nat ->
    LeftmostOccurrence sep s before after ->
    SeparatorSplit sep (option_map pred limit) after parts ->
    SeparatorSplit sep limit s (before :: parts).

(** "return [value] when receiver is [Undefined], or when [boolean=True]
    and receiver is falsy; otherwise return receiver." *)
Definition defaultFilter (h : Heap) (receiver value : Value) (boolean : bool) : Value :=
  match receiver with
  | UndefinedValue => value
  | _ => if boolean && negb (__bool__ h receiver) then value else receiver
  end.

(** "Bind positional params; fall back to kwargs; fall back to the macro's
    declared default expression (evaluated in the call scope)": the value
    of the parameter [key] with default [defaultNode] at index [i]. *)
Definition parameterValue (ev : Eval) (i : nat) (key : string) (defaultNode : Node)
    (positional : list Value) (kwargs : JMap) (callScope : Environment) : M Value :=
  match firstSome [positional !! i; map_get key kwargs] with
  | Some v => ret v
  | None => ev defaultNode callScope
  end.










(** *** Templates used as examples *)

(** A global environment on a heap that holds nothing else. *)
Definition exampleEnvironment : Environment := mkEnvironment 0 None.
Definition exampleHeap : Heap := mkHeap [initialVariables] [].

(** [{% set x = "definition" %}{% macro m() %}{{ x }}{% endmacro %}
     {% for x in ["call site"] %}{{ m() }}{% endfor %}] *)
Definition callSiteTemplate : Node :=
  Program
    [ SetStatement (Identifier "x") (Some (StringLiteral "definition")) [];
      Macro "m" [] [Identifier "x"];
      For (Identifier "x") (ArrayLiteral [StringLiteral "call site"])
        [CallExpression (Identifier "m") []] [] ].

(** [{% macro m(a, b="B", c=a) %}{{ a }}{{ b }}{{ c }}{% endmacro %}
     {{ m(callArgs) }}] *)
Definition defaultsTemplate (callArgs : list Node) : Node :=
  Program
    [ Macro "m" [Identifier "a";
                 KeywordArgumentExpression "b" (StringLiteral "B");
                 KeywordArgumentExpression "c" (Identifier "a")]
        [Identifier "a"; Identifier "b"; Identifier "c"];
      CallExpression (Identifier "m") callArgs ].

(** The keyword arguments that a macro receives: the [Map] of the trailing
    [KeywordArgumentsValue], when there is one. *)
Definition keywordMap (h : Heap) (kwargs : option loc) : JMap :=
  match kwargs with
  | Some kw => getMap h kw
  | None => []
  end.

(** [{% set a = ["x", "y"] %}{{ a | reverse | join }}{{ a | join }}] *)
Definition reverseTemplate : Node :=
  Program
    [ SetStatement (Identifier "a")
        (Some (ArrayLiteral [StringLiteral "x"; StringLiteral "y"])) [];
      FilterExpression (FilterExpression (Identifier "a") (Identifier "reverse"))
        (Identifier "join");
      FilterExpression (Identifier "a") (Identifier "join") ].

(** [{% set a = ["x", "y"] %}{{ a | reverse | reverse == a }}] *)
Definition reverseTwiceTemplate : Node :=
  Program
    [ SetStatement (Identifier "a")
        (Some (ArrayLiteral [StringLiteral "x"; StringLiteral "y"])) [];
      BinaryExpression "=="
        (FilterExpression (FilterExpression (Identifier "a") (Identifier "reverse"))
           (Identifier "reverse"))
        (Identifier "a") ].
(** The heap [h'] is [h] with more maps and arrays allocated. *)
Definition Extends (h h' : Heap) : Prop :=
  (exists ms, maps h' = (maps h ++ ms)%list)
  /\ (exists xs, arrays h' = (arrays h ++ xs)%list).

(** The host values that [convertToRuntimeValues] has a case for. *)
Fixpoint convertible (input : HostValue) : bool :=
  match input with
  | HArray items => forallb convertible items
  | HObject entries => forallb (fun e => convertible (snd e)) entries
  | HBigInt _ | HSymbol => false
  | _ => true
  end.

(** *** Vocabulary of the further properties *)

(** [v instanceof UndefinedValue || v instanceof NullValue] *)
Definition isNullish (v : Value) : bool := isUndefined v || isNull v.

(** [v instanceof ObjectValue] *)
Definition isObject (v : Value) : bool :=
  match asObject v with Some _ => true | None => false end.

(** The error at the end of [evaluateBinaryExpression]. *)
Definition unknownOperator (operator : string) (left right : Value) : Exn :=
  SyntaxError ("Unknown operator " ++ quote ++ operator ++ quote
                 ++ " between " ++ typeOf left ++ " and " ++ typeOf right).

(** The text that string concatenation takes for an operand that is
    neither [Null] nor [Undefined]. *)
Definition valueText (h : Heap) (v : Value) : string :=
  default EmptyString (valueToString h v).

(** No element of [l] is the same value as an element of [seen] or as an
    earlier element of [l]. *)
Fixpoint pairwiseNew (seen l : list Value) : bool :=
  match l with
  | [] => true
  | x :: l' => negb (existsb (sameValueZero x) seen) && pairwiseNew (seen ++ [x]) l'
  end.

(** The entry [attr] of an item that is an object. *)
Definition attributeOf (h : Heap) (attr : string) (item : Value) : option Value :=
  match asObject item with
  | Some m => map_get attr (getMap h m)
  | None => None
  end.

(** The item has the entry [attr] and its value is truthy. *)
Definition attributeTruthy (h : Heap) (attr : string) (item : Value) : bool :=
  match attributeOf h attr item with
  | Some v => __bool__ h v
  | None => false
  end.

(** A computation that leaves the heap as it found it, whether it returns
    or throws. *)
Definition ReadOnly {A : Type} (m : M A) : Prop :=
  forall h, match m h with
            | Ok _ h' | Throw _ h' => h' = h
            | OutOfFuel => True
            end.

(** The pair that [items] builds for an entry. *)
Definition entryPair (entry : string * Value) : list Value :=
  [StringValue (fst entry); snd entry].

(** The names that [setupGlobals] declares, each with the runtime value of
    what it is set to. *)
Definition globals : list (string * Value) :=
  [ ("false", BooleanValue false); ("true", BooleanValue true); ("none", NullValue);
    ("raise_exception", FunctionValue (HostFn "raise_exception"));
    ("range", FunctionValue (HostFn "range"));
    ("strftime_now", FunctionValue (HostFn "strftime_now"));
    ("True", BooleanValue true); ("False", BooleanValue false); ("None", NullValue) ].

(** [m.set(k, v)] for each binding in turn. *)
Definition setAll (bindings : list (string * Value)) (m : list (string * Value))
  : list (string * Value) :=
  fold_left (fun m e => map_set (fst e) (snd e) m) bindings m.

(** [declareVariable] for each binding in turn. *)
Fixpoint declareAll (env : Environment) (bindings : list (string * Value)) : M unit :=
  match bindings with
  | [] => ret tt
  | (name, value) :: bindings' =>
      declareVariable env name value ;;; declareAll env bindings'
  end.

(** An argument that is neither a spread nor a keyword argument. *)
Definition plainArgument (argument : Node) : bool :=
  negb (String.eqb (nodeType argument) "SpreadExpression")
  && negb (String.eqb (nodeType argument) "KeywordArgumentExpression").

(** [callerArgs[j] ?? new UndefinedValue()] for the [n] indices from [i]. *)
Definition callerArgumentsFrom (callerArgs : list Value) (i n : nat) : list Value :=
  map (fun j => default UndefinedValue (callerArgs !! j)) (seq i n).

(** Heaps used as examples. *)
Definition lettersHeap : Heap :=
  mkHeap [] [[StringValue "x"; StringValue "y"; StringValue "x"]].

Definition recordsHeap : Heap :=
  mkHeap [ [("k", BooleanValue true)]; [("k", BooleanValue false)]; [] ]
         [ [ObjectValue 0; ObjectValue 1; ObjectValue 2] ].

Definition objectHeap : Heap :=
  mkHeap [ [("namespace", FunctionValue NamespaceFn); ("o", ObjectValue 1)];
           [("a", StringValue "1"); ("b", StringValue "2")] ] [].

Definition raiseHeap : Heap :=
  mkHeap [ [("raise_exception", FunctionValue (HostFn "raise_exception"))] ] [].

(** A heap with the arrays [[1, none]] and [[none, missing]]. *)
Definition nullishHeap : Heap :=
  mkHeap [] [ [IntegerValue (Int 1); NullValue]; [NullValue; UndefinedValue] ].

End Specification.

(** * Properties *)

Section Properties.
Context {js : JSPrims}.

(** ** Strings *)

Lemma append_cons (c : ascii) (s t : string) : String c s ++ t = String c (s ++ t).
Proof. reflexivity. Qed.

Lemma append_empty_l (s : string) : EmptyString ++ s = s.
Proof. reflexivity. Qed.

Lemma append_empty_r (s : string) : s ++ EmptyString = s.
Proof.
  induction s as [|c s IH]; [reflexivity|]. now rewrite append_cons, IH.
Qed.

Lemma append_assoc (a b c : string) : (a ++ b) ++ c = a ++ (b ++ c).
Proof.
  induction a as [|x a IH]; [reflexivity|]. now rewrite !append_cons, IH.
Qed.

Lemma length_append (a b : string) :
  String.length (a ++ b) = (String.length a + String.length b)%nat.
Proof.
  induction a as [|x a IH]; [reflexivity|]. rewrite append_cons. simpl. now rewrite IH.
Qed.

Lemma dropString_append (a b : string) : dropString (String.length a) (a ++ b) = b.
Proof.
  induction a as [|x a IH]; [now destruct b|]. rewrite append_cons. exact IH.
Qed.

Lemma dropString_add (n m : nat) (s : string) :
  dropString (n + m) s = dropString m (dropString n s).
Proof.
  revert s; induction n as [|n IH]; intros s; simpl.
  - now destruct m, s.
  - destruct s as [|c s]; simpl; [now destruct m | apply IH].
Qed.

(** ** C1: a program evaluates to a string *)

Lemma evaluateBlockFrom_renderBlock (ev : Eval) (statements : list Node)
    (environment : Environment) (result : string) (h : Heap) :
  evaluateBlockFrom ev statements environment result h
  = (s <- renderBlock ev statements environment ;; ret (StringValue (result ++ s))) h.
Proof.
  revert result h.
  induction statements as [|statement statements IH]; intros result h; simpl.
  - unfold bind, ret; simpl. now rewrite append_empty_r.
  - unfold bind, getHeap, ret.
    destruct (ev statement environment h) as [v h1| |]; try reflexivity.
    rewrite IH. unfold bind, ret.
    destruct (renderBlock ev statements environment h1) as [s h2| |]; try reflexivity.
    f_equal. f_equal. rewrite <- append_assoc. f_equal.
    now destruct v; simpl; rewrite ?append_empty_r.
Qed.

Lemma evaluateBlock_renderBlock (ev : Eval) (statements : list Node)
    (environment : Environment) (h : Heap) :
  evaluateBlock ev statements environment h
  = (s <- renderBlock ev statements environment ;; ret (StringValue s)) h.
Proof. unfold evaluateBlock. now rewrite evaluateBlockFrom_renderBlock. Qed.

Lemma evaluateBlock_string (ev : Eval) (statements : list Node)
    (environment : Environment) (h : Heap) (v : Value) (h' : Heap) :
  evaluateBlock ev statements environment h = Ok v h' ->
  exists s, v = StringValue s.
Proof.
  rewrite evaluateBlock_renderBlock. unfold bind, ret.
  destruct (renderBlock ev statements environment h) as [s h1| |]; try discriminate.
  intros [= <- _]. now exists s.
Qed.

(** C1.  Running a [Program] node from any environment and heap, with any
    recursion budget, either exhausts the budget, or throws, or returns a
    value with the String tag; and the string is the concatenation, in
    order, of the renderings of the statements, where a [Null] or
    [Undefined] result contributes nothing. *)
Theorem run_program_returns_string (fuel : nat) (global : Environment)
    (body : list Node) (h : Heap) :
  (run fuel global (Program body) h = OutOfFuel
   \/ (exists e h', run fuel global (Program body) h = Throw e h')
   \/ (exists s h', run fuel global (Program body) h = Ok (StringValue s) h'))
  /\ run (S fuel) global (Program body) h
     = (s <- renderBlock (evaluate fuel) body global ;; ret (StringValue s)) h.
Proof.
  split.
  - destruct fuel as [|fuel]; [now left|].
    unfold run. simpl. unfold evalProgram.
    destruct (evaluateBlock (evaluate fuel) body global h) as [v h'|e h'|] eqn:E.
    + right; right. apply evaluateBlock_string in E as [s ->]. now exists s, h'.
    + right; left. now exists e, h'.
    + now left.
  - unfold run. simpl. unfold evalProgram. apply evaluateBlock_renderBlock.
Qed.

(** ** C3: variable lookup *)

Lemma resolve_nearest (h : Heap) (name : string) (env : Environment) :
  match resolve h name env with
  | inr e => map_get name (getMap h (variables e)) = nearestBinding h env name
             /\ nearestBinding h env name <> None
  | inl _ => nearestBinding h env name = None
  end.
Proof.
  unfold nearestBinding.
  revert env.
  fix IH 1. intros [vars parent]. simpl.
  unfold map_has.
  destruct (map_get name (getMap h vars)) as [v|] eqn:E.
  - simpl. rewrite E. now split.
  - destruct parent as [p|]; [apply IH | reflexivity].
Qed.

(** C3.  [lookupVariable] is a total function: it returns the binding of
    the name in the nearest environment of the chain that binds it, and
    [Undefined] when none does.  Evaluating an [Identifier] returns that
    value and never throws; for a name bound nowhere in the chain it
    returns [Undefined]. *)
Theorem lookupVariable_nearest_or_undefined (h : Heap) (env : Environment)
    (name : string) :
  lookupVariable h env name = default UndefinedValue (nearestBinding h env name)
  /\ (forall fuel, evaluate (S fuel) (Identifier name) env h
                   = Ok (lookupVariable h env name) h)
  /\ (nearestBinding h env name = None ->
      forall fuel, evaluate (S fuel) (Identifier name) env h = Ok UndefinedValue h).
Proof.
  assert (L : lookupVariable h env name
              = default UndefinedValue (nearestBinding h env name)).
  { unfold lookupVariable. pose proof (resolve_nearest h name env) as R.
    destruct (resolve h name env) as [e|e].
    - now rewrite R.
    - destruct R as [-> _]. reflexivity. }
  split; [exact L|]. split.
  - reflexivity.
  - intros N fuel. simpl. unfold evaluateIdentifier, bind, getHeap, ret.
    now rewrite L, N.
Qed.

(** ** C4 and C7: binary operators *)

Lemma evaluate_binary (fuel : nat) (operator : string) (leftNode rightNode : Node)
    (environment : Environment) (h h1 h2 : Heap) (left right : Value) :
  operator <> "and" -> operator <> "or" ->
  evaluate fuel leftNode environment h = Ok left h1 ->
  evaluate fuel rightNode environment h1 = Ok right h2 ->
  evaluate (S fuel) (BinaryExpression operator leftNode rightNode) environment h
  = binaryOperation operator left right h2.
Proof.
  intros Hand Hor Hl Hr. simpl. unfold evaluateBinaryExpression, bind, getHeap.
  rewrite Hl.
  apply String.eqb_neq in Hand, Hor. rewrite Hand, Hor.
  now rewrite Hr.
Qed.

Lemma asNumber_Some (v : Value) (n : number) :
  asNumber v = Some n ->
  (v = IntegerValue n /\ isFloatValue v = false)
  \/ (v = FloatValue n /\ isFloatValue v = true).
Proof. destruct v; simpl; intros [= <-]; auto. Qed.

(** C4.  When both operands of a binary expression evaluate to numbers
    (Integer or Float): [+], [-], [*] and [%] return the result of the
    arithmetic with the Integer tag when both operands are Integer and with
    the Float tag when one of them is Float; [/] returns its result with
    the Float tag whatever the operands; [<], [<=], [>] and [>=] return a
    Boolean. *)
Theorem numeric_operators_result_tags (fuel : nat) (leftNode rightNode : Node)
    (environment : Environment) (h h1 h2 : Heap) (left right : Value)
    (a b : number) :
  evaluate fuel leftNode environment h = Ok left h1 ->
  evaluate fuel rightNode environment h1 = Ok right h2 ->
  asNumber left = Some a ->
  asNumber right = Some b ->
  let result operator :=
    evaluate (S fuel) (BinaryExpression operator leftNode rightNode) environment h in
  let tag := if isFloatValue left || isFloatValue right
             then FloatValue else IntegerValue in
  result "+" = Ok (tag (num_arith OpAdd a b)) h2
  /\ result "-" = Ok (tag (num_arith OpSub a b)) h2
  /\ result "*" = Ok (tag (num_arith OpMul a b)) h2
  /\ result "%" = Ok (tag (num_arith OpRem a b)) h2
  /\ result "/" = Ok (FloatValue (num_arith OpDiv a b)) h2
  /\ result "<" = Ok (BooleanValue (num_cmp OpLt a b)) h2
  /\ result "<=" = Ok (BooleanValue (num_cmp OpLe a b)) h2
  /\ result ">" = Ok (BooleanValue (num_cmp OpGt a b)) h2
  /\ result ">=" = Ok (BooleanValue (num_cmp OpGe a b)) h2.
Proof.
  intros Hl Hr Ha Hb result tag. subst result tag.
  repeat split;
    (erewrite evaluate_binary; [ | discriminate | discriminate | exact Hl | exact Hr ]);
    apply asNumber_Some in Ha as [[-> Fa]|[-> Fa]];
    apply asNumber_Some in Hb as [[-> Fb]|[-> Fb]];
    reflexivity.
Qed.

Lemma eqb_false_of_not_In (operator : string) (others : list string) (x : string) :
  ~ In operator others -> In x others -> String.eqb operator x = false.
Proof.
  intros N I. apply String.eqb_neq. intros ->. now apply N.
Qed.

(** C7.  For an operator other than [and], [or], [==] and [!=], once
    both operands are evaluated: with an Undefined right operand, [in]
    returns False and [not in] returns True; every other combination with
    an Undefined operand throws; and when no operand is Undefined but one
    is Null, the operation throws. *)
Theorem undefined_and_null_operands (fuel : nat) (operator : string)
    (leftNode rightNode : Node) (environment : Environment) (h h1 h2 : Heap)
    (left right : Value) :
  ~ In operator ["and"; "or"; "=="; "!="] ->
  evaluate fuel leftNode environment h = Ok left h1 ->
  evaluate fuel rightNode environment h1 = Ok right h2 ->
  let result :=
    evaluate (S fuel) (BinaryExpression operator leftNode rightNode) environment h in
  (right = UndefinedValue ->
   (operator = "in" -> result = Ok (BooleanValue false) h2)
   /\ (operator = "not in" -> result = Ok (BooleanValue true) h2))
  /\ (left = UndefinedValue \/ right = UndefinedValue ->
      ~ (right = UndefinedValue /\ (operator = "in" \/ operator = "not in")) ->
      result = Throw (Error ("Cannot perform operation " ++ operator
                               ++ " on undefined values")) h2)
  /\ (left <> UndefinedValue -> right <> UndefinedValue ->
      left = NullValue \/ right = NullValue ->
      result = Throw (Error "Cannot perform operation on null values") h2).
Proof.
  intros Hop Hl Hr result. subst result.
  assert (Hand : operator <> "and") by (intros ->; apply Hop; simpl; auto).
  assert (Hor : operator <> "or") by (intros ->; apply Hop; simpl; auto).
  rewrite (evaluate_binary fuel operator leftNode rightNode environment h h1 h2
             left right Hand Hor Hl Hr).
  unfold binaryOperation, bind, getHeap.
  rewrite (eqb_false_of_not_In operator _ "==" Hop) by (simpl; auto).
  rewrite (eqb_false_of_not_In operator _ "!=" Hop) by (simpl; auto).
  split; [|split].
  - intros ->. rewrite orb_true_r. simpl. split; intros ->; reflexivity.
  - intros U N.
    assert (isUndefined left || isUndefined right = true) as ->
        by (destruct U as [-> | ->]; simpl; auto using orb_true_r).
    destruct (isUndefined right && (String.eqb operator "in"
                                    || String.eqb operator "not in")) eqn:C;
      [|reflexivity].
    exfalso. apply N.
    apply andb_prop in C as [C1 C2]. split.
    + now destruct right.
    + apply orb_prop in C2 as [C2|C2]; apply String.eqb_eq in C2; auto.
  - intros NL NR NN.
    assert (isUndefined left || isUndefined right = false) as ->
        by (destruct left, right; simpl; congruence).
    assert (isNull left || isNull right = true) as ->
        by (destruct NN as [-> | ->]; simpl; auto using orb_true_r).
    reflexivity.
Qed.

(** ** C5: the [default] filter *)

Lemma defaultFilter_unfold (h : Heap) (receiver value : Value) (boolean : bool) :
  (if isUndefined receiver || (boolean && negb (__bool__ h receiver))
   then value else receiver)
  = defaultFilter h receiver value boolean.
Proof. destruct receiver; reflexivity. Qed.

(** C5.  In the call form the [default] filter applies to every receiver:
    once its arguments are evaluated and the flag (second positional
    argument, else the keyword [boolean], else false) is a Boolean, it
    returns the first positional argument (the empty string when there is
    none) if the receiver is Undefined, or if the flag is true and the
    receiver is falsy, and the receiver otherwise.  In the identifier form
    [x | default] the interpreter does not know the filter: it throws for
    every receiver, also for an Undefined one, for which the call form
    without arguments [x | default()] returns the empty string.  So
    [{{ missing | default }}] throws where [{{ missing | default() }}]
    renders the empty string.  The three templates of the specification
    render "-", "-" and "0". *)
Theorem default_filter_surface_forms (fuel : nat) (ev : Eval) (operand : Value)
    (args : list Node) (environment : Environment) (h h' : Heap)
    (positional : list Value) (kwargs : JMap) (flag : bool) :
  evaluateArguments ev args environment h = Ok (positional, kwargs) h' ->
  argumentOr positional 1 kwargs "boolean" (BooleanValue false) = BooleanValue flag ->
  applyFilter fuel ev operand (CallExpression (Identifier "default") args) environment h
  = Ok (defaultFilter h' operand
          (default (StringValue EmptyString) (positional !! 0%nat)) flag) h'
  /\ (forall g, exists message,
         applyFilter fuel ev operand (Identifier "default") environment g
         = Throw (Error message) g)
  /\ (forall g,
         applyFilter fuel ev UndefinedValue (Identifier "default") environment g
         = Throw (Error ("Cannot apply filter " ++ quote ++ "default" ++ quote
                           ++ " to type: UndefinedValue")) g
         /\ applyFilter fuel ev UndefinedValue (CallExpression (Identifier "default") [])
              environment g
            = Ok (StringValue EmptyString) g)
  /\ (exists g,
         runWithGlobals 4
           (Program [FilterExpression (Identifier "missing") (Identifier "default")])
         = Throw (Error ("Cannot apply filter " ++ quote ++ "default" ++ quote
                           ++ " to type: UndefinedValue")) g)
  /\ (exists g,
         runWithGlobals 4
           (Program [FilterExpression (Identifier "missing")
                       (CallExpression (Identifier "default") [])])
         = Ok (StringValue EmptyString) g)
  /\ (exists g,
         runWithGlobals 4
           (Program [FilterExpression (Identifier "missing")
                       (CallExpression (Identifier "default") [StringLiteral "-"])])
         = Ok (StringValue "-") g)
  /\ (exists g,
         runWithGlobals 4
           (Program [FilterExpression (IntegerLiteral (Int 0))
                       (CallExpression (Identifier "default")
                          [StringLiteral "-"; Identifier "true"])])
         = Ok (StringValue "-") g)
  /\ (exists g,
         runWithGlobals 4
           (Program [FilterExpression (IntegerLiteral (Int 0))
                       (CallExpression (Identifier "default") [StringLiteral "-"])])
         = Ok (StringValue "0") g).
Proof.
  intros Hargs Hflag. repeat match goal with |- _ /\ _ => split end.
  - unfold applyFilter, applyFilterCall. simpl.
    unfold bind. rewrite Hargs. simpl. rewrite Hflag.
    unfold getHeap, ret. rewrite <- defaultFilter_unfold.
    now destruct (isUndefined operand || flag && negb (__bool__ h' operand)).
  - intros g. unfold applyFilter, applyFilterIdentifier, bind, getHeap.
    destruct operand; eexists; reflexivity.
  - intros g. split; reflexivity.
  - eexists. reflexivity.
  - eexists. reflexivity.
  - eexists. reflexivity.
  - eexists. reflexivity.
  - eexists. reflexivity.
Qed.

(** ** C10: declaring a variable twice *)

Lemma Extends_refl (h : Heap) : Extends h h.
Proof. split; exists []; now rewrite app_nil_r. Qed.

Lemma Extends_trans (h1 h2 h3 : Heap) : Extends h1 h2 -> Extends h2 h3 -> Extends h1 h3.
Proof.
  intros [[m1 E1] [a1 F1]] [[m2 E2] [a2 F2]]. split.
  - exists (m1 ++ m2)%list. now rewrite E2, E1, app_assoc.
  - exists (a1 ++ a2)%list. now rewrite F2, F1, app_assoc.
Qed.

Lemma Extends_allocArray (h : Heap) (a : list Value) : Extends h (mkHeap (maps h) (arrays h ++ [a])).
Proof. split; simpl; [exists []; now rewrite app_nil_r | now exists [a]]. Qed.

Lemma Extends_allocMap (h : Heap) (m : JMap) : Extends h (mkHeap (maps h ++ [m]) (arrays h)).
Proof. split; simpl; [now exists [m] | exists []; now rewrite app_nil_r]. Qed.

Lemma Extends_getMap (h h' : Heap) (l : loc) : Extends h h' -> (l < length (maps h))%nat -> getMap h' l = getMap h l.
Proof.
  intros [[ms E] _] L. unfold getMap. rewrite E. now rewrite lookup_app_l.
Qed.

Lemma Extends_length (h h' : Heap) : Extends h h' -> (length (maps h) <= length (maps h'))%nat.
Proof. intros [[ms E] _]. rewrite E, length_app. lia. Qed.

Lemma convert_spec (input : HostValue) (h : Heap) :
  if convertible input
  then exists v h', convertToRuntimeValues input h = Ok v h' /\ Extends h h'
  else exists e h', convertToRuntimeValues input h = Throw e h'.
Proof.
  revert input h. fix IH 1. intros input h.
  destruct input as [n|s|b| | |items|entries|name|z| ]; simpl;
    try (eexists; eexists; split; [reflexivity | apply Extends_refl]).
  - (* array *)
    set (convertAll := fix convertAll (l : list HostValue) : M (list Value) :=
           match l with
           | [] => ret []
           | x :: l' =>
               v <- convertToRuntimeValues x ;; vs <- convertAll l' ;; ret (v :: vs)
           end).
    assert (A : forall g,
               if forallb convertible items
               then exists vs g', convertAll items g = Ok vs g' /\ Extends g g'
               else exists e g', convertAll items g = Throw e g').
    { induction items as [|x items IHl]; intros g; simpl.
      - exists [], g. split; [reflexivity | apply Extends_refl].
      - unfold bind. specialize (IH x g).
        destruct (convertible x); simpl.
        + destruct IH as (v & g1 & -> & E1). specialize (IHl g1).
          destruct (forallb convertible items).
          * destruct IHl as (vs & g2 & -> & E2). exists (v :: vs), g2. split; [reflexivity|].
            eapply Extends_trans; eauto.
          * destruct IHl as (e & g2 & ->). now exists e, g2.
        + destruct IH as (e & g1 & ->). now exists e, g1. }
    specialize (A h). unfold bind, newArrayValue, allocArray, ret.
    destruct (forallb convertible items).
    + destruct A as (vs & g' & -> & E). eexists; eexists. split; [reflexivity|].
      eapply Extends_trans; [exact E | apply Extends_allocArray].
    + destruct A as (e & g' & ->). now exists e, g'.
  - (* object *)
    set (convertEntries := fix convertEntries (l : list (string * HostValue)) (acc : JMap) : M JMap :=
           match l with
           | [] => ret acc
           | (k, x) :: l' =>
               v <- convertToRuntimeValues x ;; convertEntries l' (map_set k v acc)
           end).
    assert (A : forall acc g,
               if forallb (fun e => convertible (snd e)) entries
               then exists m g', convertEntries entries acc g = Ok m g' /\ Extends g g'
               else exists e g', convertEntries entries acc g = Throw e g').
    { induction entries as [|[k x] entries IHl]; intros acc g; simpl.
      - exists acc, g. split; [reflexivity | apply Extends_refl].
      - unfold bind. specialize (IH x g).
        destruct (convertible x); simpl.
        + destruct IH as (v & g1 & -> & E1). specialize (IHl (map_set k v acc) g1).
          destruct (forallb (fun e => convertible (snd e)) entries).
          * destruct IHl as (m & g2 & -> & E2). exists m, g2. split; [reflexivity|].
            eapply Extends_trans; eauto.
          * destruct IHl as (e & g2 & ->). now exists e, g2.
        + destruct IH as (e & g1 & ->). now exists e, g1. }
    specialize (A [] h). unfold bind, newObjectValue, allocMap, ret.
    destruct (forallb (fun e => convertible (snd e)) entries).
    + destruct A as (m & g' & -> & E). eexists; eexists. split; [reflexivity|].
      eapply Extends_trans; [exact E | apply Extends_allocMap].
    + destruct A as (e & g' & ->). now exists e, g'.
  - eexists; eexists; reflexivity.
  - eexists; eexists; reflexivity.
Qed.

Lemma map_get_set_same (k : string) (v : Value) (m : JMap) :
  map_get k (map_set k v m) = Some v.
Proof.
  induction m as [|[k' v'] m IH]; simpl.
  - now rewrite String.eqb_refl.
  - destruct (String.eqb k k') eqn:E; simpl.
    + now rewrite String.eqb_refl.
    + now rewrite E.
Qed.

Lemma map_has_set_same (k : string) (v : Value) (m : JMap) :
  map_has k (map_set k v m) = true.
Proof. unfold map_has. now rewrite map_get_set_same. Qed.

Lemma getMap_putMap_same (l : loc) (m : JMap) (h : Heap) :
  (l < length (maps h))%nat -> getMap (putMap l m h) l = m.
Proof.
  intros L. unfold getMap, putMap. simpl. now rewrite list_lookup_insert_eq.
Qed.

Lemma length_maps_putMap (l : loc) (m : JMap) (h : Heap) :
  length (maps (putMap l m h)) = length (maps h).
Proof. unfold putMap. simpl. apply length_insert. Qed.

Lemma setVariable_lookup (env : Environment) (name : string) (v : Value) (h : Heap) :
  (variables env < length (maps h))%nat ->
  exists h', setVariable env name v h = Ok v h'
             /\ getMap h' (variables env) = map_set name v (getMap h (variables env))
             /\ length (maps h') = length (maps h)
             /\ lookupVariable h' env name = v.
Proof.
  intros L. unfold setVariable, bind, readMap, writeMap, ret.
  eexists. split; [reflexivity|].
  rewrite getMap_putMap_same by exact L. rewrite length_maps_putMap.
  split; [reflexivity|]. split; [reflexivity|].
  unfold lookupVariable. destruct env as [vars p]. simpl in *.
  rewrite getMap_putMap_same by exact L. rewrite map_has_set_same. simpl.
  rewrite getMap_putMap_same by exact L. now rewrite map_get_set_same.
Qed.

Lemma Environment_set_Ok (env : Environment) (name : string) (value : HostValue)
    (h : Heap) (v : Value) (h1 : Heap) :
  (variables env < length (maps h))%nat ->
  Environment_set env name value h = Ok v h1 ->
  convertible value = true
  /\ map_has name (getMap h1 (variables env)) = true
  /\ (variables env < length (maps h1))%nat.
Proof.
  intros L. unfold Environment_set, bind.
  pose proof (convert_spec value h) as C.
  destruct (convertible value).
  - destruct C as (v0 & h0 & -> & E).
    unfold declareVariable, bind, readMap, writeMap, ret, throw.
    destruct (map_has name (getMap h0 (variables env))); [discriminate|].
    intros [= <- <-]. split; [reflexivity|].
    pose proof (Extends_length _ _ E) as Len.
    rewrite getMap_putMap_same by lia. rewrite length_maps_putMap.
    split; [apply map_has_set_same | lia].
  - destruct C as (e & h0 & ->). discriminate.
Qed.

Lemma Environment_set_declared (env : Environment) (name : string) (value : HostValue)
    (h : Heap) :
  (variables env < length (maps h))%nat ->
  map_has name (getMap h (variables env)) = true ->
  convertible value = true ->
  exists h', Environment_set env name value h
             = Throw (SyntaxError ("Variable already declared: " ++ name)) h'.
Proof.
  intros L H C. unfold Environment_set, bind.
  pose proof (convert_spec value h) as S. rewrite C in S.
  destruct S as (v & h' & -> & E).
  unfold declareVariable, bind, readMap, throw.
  rewrite (Extends_getMap _ _ _ E L), H. now exists h'.
Qed.

(** C10.  In an environment allocated in the heap, once a call of
    [Environment.set] for a name has returned, a second call of it for the
    same name throws "Variable already declared", both for the same host
    value and for any other host value that can be converted; whereas
    [setVariable] for that name returns and replaces the binding. *)
Theorem set_twice_already_declared (env : Environment) (name : string)
    (first second : HostValue) (h : Heap) (v : Value) (h1 : Heap) :
  (variables env < length (maps h))%nat ->
  Environment_set env name first h = Ok v h1 ->
  convertible second = true ->
  (exists h2, Environment_set env name second h1
              = Throw (SyntaxError ("Variable already declared: " ++ name)) h2)
  /\ (exists h2, Environment_set env name first h1
                 = Throw (SyntaxError ("Variable already declared: " ++ name)) h2)
  /\ (forall v', exists h2, setVariable env name v' h1 = Ok v' h2
                            /\ lookupVariable h2 env name = v').
Proof.
  intros L S C.
  destruct (Environment_set_Ok env name first h v h1 L S) as (C1 & H & L1).
  split; [|split].
  - now apply Environment_set_declared.
  - now apply Environment_set_declared.
  - intros v'. destruct (setVariable_lookup env name v' h1 L1) as (h2 & E & _ & _ & Lk).
    now exists h2.
Qed.

(** ** C9: the loop object *)




Lemma map_get_set_other (k k' : string) (v : Value) (m : JMap) :
  k <> k' -> map_get k (map_set k' v m) = map_get k m.
Proof.
  intros N. apply String.eqb_neq in N.
  induction m as [|[k0 v0] m IH]; simpl.
  - now rewrite N.
  - destruct (String.eqb k' k0) eqn:E; simpl.
    + apply String.eqb_eq in E. subst k0. now rewrite N.
    + now rewrite IH.
Qed.

Lemma getMap_putMap_other (l l' : loc) (m : JMap) (h : Heap) :
  l <> l' -> getMap (putMap l' m h) l = getMap h l.
Proof.
  intros N. unfold getMap, putMap. simpl. now rewrite list_lookup_insert_ne.
Qed.
















(** ** C6: [split] *)

Lemma length_trimStart (s : string) : (String.length (trimStart s) <= String.length s)%nat.
Proof.
  induction s as [|c s IH]; simpl; [lia|].
  destruct (isWhitespace c); simpl; lia.
Qed.

Lemma trimStart_dropString (s : string) :
  trimStart s = dropString (String.length s - String.length (trimStart s)) s.
Proof.
  induction s as [|c s IH]; [reflexivity|]. simpl.
  destruct (isWhitespace c).
  - pose proof (length_trimStart s) as L.
    replace (S (String.length s) - String.length (trimStart s))%nat
      with (S (String.length s - String.length (trimStart s))) by lia.
    exact IH.
  - simpl. now rewrite Nat.sub_diag.
Qed.

Lemma trimStart_head (s : string) (c : ascii) (t : string) :
  trimStart s = String c t -> isWhitespace c = false.
Proof.
  induction s as [|x s IH]; simpl; [discriminate|].
  destruct (isWhitespace x) eqn:E; [exact IH|]. now intros [= <- _].
Qed.

Lemma spanNonSpace_spec (t w rest : string) :
  spanNonSpace t = (w, rest) ->
  t = w ++ rest /\ noWhitespace w = true
  /\ (rest = EmptyString \/ startsWithWhitespace rest = true).
Proof.
  revert w rest. induction t as [|c t IH]; intros w rest; simpl.
  - intros [= <- <-]. auto.
  - destruct (isWhitespace c) eqn:E.
    + intros [= <- <-]. simpl. auto.
    + destruct (spanNonSpace t) as [w' rest'] eqn:S. intros [= <- <-].
      destruct (IH w' rest' eq_refl) as (-> & N & R).
      simpl. rewrite E. auto.
Qed.

Lemma spanNonSpace_nonempty (c : ascii) (t w rest : string) :
  isWhitespace c = false -> spanNonSpace (String c t) = (w, rest) -> w <> EmptyString.
Proof.
  intros E. simpl. rewrite E. destruct (spanNonSpace t). now intros [= <- _].
Qed.

Lemma splitWhitespaceLoop_spec (text : string) (maxsplit : Z) (fuel : nat) :
  forall (s : string) (pos : nat) (result : list string),
    s = dropString pos text ->
    (String.length s < fuel)%nat ->
    (maxsplit = -1 \/ Z.of_nat (length result) <= maxsplit)%Z ->
    exists parts,
      splitWhitespaceLoop text (Int maxsplit) (matchAllFuel fuel s pos) result
      = (result ++ parts)%list
      /\ WhitespaceSplit (remainingSplits maxsplit (length result)) s parts.
Proof.
  induction fuel as [|fuel IH]; intros s pos result Hs Hf Hk; [lia|].
  simpl.
  destruct (trimStart s) as [|c t] eqn:T.
  - exists []. simpl. rewrite app_nil_r. split; [reflexivity|]. now apply ws_nothing.
  - pose proof (trimStart_head s c t T) as Hc.
    destruct (spanNonSpace (String c t)) as [w rest] eqn:Sp.
    pose proof (spanNonSpace_nonempty c t w rest Hc Sp) as Hw.
    destruct (spanNonSpace_spec _ _ _ Sp) as (Et & Nw & Hr).
    pose proof (trimStart_dropString s) as D. rewrite T in D.
    pose proof (length_trimStart s) as Lt. rewrite T in Lt.
    set (index := (pos + (String.length s - String.length (String c t)))%nat) in *.
    assert (Ei : dropString index text = String c t).
    { subst index. rewrite dropString_add, <- Hs. now rewrite <- D. }
    assert (Er : rest = dropString (index + String.length w) text).
    { rewrite dropString_add, Ei, Et. now rewrite dropString_append. }
    simpl.
    destruct (negb (maxsplit =? -1)%Z && (maxsplit <=? Z.of_nat (length result))%Z) eqn:C.
    + (* the limit is reached: the remainder is the last element *)
      apply andb_prop in C as [C1 C2]. apply negb_true_iff, Z.eqb_neq in C1.
      apply Z.leb_le in C2.
      exists [String c t]. split.
      * f_equal. f_equal. rewrite <- Er. now rewrite Et.
      * unfold remainingSplits. apply Z.eqb_neq in C1. rewrite C1.
        replace (Z.to_nat maxsplit - length result)%nat with 0%nat by lia.
        rewrite <- T. apply ws_remainder. now rewrite T.
    + (* one more part *)
      assert (Lr : (String.length rest < fuel)%nat).
      { assert (String.length (String c t) = String.length w + String.length rest)%nat
          by (rewrite Et at 1; apply length_append).
        destruct w; [congruence|]. simpl in *. lia. }
      assert (Hk' : (maxsplit = -1 \/ Z.of_nat (length (result ++ [w])) <= maxsplit)%Z).
      { rewrite length_app. simpl.
        destruct (Z.eqb_spec maxsplit (-1)); [now left|]. right.
        simpl in C. apply Z.leb_gt in C. lia. }
      destruct (IH rest (index + String.length w)%nat (result ++ [w])%list Er Lr Hk')
        as (parts & E & W).
      exists (w :: parts). split.
      * rewrite E. now rewrite <- app_assoc.
      * apply (ws_part _ s w rest parts); auto.
        -- unfold remainingSplits. destruct (Z.eqb_spec maxsplit (-1)); [discriminate|].
           simpl in C. apply Z.leb_gt in C. intros [= H]. lia.
        -- now rewrite T.
        -- replace (option_map pred (remainingSplits maxsplit (length result)))
             with (remainingSplits maxsplit (length (result ++ [w]))); [exact W|].
           unfold remainingSplits. rewrite length_app. simpl.
           destruct (maxsplit =? -1)%Z; simpl; [reflexivity|]. f_equal. lia.
Qed.

Lemma trimStart_idempotent (s : string) : trimStart (trimStart s) = trimStart s.
Proof.
  induction s as [|c s IH]; [reflexivity|]. simpl.
  destruct (isWhitespace c) eqn:E; [exact IH|]. simpl. now rewrite E.
Qed.

Lemma WhitespaceSplit_trimStart (limit : option nat) (s : string) (parts : list string) :
  WhitespaceSplit limit (trimStart s) parts -> WhitespaceSplit limit s parts.
Proof.
  intros W. inversion W as [l s0 T | s0 T | l s0 p r ps L T P N R W']; subst;
    rewrite trimStart_idempotent in *.
  - now apply ws_nothing.
  - now apply ws_remainder.
  - now apply (ws_part _ s p r ps).
Qed.

Lemma splitWhitespace_spec (this : string) (maxsplit : Z) :
  (-1 <= maxsplit)%Z ->
  WhitespaceSplit (splitLimit maxsplit) this (splitWhitespace this (Int maxsplit)).
Proof.
  intros Hk. unfold splitWhitespace, matchAllNonSpace.
  destruct (splitWhitespaceLoop_spec (trimStart this) maxsplit
              (S (String.length (trimStart this))) (trimStart this) 0 [])
    as (parts & E & W).
  - reflexivity.
  - lia.
  - simpl. lia.
  - rewrite E. simpl. apply WhitespaceSplit_trimStart.
    unfold remainingSplits in W. simpl in W. rewrite Nat.sub_0_r in W. exact W.
Qed.

Lemma prefix_append (p s : string) :
  String.prefix p s = true -> s = p ++ dropString (String.length p) s.
Proof.
  revert s. induction p as [|c p IH]; intros s.
  - now destruct s.
  - destruct s as [|x s]; simpl; [discriminate|].
    destruct (ascii_dec c x) as [->|]; [|discriminate].
    intros H. rewrite append_cons. f_equal. now apply IH.
Qed.

Lemma prefix_of_append (p s : string) : String.prefix p (p ++ s) = true.
Proof.
  induction p as [|c p IH]; [now destruct s|].
  rewrite append_cons. simpl. destruct (ascii_dec c c); [exact IH | congruence].
Qed.

Lemma cut_unfold (sep s : string) :
  cut sep s
  = if String.prefix sep s then Some (EmptyString, dropString (String.length sep) s)
    else match s with
         | EmptyString => None
         | String c s' =>
             match cut sep s' with
             | Some (before, after) => Some (String c before, after)
             | None => None
             end
         end.
Proof. now destruct s. Qed.

Lemma cut_Some (sep s before after : string) :
  cut sep s = Some (before, after) -> LeftmostOccurrence sep s before after.
Proof.
  revert before after. induction s as [|c s IH]; intros before after;
    rewrite cut_unfold; destruct (String.prefix sep _) eqn:P.
  - intros [= <- <-]. split.
    + apply prefix_append in P. exact P.
    + intros b a _. simpl. lia.
  - discriminate.
  - intros [= <- <-]. split.
    + apply prefix_append in P. exact P.
    + intros b a _. simpl. lia.
  - destruct (cut sep s) as [[b a]|] eqn:C; [|discriminate].
    intros [= <- <-]. destruct (IH b a eq_refl) as (E & L). split.
    + rewrite append_cons. now f_equal.
    + intros b' a' E'. destruct b' as [|x b'].
      * rewrite append_empty_l in E'. rewrite E' in P. now rewrite prefix_of_append in P.
      * rewrite append_cons in E'. injection E' as -> E'.
        simpl. apply le_n_S. now apply (L b' a').
Qed.

Lemma cut_None (sep s : string) : cut sep s = None -> NoOccurrence sep s.
Proof.
  induction s as [|c s IH]; rewrite cut_unfold;
    destruct (String.prefix sep _) eqn:P; try discriminate.
  - intros _ b a E. destruct b; [|discriminate].
    rewrite append_empty_l in E. rewrite E in P. now rewrite prefix_of_append in P.
  - destruct (cut sep s) as [[b a]|] eqn:C; [discriminate|].
    intros _ b' a' E. destruct b' as [|x b'].
    + rewrite append_empty_l in E. rewrite E in P. now rewrite prefix_of_append in P.
    + rewrite append_cons in E. injection E as -> E. now apply (IH eq_refl b' a').
Qed.

Lemma occurrence_length (sep s before after : string) :
  LeftmostOccurrence sep s before after ->
  String.length s = (String.length before + String.length sep + String.length after)%nat.
Proof. intros [-> _]. rewrite !length_append. lia. Qed.

Lemma splitFuel_spec (sep : string) (fuel : nat) (s : string) :
  sep <> EmptyString ->
  (String.length s <= fuel)%nat ->
  SeparatorSplit sep None s (splitFuel fuel sep s).
Proof.
  intros Hsep. revert s. induction fuel as [|fuel IH]; intros s L;
    simpl; destruct (cut sep s) as [[before after]|] eqn:C;
    try (apply ss_last; right; now apply cut_None).
  - pose proof (occurrence_length _ _ _ _ (cut_Some _ _ _ _ C)) as E.
    destruct sep; [congruence|]. simpl in E. lia.
  - pose proof (occurrence_length _ _ _ _ (cut_Some _ _ _ _ C)) as E.
    apply cut_Some in C. apply (ss_split sep None s before after); [discriminate | exact C |].
    simpl. apply IH. destruct sep; [congruence|]. simpl in E. lia.
Qed.

Lemma SeparatorSplit_nonempty (sep : string) (limit : option nat) (s : string)
    (parts : list string) :
  SeparatorSplit sep limit s parts -> parts <> [].
Proof. now destruct 1. Qed.

Lemma join_cons (sep x : string) (xs : list string) :
  xs <> [] -> join sep (x :: xs) = x ++ sep ++ join sep xs.
Proof. now destruct xs. Qed.

Lemma SeparatorSplit_join (sep : string) (limit : option nat) (s : string)
    (parts : list string) :
  SeparatorSplit sep limit s parts -> join sep parts = s.
Proof.
  induction 1 as [limit s H | limit s before after parts Hl [E _] W IH].
  - reflexivity.
  - rewrite join_cons by (eapply SeparatorSplit_nonempty; eauto).
    now rewrite IH, E.
Qed.

(** Stopping after [k] splits: the first [k] parts, then the rest joined. *)
Lemma SeparatorSplit_limit (sep : string) (s : string) (parts : list string) :
  SeparatorSplit sep None s parts ->
  forall k, (k < length parts)%nat ->
            SeparatorSplit sep (Some k) s (firstn k parts ++ [join sep (skipn k parts)]).
Proof.
  intros W. remember None as limit eqn:El.
  induction W as [limit s H | limit s before after parts Hl O W IH]; intros k Hk.
  - simpl in Hk. replace k with 0%nat by lia. simpl. apply ss_last. now left.
  - subst limit. destruct k as [|k].
    + simpl firstn. simpl skipn. rewrite app_nil_l.
      erewrite SeparatorSplit_join by (eapply ss_split; eauto).
      apply ss_last. now left.
    + simpl firstn. simpl skipn. rewrite <- app_comm_cons.
      apply (ss_split sep _ s before after); [discriminate | exact O |]. simpl.
      apply IH; [reflexivity | simpl in Hk; lia].
Qed.

(** A limit that is not reached changes nothing. *)
Lemma SeparatorSplit_enough (sep : string) (s : string) (parts : list string) :
  SeparatorSplit sep None s parts ->
  forall k, (length parts <= S k)%nat -> SeparatorSplit sep (Some k) s parts.
Proof.
  intros W. remember None as limit eqn:El.
  induction W as [limit s H | limit s before after parts Hl O W IH]; intros k Hk.
  - subst limit. apply ss_last. destruct H as [H|H]; [discriminate | now right].
  - subst limit. destruct k as [|k].
    + simpl in Hk. apply SeparatorSplit_nonempty in W. destruct parts; [congruence | simpl in Hk; lia].
    + apply (ss_split sep _ s before after); [discriminate | exact O |]. simpl.
      apply IH; [reflexivity | simpl in Hk; lia].
Qed.

Lemma splitSeparator_spec (this sep : string) (maxsplit : Z) :
  sep <> EmptyString ->
  (-1 <= maxsplit)%Z ->
  SeparatorSplit sep (splitLimit maxsplit) this (splitSeparator this sep (Int maxsplit)).
Proof.
  intros Hsep Hk. unfold splitSeparator, split.
  pose proof (splitFuel_spec sep (String.length this) this Hsep (le_n _)) as W.
  set (result := splitFuel (String.length this) sep this) in *.
  unfold splitLimit. simpl.
  destruct (Z.eqb_spec maxsplit (-1)) as [->|Hne]; simpl; [exact W|].
  destruct (Z.ltb_spec maxsplit (Z.of_nat (length result))) as [Hlt|Hge].
  - unfold spliceStart. simpl.
    destruct (Z.ltb_spec maxsplit 0); [lia|].
    replace (Z.to_nat (Z.min maxsplit (Z.of_nat (length result))))
      with (Z.to_nat maxsplit) by lia.
    apply SeparatorSplit_limit; [exact W | lia].
  - apply SeparatorSplit_enough; [exact W | lia].
Qed.

(** Below -1 the whitespace loop stops at the first match, as it does for
    [maxsplit] = 0. *)
Lemma splitWhitespace_negative (this : string) (maxsplit : Z) :
  (maxsplit < -1)%Z ->
  splitWhitespace this (Int maxsplit) = splitWhitespace this (Int 0).
Proof.
  intros Hk. unfold splitWhitespace.
  destruct (matchAllNonSpace (trimStart this)) as [|[m index] matches]; [reflexivity|].
  simpl.
  destruct (Z.eqb_spec maxsplit (-1)); [lia|].
  destruct (Z.leb_spec maxsplit (Z.of_nat 0)); [reflexivity | simpl in *; lia].
Qed.

(** Below -1 [splice] counts from the end: the last [-maxsplit] parts are
    removed and joined. *)
Lemma splitSeparator_negative (this sep : string) (maxsplit : Z) :
  (maxsplit < -1)%Z ->
  let parts := split this sep in
  let kept := (length parts - Z.to_nat (- maxsplit))%nat in
  splitSeparator this sep (Int maxsplit)
  = (firstn kept parts ++ [join sep (skipn kept parts)])%list.
Proof.
  intros Hk parts kept. unfold splitSeparator. fold parts. simpl.
  destruct (Z.eqb_spec maxsplit (-1)); [lia|].
  destruct (Z.ltb_spec maxsplit (Z.of_nat (length parts))); [|lia].
  simpl. unfold spliceStart. simpl.
  destruct (Z.ltb_spec maxsplit 0); [|lia].
  replace (Z.to_nat (Z.max (Z.of_nat (length parts) + maxsplit) 0)) with kept
    by (subst kept; lia).
  reflexivity.
Qed.

Lemma not_SeparatorSplit_unlimited :
  ~ SeparatorSplit "," None "a,b,c,d" ["a"; "b"; "c,d"].
Proof.
  intros W.
  inversion W as [| limit s before after parts L [E1 _] W1]; subst.
  cbv [String.append] in E1. injection E1 as <-.
  inversion W1 as [| limit s before after parts L1 [E2 _] W2]; subst.
  cbv [String.append] in E2. injection E2 as <-.
  inversion W2 as [limit s [H|H] | limit s before after parts L2 _ W3]; subst.
  - discriminate H.
  - now apply (H "c" "d").
  - inversion W3.
Qed.

Lemma not_SeparatorSplit_nothing :
  ~ SeparatorSplit "," (Some 0%nat) "a,b,c,d" ["a"; "b"; "c,d"].
Proof.
  intros W. inversion W as [| limit s before after parts L _ _]; subst. now apply L.
Qed.


(** C6.  What the [split] member of a string does for every [maxsplit].
    From -1 on it allocates the array of the parts that the specification
    describes: with [sep] null the maximal runs of non-whitespace, leading
    whitespace skipped, and after [maxsplit] parts the rest of the string
    from the next part on, interior and trailing whitespace included, as
    the last element; with a non-empty string [sep] the pieces between the
    leftmost occurrences of [sep], and after [maxsplit] cuts what remains
    as the last element.  An empty [sep] throws.  Below -1 it does not
    split without limit, as for -1: with [sep] null it returns what it
    returns for [maxsplit] = 0, the whole string without its leading
    whitespace; with a string [sep] it cuts at every occurrence and then
    joins the last [-maxsplit] pieces again, so that
    ["a,b,c,d".split(",", -2)] is [["a", "b", "c,d"]], which is neither
    the split without limit nor the split with no cut at all. *)
Theorem split_builtin (this : string) (maxsplit : Z) (h : Heap) :
  let allocated (parts : list string) :=
    Ok (ArrayValue (length (arrays h)))
       (mkHeap (maps h) (arrays h ++ [map StringValue parts])) in
  ((-1 <= maxsplit)%Z ->
   (exists parts,
       stringSplit this [NullValue; IntegerValue (Int maxsplit)] h = allocated parts
       /\ WhitespaceSplit (splitLimit maxsplit) this parts)
   /\ (forall sep, sep <> EmptyString ->
         exists parts,
           stringSplit this [StringValue sep; IntegerValue (Int maxsplit)] h
           = allocated parts
           /\ SeparatorSplit sep (splitLimit maxsplit) this parts))
  /\ ((maxsplit < -1)%Z ->
      stringSplit this [NullValue; IntegerValue (Int maxsplit)] h
      = stringSplit this [NullValue; IntegerValue (Int 0)] h
      /\ (forall sep, sep <> EmptyString ->
            let pieces := split this sep in
            let kept := (length pieces - Z.to_nat (- maxsplit))%nat in
            SeparatorSplit sep None this pieces
            /\ stringSplit this [StringValue sep; IntegerValue (Int maxsplit)] h
               = allocated (firstn kept pieces ++ [join sep (skipn kept pieces)])%list))
  /\ stringSplit this [StringValue EmptyString; IntegerValue (Int maxsplit)] h
     = Throw (Error "empty separator") h
  /\ stringSplit "a,b,c,d" [StringValue ","; IntegerValue (Int (-2))] h
     = allocated ["a"; "b"; "c,d"]
  /\ ~ SeparatorSplit "," None "a,b,c,d" ["a"; "b"; "c,d"]
  /\ ~ SeparatorSplit "," (Some 0%nat) "a,b,c,d" ["a"; "b"; "c,d"].
Proof.
  intros allocated.
  split; [|split; [|split; [|split; [|split]]]].
  - intros Hk. split.
    + exists (splitWhitespace this (Int maxsplit)). split; [reflexivity|].
      now apply splitWhitespace_spec.
    + intros sep Hsep. exists (splitSeparator this sep (Int maxsplit)). split.
      * unfold stringSplit. simpl. apply String.eqb_neq in Hsep. now rewrite Hsep.
      * now apply splitSeparator_spec.
  - intros Hk. split.
    + unfold stringSplit. simpl. unfold bind, ret.
      now rewrite (splitWhitespace_negative this maxsplit Hk).
    + intros sep Hsep pieces kept. split.
      * apply splitFuel_spec; [exact Hsep | apply le_n].
      * unfold stringSplit. simpl. apply String.eqb_neq in Hsep. rewrite Hsep.
        unfold bind, ret. now rewrite (splitSeparator_negative this sep maxsplit Hk).
  - reflexivity.
  - reflexivity.
  - exact not_SeparatorSplit_unlimited.
  - exact not_SeparatorSplit_nothing.
Qed.

(** ** C2: calling a macro *)

(** C2.  Calling the function that a macro definition stores creates the
    macro's scope as a fresh environment whose parent is the scope handed
    over by the caller, binds the parameters in order in that scope and
    evaluates the body there.  A parameter with a default takes the
    positional argument at its index, else the caller's keyword argument of
    its name, else the value of its default expression evaluated in the
    macro's scope; a parameter without default takes the positional
    argument at its index, and the call throws when there is none.  The
    stored function holds no environment, and a call expression hands over
    the environment of the call: a macro that reads [x] sees the [x] of the
    call site, not the [x] of its definition. *)
Theorem macro_call_scope_and_binding (ev : Eval) (name : string)
    (nodeArgs body : list Node) (args : list Value) (scope : Environment) (h : Heap) :
  let macroScope := mkEnvironment (length (maps h)) (Some scope) in
  let positional := match last args with
                    | Some (KeywordArgumentsValue _) => removelast args
                    | _ => args
                    end in
  let kwargs := match last args with
                | Some (KeywordArgumentsValue kw) => Some kw
                | _ => None
                end in
  callFunction ev (MacroFn name nodeArgs body) args scope h
  = (bindMacroArguments ev nodeArgs 0 positional kwargs macroScope ;;;
     evaluateBlock ev body macroScope)
      (mkHeap (maps h ++ [initialVariables]) (arrays h))
  /\ (forall i key defaultNode rest pos kw s g,
         bindMacroArguments ev (KeywordArgumentExpression key defaultNode :: rest)
           i pos kw s g
         = (v <- parameterValue ev i key defaultNode pos (keywordMap g kw) s ;;
            setVariable s key v ;;;
            bindMacroArguments ev rest (S i) pos kw s) g)
  /\ (forall i x rest pos kw s g,
         bindMacroArguments ev (Identifier x :: rest) i pos kw s g
         = match pos !! i with
           | Some v => (setVariable s x v ;;; bindMacroArguments ev rest (S i) pos kw s) g
           | None => Throw (Error ("Missing positional argument: " ++ x)) g
           end)
  /\ (forall fuel defining g,
         evaluate (S fuel) (Macro name nodeArgs body) defining g
         = (setVariable defining name (FunctionValue (MacroFn name nodeArgs body)) ;;;
            ret NullValue) g)
  /\ (forall callee exprArgs site g pos g1 f g2,
         evaluateArguments ev exprArgs site g = Ok (pos, []) g1 ->
         ev callee site g1 = Ok (FunctionValue f) g2 ->
         evaluateCallExpression ev callee exprArgs site g = callFunction ev f pos site g2)
  /\ (exists g, runWithGlobals 8 callSiteTemplate = Ok (StringValue "call site") g)
  /\ (exists g, runWithGlobals 8 (defaultsTemplate [StringLiteral "1"])
                = Ok (StringValue "1B1") g)
  /\ (exists g, runWithGlobals 8
                  (defaultsTemplate [StringLiteral "1";
                                     KeywordArgumentExpression "c" (StringLiteral "3")])
                = Ok (StringValue "1B3") g)
  /\ (exists g, runWithGlobals 8
                  (defaultsTemplate [StringLiteral "1"; StringLiteral "2";
                                     KeywordArgumentExpression "b" (StringLiteral "k")])
                = Ok (StringValue "121") g)
  /\ (exists g, runWithGlobals 8
                  (defaultsTemplate [KeywordArgumentExpression "a" (StringLiteral "1")])
                = Throw (Error "Missing positional argument: a") g).
Proof.
  intros macroScope positional kwargs.
  repeat match goal with |- _ /\ _ => split end;
    try (eexists; vm_compute; reflexivity).
  - unfold callFunction, callMacro, newEnvironment, allocMap, bind, ret.
    subst macroScope positional kwargs.
    destruct (last args) as [[]|]; reflexivity.
  - intros i key defaultNode rest pos kw s g. simpl.
    unfold parameterValue, keywordMap, bind, ret, readMap. simpl.
    destruct (pos !! i) as [v|]; [reflexivity|].
    destruct kw as [kw|]; simpl.
    + destruct (map_get key (getMap g kw)); [reflexivity|].
      now destruct (ev defaultNode s g).
    + now destruct (ev defaultNode s g).
  - intros i x rest pos kw s g. simpl. unfold bind, throw.
    destruct (pos !! i); reflexivity.
  - intros callee exprArgs site g pos g1 f g2 A C.
    unfold evaluateCallExpression, bind. rewrite A. simpl. unfold ret. now rewrite C.
Qed.

(** ** C8: filters and their operand *)

(** C8.  What the code does where the claim fails: the [reverse] filter
    returns a value on the very array of its operand and reverses that
    array in place, and [sort] likewise sorts it in place, so that after
    [a | reverse] the variable [a] holds the reversed sequence: the
    template [{{ a | reverse | join }}{{ a | join }}] with a = ["x", "y"]
    renders "yxyx".  [a | reverse | reverse == a] is true, the two sides
    being the same array. *)
Theorem reverse_and_sort_mutate_operand (fuel : nat) (ev : Eval) (a : loc)
    (environment : Environment) (h : Heap) :
  applyFilter fuel ev (ArrayValue a) (Identifier "reverse") environment h
  = Ok (ArrayValue a) (putArray a (rev (getArray h a)) h)
  /\ applyFilter fuel ev (ArrayValue a) (Identifier "sort") environment h
     = match sortValues (getArray h a) with
       | inr sorted => Ok (ArrayValue a) (putArray a sorted h)
       | inl e => Throw e h
       end
  /\ (exists g, runWithGlobals 5 reverseTemplate = Ok (StringValue "yxyx") g)
  /\ (exists g, runWithGlobals 5 reverseTwiceTemplate = Ok (StringValue "true") g).
Proof.
  repeat match goal with |- _ /\ _ => split end;
    try reflexivity; try (eexists; vm_compute; reflexivity).
  unfold applyFilter, applyFilterIdentifier, bind, getHeap. simpl.
  destruct (sortValues (getArray h a)); reflexivity.
Qed.

(** ** Further properties of the runtime *)

(** *** Operators *)

(** X1.  [a and b] and [a or b] evaluate [a] first and decide on its
    truthiness: [and] returns the value of [a] itself when it is falsy and
    otherwise what evaluating [b] gives; [or] returns the value of [a]
    itself when it is truthy and otherwise what evaluating [b] gives.  The
    operand that is not needed is not evaluated, and the result is an
    operand, not a Boolean. *)
Theorem logical_operators_short_circuit (fuel : nat) (leftNode rightNode : Node)
    (environment : Environment) (h h1 : Heap) (left : Value) :
  evaluate fuel leftNode environment h = Ok left h1 ->
  evaluate (S fuel) (BinaryExpression "and" leftNode rightNode) environment h
  = (if __bool__ h1 left then evaluate fuel rightNode environment h1 else Ok left h1)
  /\ evaluate (S fuel) (BinaryExpression "or" leftNode rightNode) environment h
     = (if __bool__ h1 left then Ok left h1 else evaluate fuel rightNode environment h1).
Proof.
  intros E. split; simpl; unfold evaluateBinaryExpression, bind, getHeap, ret;
    rewrite E; simpl; now destruct (__bool__ h1 left).
Qed.

(** X2.  [==] and [!=] never fail, whatever the two operands are: they
    return Booleans that are each other's negation.  [Null] and
    [Undefined] are equal to themselves and to each other, and to nothing
    else. *)
Theorem equality_operators_total (left right : Value) (h : Heap) :
  exists b,
    binaryOperation "==" left right h = Ok (BooleanValue b) h
    /\ binaryOperation "!=" left right h = Ok (BooleanValue (negb b)) h
    /\ (isNullish left && isNullish right = true -> b = true)
    /\ (xorb (isNullish left) (isNullish right) = true -> b = false).
Proof.
  exists (looseEq h left right). repeat split.
  - destruct left, right; simpl; intros H; try discriminate H; reflexivity.
  - unfold looseEq.
    destruct left, right; simpl; intros H; try discriminate H; reflexivity.
Qed.

(** X3.  [+] on two arrays (or tuples) returns a newly allocated array
    holding the elements of the left operand followed by those of the
    right one; every array that existed before, the operands included,
    keeps its elements. *)
Theorem array_concatenation_fresh (left right : Value) (x y : loc) (h : Heap) :
  asArray left = Some x -> asArray right = Some y ->
  let h' := mkHeap (maps h) (arrays h ++ [getArray h x ++ getArray h y])%list in
  binaryOperation "+" left right h = Ok (ArrayValue (length (arrays h))) h'
  /\ getArray h' (length (arrays h)) = (getArray h x ++ getArray h y)%list
  /\ forall l, (l < length (arrays h))%nat -> getArray h' l = getArray h l.
Proof.
  intros Hx Hy h'. split; [|split].
  - destruct left; try discriminate Hx; destruct right; try discriminate Hy;
      injection Hx as ->; injection Hy as ->; reflexivity.
  - unfold getArray, h'. simpl. now rewrite list_lookup_middle.
  - intros l Hl. unfold getArray, h'. simpl. now rewrite lookup_app_l.
Qed.

(** X4.  With an array on the right and a left operand that is neither
    [Undefined] nor [Null]: when the left operand is not an array itself,
    [in] tells whether some element of the array has the same [value]
    ([===]) and [not in] is its negation; when the left operand is an
    array too, both operators throw "Unknown operator". *)
Theorem array_membership (left right : Value) (y : loc) (h : Heap) :
  asArray right = Some y -> isNullish left = false ->
  let member := existsb (fun x => strictEq x left) (getArray h y) in
  match asArray left with
  | None =>
      binaryOperation "in" left right h = Ok (BooleanValue member) h
      /\ binaryOperation "not in" left right h = Ok (BooleanValue (negb member)) h
  | Some _ =>
      binaryOperation "in" left right h = Throw (unknownOperator "in" left right) h
      /\ binaryOperation "not in" left right h
         = Throw (unknownOperator "not in" left right) h
  end.
Proof.
  intros Hy Hn member.
  destruct right; try discriminate Hy; injection Hy as ->;
    destruct left; try discriminate Hn; split; reflexivity.
Qed.

(** X5.  On operands that are neither [Undefined] nor [Null], [~] always
    returns the string made of the texts of the two operands, and so does
    [+] as soon as one operand is a string.  The text of a Float is the
    plain number: 1.0 joins as "1", although it renders as "1.0". *)
Theorem string_concatenation (left right : Value) (h : Heap) :
  isNullish left = false -> isNullish right = false ->
  binaryOperation "~" left right h
  = Ok (StringValue (valueText h left ++ valueText h right)) h
  /\ (isString left || isString right = true ->
      binaryOperation "+" left right h
      = Ok (StringValue (valueText h left ++ valueText h right)) h)
  /\ (forall z, valueText h (FloatValue (Int z)) = decimal z
                /\ toString h (FloatValue (Int z)) = decimal z ++ ".0").
Proof.
  intros Hl Hr. split; [|split].
  - destruct left; try discriminate Hl; destruct right; try discriminate Hr; reflexivity.
  - destruct left; try discriminate Hl; destruct right; try discriminate Hr;
      intros H; try discriminate H; reflexivity.
  - intros z. split; reflexivity.
Qed.

Lemma includes_unfold (s needle : string) :
  includes s needle
  = String.prefix needle s
    || match s with
       | EmptyString => false
       | String _ s' => includes s' needle
       end.
Proof. now destruct s. Qed.

Lemma includes_occurrence (s needle : string) :
  includes s needle = true <-> exists before after, s = before ++ needle ++ after.
Proof.
  split.
  - induction s as [|c s IH]; rewrite includes_unfold; intros H;
      apply orb_true_iff in H as [H|H]; try discriminate H.
    + exists EmptyString, (dropString (String.length needle) EmptyString).
      rewrite append_empty_l. now apply prefix_append.
    + exists EmptyString, (dropString (String.length needle) (String c s)).
      rewrite append_empty_l. now apply prefix_append.
    + destruct (IH H) as (before & after & ->).
      exists (String c before), after. now rewrite append_cons.
  - intros (before & after & ->). induction before as [|c before IH].
    + rewrite append_empty_l, includes_unfold, prefix_of_append. reflexivity.
    + rewrite append_cons, includes_unfold, IH. apply orb_true_r.
Qed.

(** X6.  [needle in text] between two strings tells whether [needle]
    occurs in [text], and [needle in object] whether the object has the
    key; [not in] is the negation in both cases. *)
Theorem string_and_key_containment (needle : string) (h : Heap) :
  (forall text,
      binaryOperation "in" (StringValue needle) (StringValue text) h
      = Ok (BooleanValue (includes text needle)) h
      /\ binaryOperation "not in" (StringValue needle) (StringValue text) h
         = Ok (BooleanValue (negb (includes text needle))) h
      /\ (includes text needle = true
          <-> exists before after, text = before ++ needle ++ after))
  /\ (forall object m,
         asObject object = Some m ->
         binaryOperation "in" (StringValue needle) object h
         = Ok (BooleanValue (map_has needle (getMap h m))) h
         /\ binaryOperation "not in" (StringValue needle) object h
            = Ok (BooleanValue (negb (map_has needle (getMap h m)))) h).
Proof.
  split.
  - intros text. repeat split; apply includes_occurrence.
  - intros object m Hm. destruct object; try discriminate Hm; injection Hm as ->;
      split; reflexivity.
Qed.

(** X7.  The operators [-], [*], [/], [%], [<], [>], [<=] and [>=] are
    defined on numbers only: when an operand is not a number (and none is
    [Undefined] or [Null]) the expression throws "Unknown operator",
    strings and arrays included. *)
Theorem arithmetic_needs_numbers (operator : string) (left right : Value) (h : Heap) :
  In operator ["-"; "*"; "/"; "%"; "<"; ">"; "<="; ">="] ->
  isNullish left = false -> isNullish right = false ->
  asNumber left = None \/ asNumber right = None ->
  binaryOperation operator left right h = Throw (unknownOperator operator left right) h.
Proof.
  intros Hop Hl Hr Hn. simpl in Hop.
  repeat (destruct Hop as [<-|Hop]); try contradiction;
    destruct left; try discriminate Hl; destruct right; try discriminate Hr;
    try reflexivity; destruct Hn as [Hn|Hn]; discriminate Hn.
Qed.

(** X8.  [not x] negates JavaScript's truthiness of the [value] of [x].
    For numbers, strings, Booleans, [Null] and [Undefined] this is the
    negation of the truthiness that [if] uses; for arrays, tuples, objects
    and functions [not x] is false, even when the array or object is empty
    and therefore falsy for [if]. *)
Theorem unary_not_javascript_truthiness (fuel : nat) (argumentNode : Node)
    (environment : Environment) (h h1 : Heap) (argument : Value) :
  evaluate fuel argumentNode environment h = Ok argument h1 ->
  exists b,
    evaluate (S fuel) (UnaryExpression "not" argumentNode) environment h
    = Ok (BooleanValue b) h1
    /\ (isObjectRef argument = false -> b = negb (__bool__ h1 argument))
    /\ (isObjectRef argument = true -> b = false).
Proof.
  intros E. exists (negb (jsTruthy argument)). repeat split.
  - simpl. unfold evaluateUnaryExpression, bind. now rewrite E.
  - destruct argument; simpl; intros H; try discriminate H; reflexivity.
  - destruct argument; simpl; intros H; try discriminate H; reflexivity.
Qed.

(** *** Filters *)

Lemma joinElement_strings (h : Heap) (parts : list string) :
  map (joinElement h) (map StringValue parts) = parts.
Proof. induction parts as [|p parts IH]; simpl; [reflexivity | now rewrite IH]. Qed.

Lemma getArray_alloc (h : Heap) (items : list Value) :
  getArray (mkHeap (maps h) (arrays h ++ [items])) (length (arrays h)) = items.
Proof. unfold getArray. simpl. now rewrite list_lookup_middle. Qed.

Lemma getArray_alloc_other (h : Heap) (items : list Value) (l : loc) :
  (l < length (arrays h))%nat ->
  getArray (mkHeap (maps h) (arrays h ++ [items])) l = getArray h l.
Proof. intros Hl. unfold getArray. simpl. now rewrite lookup_app_l. Qed.

(** X9.  Splitting a string at a non-empty separator, with any limit on
    the number of splits, and joining the parts with the [join] filter
    called with the same separator gives the string back. *)
Theorem split_join_round_trip (fuel n : nat) (this sep : string) (maxsplit : Z)
    (environment : Environment) (h : Heap) :
  sep <> EmptyString -> (-1 <= maxsplit)%Z ->
  exists a h',
    stringSplit this [StringValue sep; IntegerValue (Int maxsplit)] h
    = Ok (ArrayValue a) h'
    /\ applyFilter fuel (evaluate (S n)) (ArrayValue a)
         (CallExpression (Identifier "join") [StringLiteral sep]) environment h'
       = Ok (StringValue this) h'.
Proof.
  intros Hsep Hk.
  exists (length (arrays h)),
    (mkHeap (maps h)
       (arrays h ++ [map StringValue (splitSeparator this sep (Int maxsplit))])).
  split.
  - unfold stringSplit. simpl. apply String.eqb_neq in Hsep. now rewrite Hsep.
  - unfold applyFilter, applyFilterCall. simpl.
    unfold bind, readArray, ret, getHeap. rewrite getArray_alloc. simpl.
    rewrite joinElement_strings.
    now rewrite (SeparatorSplit_join sep _ this _
                   (splitSeparator_spec this sep maxsplit Hsep Hk)).
Qed.

Lemma uniqueFrom_rest (items seen output : list Value) :
  exists rest,
    uniqueFrom items seen output = (output ++ rest)%list
    /\ pairwiseNew seen rest = true
    /\ sublist rest items
    /\ forall x, In x items ->
                  In x rest \/ existsb (sameValueZero x) (seen ++ rest) = true.
Proof.
  revert seen output. induction items as [|item items IH]; intros seen output; simpl.
  - exists []. rewrite app_nil_r. repeat split; [constructor | intros x []].
  - destruct (existsb (sameValueZero item) seen) eqn:E.
    + destruct (IH seen output) as (rest & -> & P & S & C).
      exists rest. repeat split; [exact P | now apply sublist_cons |].
      intros x [<-|Hx]; [|now apply C].
      right. rewrite existsb_app, E. reflexivity.
    + destruct (IH (seen ++ [item])%list (output ++ [item])%list)
        as (rest & -> & P & S & C).
      exists (item :: rest). repeat split.
      * now rewrite <- app_assoc.
      * simpl. now rewrite E, P.
      * now apply sublist_skip.
      * intros x [<-|Hx]; [left; now left|].
        destruct (C x Hx) as [H|H]; [left; now right|].
        right. now rewrite <- app_assoc in H.
Qed.

Lemma pairwiseNew_earlier (seen l before after : list Value) (x : Value) :
  pairwiseNew seen l = true -> l = (before ++ x :: after)%list ->
  existsb (sameValueZero x) (seen ++ before) = false.
Proof.
  revert seen l. induction before as [|y before IH]; intros seen l P ->; simpl in P.
  - rewrite app_nil_r. apply andb_true_iff in P as [P _]. now apply negb_true_iff in P.
  - apply andb_true_iff in P as [_ P].
    specialize (IH (seen ++ [y])%list _ P eq_refl). now rewrite <- app_assoc in IH.
Qed.

Lemma uniqueFrom_fixed (l seen output : list Value) :
  pairwiseNew seen l = true -> uniqueFrom l seen output = (output ++ l)%list.
Proof.
  revert seen output. induction l as [|x l IH]; intros seen output P; simpl in *.
  - now rewrite app_nil_r.
  - apply andb_true_iff in P as [N P]. apply negb_true_iff in N. rewrite N.
    rewrite (IH _ _ P). now rewrite <- app_assoc.
Qed.

(** X10.  [a | unique] allocates a new array and leaves the operand as
    it was.  The new array is a subsequence of the operand; every element
    of the operand is in it or is the same value ([SameValueZero]) as one
    of its elements; none of its elements is the same value as an earlier
    one; and applying the loop of the filter to it again changes
    nothing. *)
Theorem unique_filter (fuel : nat) (operand : Value) (a : loc) (h : Heap) :
  asArray operand = Some a ->
  let items := getArray h a in
  let output := uniqueFrom items [] [] in
  let h' := mkHeap (maps h) (arrays h ++ [output]) in
  applyFilterIdentifier fuel operand "unique" h = Ok (ArrayValue (length (arrays h))) h'
  /\ ((a < length (arrays h))%nat -> getArray h' a = items)
  /\ sublist output items
  /\ (forall x, In x items -> In x output \/ existsb (sameValueZero x) output = true)
  /\ (forall before x after,
         output = (before ++ x :: after)%list -> existsb (sameValueZero x) before = false)
  /\ uniqueFrom output [] [] = output.
Proof.
  intros Ha items output h'.
  destruct (uniqueFrom_rest items [] []) as (rest & E & P & S & C).
  simpl in E. fold output in E. subst rest.
  split; [|split; [|split; [|split; [|split]]]].
  - destruct operand; try discriminate Ha; injection Ha as ->; reflexivity.
  - intros Hl. now apply getArray_alloc_other.
  - exact S.
  - exact C.
  - intros before x after E. exact (pairwiseNew_earlier [] output before after x P E).
  - now apply (uniqueFrom_fixed output [] []).
Qed.

Lemma selectItems_filter (select : bool) (attr : string) (value : option Value)
    (items : list Value) (h : Heap) :
  selectItems select (Some attr)
    (fun (x : Value) (_ : option Value) => g <- getHeap ;; ret (__bool__ g x)) value items h
  = Ok (List.filter (fun item => Bool.eqb select (attributeTruthy h attr item)) items) h.
Proof.
  induction items as [|item items IH]; simpl; [reflexivity|].
  unfold bind, readMap, ret, getHeap in *. unfold attributeTruthy, attributeOf.
  destruct (asObject item) as [m|]; simpl.
  - destruct (map_get attr (getMap h m)) as [v|]; simpl; rewrite IH;
      now destruct (Bool.eqb select _).
  - rewrite IH. now destruct (Bool.eqb select false).
Qed.

(** X11.  On an array whose items are all objects, [selectattr(attr)]
    returns a new array with the items that have the entry [attr] with a
    truthy value, and [rejectattr(attr)] a new array with all the others,
    both in the order of the operand; an item without the entry is
    rejected.  When some item is not an object both throw. *)
Theorem selectattr_rejectattr_partition (fuel n : nat) (operand : Value) (a : loc)
    (attr : string) (environment : Environment) (h : Heap) :
  asArray operand = Some a ->
  let items := getArray h a in
  let outcome (name : string) (kept : list Value) : Result Value :=
    if forallb isObject items
    then Ok (ArrayValue (length (arrays h))) (mkHeap (maps h) (arrays h ++ [kept]))
    else Throw (Error ("`" ++ name ++ "` can only be applied to array of objects")) h in
  applyFilter fuel (evaluate (S n)) operand
    (CallExpression (Identifier "selectattr") [StringLiteral attr]) environment h
  = outcome "selectattr" (List.filter (attributeTruthy h attr) items)
  /\ applyFilter fuel (evaluate (S n)) operand
       (CallExpression (Identifier "rejectattr") [StringLiteral attr]) environment h
     = outcome "rejectattr"
         (List.filter (fun item => negb (attributeTruthy h attr item)) items).
Proof.
  intros Ha items outcome.
  assert (N : existsb (fun x => match asObject x with Some _ => false | None => true end)
                items
              = negb (forallb isObject items)).
  { induction items as [|x l IH]; simpl; [reflexivity|]. rewrite IH. unfold isObject.
    now destruct (asObject x). }
  split.
  - destruct operand; try discriminate Ha; injection Ha as ->;
      unfold applyFilter, applyFilterCall, outcome; simpl;
      unfold bind, readArray, ret; fold items; rewrite N;
      (destruct (forallb isObject items); simpl; [|reflexivity]);
      rewrite selectItems_filter; simpl; unfold newArrayValue, allocArray, bind, ret;
      do 2 f_equal; try (f_equal; f_equal); apply filter_ext; intros x;
      now destruct (attributeTruthy h attr x).
  - destruct operand; try discriminate Ha; injection Ha as ->;
      unfold applyFilter, applyFilterCall, outcome; simpl;
      unfold bind, readArray, ret; fold items; rewrite N;
      (destruct (forallb isObject items); simpl; [|reflexivity]);
      rewrite selectItems_filter; simpl; unfold newArrayValue, allocArray, bind, ret;
      do 2 f_equal; try (f_equal; f_equal); apply filter_ext; intros x;
      now destruct (attributeTruthy h attr x).
Qed.

Lemma mapAttribute_objects (attr : string) (defaultValue : option Value)
    (items : list Value) (h : Heap) :
  mapAttribute attr defaultValue items h
  = if forallb isObject items
    then Ok (map (fun item => match attributeOf h attr item with
                              | Some v => v
                              | None => default UndefinedValue defaultValue
                              end) items) h
    else Throw (Error "items in map must be an object") h.
Proof.
  induction items as [|item items IH]; simpl; [reflexivity|].
  assert (isObject item = match asObject item with Some _ => true | None => false end)
    as -> by reflexivity.
  unfold attributeOf at 1. destruct (asObject item) as [m|]; simpl; [|reflexivity].
  unfold bind, readMap, ret. rewrite IH.
  now destruct (forallb isObject items).
Qed.

(** X12.  [map(attribute=attr)] on an array of objects returns a new array
    of the same length with, for each item, its entry [attr], or [Undefined]
    when the item has none; it throws when some item is not an object, and
    [map] without [attribute] always throws. *)
Theorem map_attribute_filter (fuel n : nat) (operand : Value) (a : loc) (attr : string)
    (environment : Environment) (h : Heap) :
  asArray operand = Some a ->
  let items := getArray h a in
  applyFilter fuel (evaluate (S n)) operand
    (CallExpression (Identifier "map")
       [KeywordArgumentExpression "attribute" (StringLiteral attr)]) environment h
  = (if forallb isObject items
     then Ok (ArrayValue (length (arrays h)))
            (mkHeap (maps h)
               (arrays h ++ [map (fun item => default UndefinedValue (attributeOf h attr item))
                               items]))
     else Throw (Error "items in map must be an object") h)
  /\ applyFilter fuel (evaluate (S n)) operand
       (CallExpression (Identifier "map") []) environment h
     = Throw (Error "`map` expressions without `attribute` set are not currently supported.")
         h.
Proof.
  intros Ha items. split.
  - destruct operand; try discriminate Ha; injection Ha as ->;
      unfold applyFilter, applyFilterCall; simpl;
      unfold evaluateArguments; simpl;
      unfold bind, readArray, ret; simpl; fold items; rewrite mapAttribute_objects;
      (destruct (forallb isObject items); [|reflexivity]);
      unfold newArrayValue, allocArray, bind, ret; simpl; do 4 f_equal;
      apply map_ext; intros x; now destruct (attributeOf h attr x).
  - destruct operand; try discriminate Ha; reflexivity.
Qed.

(** *** toJSON *)

Lemma ReadOnly_ret {A} (a : A) : ReadOnly (ret a).
Proof. now intros h. Qed.

Lemma ReadOnly_throw {A} (e : Exn) : ReadOnly (throw (A := A) e).
Proof. now intros h. Qed.

Lemma ReadOnly_bind {A B} (m : M A) (k : A -> M B) :
  ReadOnly m -> (forall a, ReadOnly (k a)) -> ReadOnly (bind m k).
Proof.
  intros Hm Hk h. unfold bind. specialize (Hm h).
  destruct (m h) as [a h1|e h1|]; subst; [apply Hk | reflexivity | exact I].
Qed.

Lemma ReadOnly_mapM {A B} (f : A -> M B) (l : list A) :
  (forall x, ReadOnly (f x)) -> ReadOnly (mapM f l).
Proof.
  intros Hf. induction l as [|x l IH]; simpl; [apply ReadOnly_ret|].
  apply ReadOnly_bind; [apply Hf|]. intros y.
  apply ReadOnly_bind; [exact IH|]. intros ys. apply ReadOnly_ret.
Qed.

Lemma ReadOnly_repeatSpaces (n : number) : ReadOnly (repeatSpaces n).
Proof.
  unfold repeatSpaces. destruct (toIntegerOrInfinity n) as [z| |];
    try apply ReadOnly_throw.
  destruct (z <? 0)%Z; [apply ReadOnly_throw | apply ReadOnly_ret].
Qed.

Lemma ReadOnly_toJSON (fuel : nat) :
  forall input indent depth, ReadOnly (toJSON fuel input indent depth).
Proof.
  induction fuel as [|fuel IH]; intros input indent depth; [now intros h|].
  assert (P : ReadOnly
                (indentValue <- match indent with
                                | Some n => if num_truthy n then repeatSpaces n else ret EmptyString
                                | None => ret EmptyString
                                end ;;
                 ret (String "010"%char (repeatString indentValue depth),
                      String "010"%char (repeatString indentValue depth) ++ indentValue))).
  { apply ReadOnly_bind; [|intros; apply ReadOnly_ret].
    destruct indent as [k|]; [|apply ReadOnly_ret].
    destruct (num_truthy k); [apply ReadOnly_repeatSpaces | apply ReadOnly_ret]. }
  destruct input; simpl; try apply ReadOnly_ret; try apply ReadOnly_throw.
  - apply ReadOnly_bind; [exact P|]. intros [basePadding childrenPadding].
    apply ReadOnly_bind; [now intros h|]. intros entries.
    apply ReadOnly_bind; [|intros; apply ReadOnly_ret].
    apply ReadOnly_mapM. intros [k v].
    apply ReadOnly_bind; [apply IH|]. intros; apply ReadOnly_ret.
  - apply ReadOnly_bind; [exact P|]. intros [basePadding childrenPadding].
    apply ReadOnly_bind; [now intros h|]. intros items.
    apply ReadOnly_bind; [|intros; apply ReadOnly_ret].
    apply ReadOnly_mapM. intros x. apply IH.
Qed.

(** X13.  [toJSON] changes nothing in the heap, whether it returns or
    throws.  It throws "Cannot convert to JSON" on a function, and also on
    a tuple and on a keyword-arguments value, whose [type] is neither
    "ArrayValue" nor "ObjectValue"; [Null] and [Undefined] both give
    "null". *)
Theorem toJSON_reads_only (fuel : nat) (input : Value) (indent : option number)
    (depth : nat) (h : Heap) :
  match toJSON fuel input indent depth h with
  | Ok _ h' | Throw _ h' => h' = h
  | OutOfFuel => True
  end
  /\ (In (typeOf input) ["FunctionValue"; "TupleValue"; "KeywordArgumentsValue"] ->
      toJSON (S fuel) input indent depth h
      = Throw (Error ("Cannot convert to JSON: " ++ typeOf input)) h)
  /\ (In (typeOf input) ["NullValue"; "UndefinedValue"] ->
      toJSON (S fuel) input indent depth h = Ok "null" h).
Proof.
  split; [apply ReadOnly_toJSON|].
  split; intros H; simpl in H; destruct input; simpl in H;
    try reflexivity; repeat (destruct H as [H|H]; try discriminate H); contradiction.
Qed.

Lemma mapM_ext {A B} (f g : A -> M B) (l : list A) :
  (forall x h, f x h = g x h) -> forall h, mapM f l h = mapM g l h.
Proof.
  intros E. induction l as [|x l IH]; intros h; simpl; [reflexivity|].
  unfold bind. rewrite E. destruct (g x h) as [y h1| |]; try reflexivity.
  now rewrite IH.
Qed.

(** X14.  An indent that is falsy for JavaScript, such as 0, is no
    indent: [toJSON] returns what it returns without indent. *)
Theorem toJSON_indent_zero (fuel : nat) (input : Value) (indent : number) (depth : nat)
    (h : Heap) :
  num_truthy indent = false ->
  toJSON fuel input (Some indent) depth h = toJSON fuel input None depth h.
Proof.
  intros Z. revert input depth h.
  induction fuel as [|fuel IH]; intros input depth h; [reflexivity|].
  destruct input; simpl; try reflexivity; rewrite Z; unfold bind; simpl.
  - erewrite mapM_ext; [reflexivity|].
    intros [k v] g. unfold bind. now rewrite IH.
  - erewrite mapM_ext; [reflexivity|]. intros x g. apply IH.
Qed.

(** *** The two forms of a filter *)

Lemma join_characters (s : string) : join EmptyString (characters s) = s.
Proof.
  induction s as [|c s IH]; [reflexivity|].
  change (characters (String c s)) with (String c EmptyString :: characters s).
  destruct s as [|d s]; [reflexivity|].
  rewrite join_cons by discriminate. rewrite IH. reflexivity.
Qed.

(** X15.  On a string, the filters [tojson], [join], [indent], [int] and
    [float] give the same result when called without arguments as when
    given by name only; whereas [length], [upper], [lower], [title],
    [capitalize], [trim] and [string] work by name only and throw "Unknown
    StringValue filter" when written as a call. *)
Theorem string_filter_surface_forms (fuel n : nat) (s name : string)
    (environment : Environment) (h : Heap) :
  let filtered (filter : Node) :=
    applyFilter fuel (evaluate (S n)) (StringValue s) filter environment h in
  (In name ["tojson"; "join"; "indent"; "int"; "float"] ->
   filtered (CallExpression (Identifier name) []) = filtered (Identifier name))
  /\ (In name ["length"; "upper"; "lower"; "title"; "capitalize"; "trim"; "string"] ->
      (exists v, filtered (Identifier name) = Ok v h)
      /\ filtered (CallExpression (Identifier name) [])
         = Throw (Error ("Unknown StringValue filter: " ++ name)) h).
Proof.
  intros filtered. split; intros H; simpl in H;
    repeat (destruct H as [<-|H]); try contradiction; subst filtered.
  - unfold applyFilter, applyFilterCall, applyFilterIdentifier. simpl.
    unfold bind, getHeap. simpl. now destruct (toJSON fuel (StringValue s) None 0 h).
  - unfold applyFilter, applyFilterCall, applyFilterIdentifier. simpl.
    unfold bind, getHeap, ret. simpl.
    now rewrite joinElement_strings, join_characters.
  - reflexivity.
  - unfold applyFilter, applyFilterCall, applyFilterIdentifier. simpl.
    unfold bind, getHeap, ret. simpl. now destruct (num_isNaN (parseInt10 s)).
  - unfold applyFilter, applyFilterCall, applyFilterIdentifier. simpl.
    unfold bind, getHeap, ret. simpl. now destruct (num_isNaN (parseFloat s)).
  - split; [eexists|]; reflexivity.
  - split; [eexists|]; reflexivity.
  - split; [eexists|]; reflexivity.
  - split; [eexists|]; reflexivity.
  - split; [eexists|]; reflexivity.
  - split; [eexists|]; reflexivity.
  - split; [eexists|]; reflexivity.
Qed.

(** X16.  On a number, [int] and [float] given by name convert: [int]
    returns the floor with the Integer tag and [float] the same number
    with the Float tag.  Written as calls without arguments, [int()] and
    [float()] return the operand as it is, tag included. *)
Theorem numeric_conversion_forms (fuel n : nat) (value : number)
    (environment : Environment) (h : Heap) :
  let filtered (operand : Value) (filter : Node) :=
    applyFilter fuel (evaluate (S n)) operand filter environment h in
  let conversions (operand : Value) :=
    filtered operand (Identifier "int") = Ok (IntegerValue (num_floor value)) h
    /\ filtered operand (Identifier "float") = Ok (FloatValue value) h
    /\ filtered operand (CallExpression (Identifier "int") []) = Ok operand h
    /\ filtered operand (CallExpression (Identifier "float") []) = Ok operand h in
  conversions (IntegerValue value) /\ conversions (FloatValue value).
Proof. repeat split. Qed.

(** *** Built-in members of strings and objects *)

Lemma anyPattern_strings (what : string) (test : string -> bool) (patterns : list string)
    (h : Heap) :
  anyPattern what test (map StringValue patterns) h
  = Ok (BooleanValue (existsb test patterns)) h.
Proof.
  induction patterns as [|p patterns IH]; simpl; [reflexivity|].
  destruct (test p); [reflexivity | exact IH].
Qed.

Lemma startsWith_prefix (s p : string) :
  startsWith s p = true <-> exists rest, s = p ++ rest.
Proof.
  unfold startsWith. split.
  - intros H. eexists. now apply prefix_append.
  - intros [rest ->]. apply prefix_of_append.
Qed.

Lemma revString_acc (s acc t : string) :
  revString (revString s acc) t = revString acc (s ++ t).
Proof.
  revert acc t. induction s as [|c s IH]; intros acc t; simpl; [reflexivity|].
  now rewrite IH.
Qed.

Lemma revString_append (s acc : string) :
  revString s acc = revString s EmptyString ++ acc.
Proof.
  revert acc. induction s as [|c s IH]; intros acc; simpl; [reflexivity|].
  rewrite (IH (String c acc)), (IH (String c EmptyString)).
  now rewrite append_assoc.
Qed.

Lemma revString_distr (a b : string) :
  revString (a ++ b) EmptyString = revString b EmptyString ++ revString a EmptyString.
Proof.
  revert b. induction a as [|c a IH]; intros b.
  - rewrite append_empty_l. simpl. now rewrite append_empty_r.
  - rewrite append_cons. simpl. rewrite (revString_append (a ++ b)), IH.
    rewrite (revString_append a (String c EmptyString)). now rewrite append_assoc.
Qed.

Lemma revString_involutive (s : string) :
  revString (revString s EmptyString) EmptyString = s.
Proof. rewrite revString_acc. simpl. apply append_empty_r. Qed.

Lemma endsWith_suffix (s p : string) :
  endsWith s p = true <-> exists front, s = front ++ p.
Proof.
  unfold endsWith. split.
  - intros H. apply prefix_append in H.
    exists (revString (dropString (String.length (revString p EmptyString))
                         (revString s EmptyString)) EmptyString).
    rewrite <- (revString_involutive s) at 1. rewrite H at 1.
    rewrite revString_distr. f_equal. apply revString_involutive.
  - intros [front ->]. rewrite revString_distr. apply prefix_of_append.
Qed.

(** X17.  [startswith] and [endswith] of a string take a string, and
    then tell whether the receiver starts (ends) with it, or an array or
    tuple of strings, and then tell whether the receiver starts (ends)
    with one of them, an empty tuple giving false; without argument they
    throw. *)
Theorem startswith_endswith_patterns (this : string) (h : Heap) :
  let called (name : string) (args : list Value) := callStringBuiltin name this args h in
  (forall pattern,
      called "startswith" [StringValue pattern]
      = Ok (BooleanValue (startsWith this pattern)) h
      /\ called "endswith" [StringValue pattern]
         = Ok (BooleanValue (endsWith this pattern)) h
      /\ (startsWith this pattern = true <-> exists rest, this = pattern ++ rest)
      /\ (endsWith this pattern = true <-> exists front, this = front ++ pattern))
  /\ (forall tuple a patterns,
         asArray tuple = Some a -> getArray h a = map StringValue patterns ->
         called "startswith" [tuple]
         = Ok (BooleanValue (existsb (startsWith this) patterns)) h
         /\ called "endswith" [tuple]
            = Ok (BooleanValue (existsb (endsWith this) patterns)) h)
  /\ called "startswith" [] = Throw (Error "startswith() requires at least one argument") h
  /\ called "endswith" [] = Throw (Error "endswith() requires at least one argument") h.
Proof.
  intros called. split; [|split; [|split]]; try reflexivity.
  - intros pattern. repeat split; try apply startsWith_prefix; try apply endsWith_suffix.
  - intros tuple a patterns Ha Hp.
    destruct tuple; try discriminate Ha; injection Ha as ->;
      unfold called, callStringBuiltin, patternTest; simpl;
      unfold bind, readArray; rewrite Hp, !anyPattern_strings; split; reflexivity.
Qed.

Lemma itemPairs_alloc (entries : list (string * Value)) (h : Heap) :
  itemPairs entries h
  = Ok (map ArrayValue (seq (length (arrays h)) (length entries)))
       (mkHeap (maps h) (arrays h ++ map entryPair entries)).
Proof.
  revert h. induction entries as [|[k v] entries IH]; intros h; simpl.
  - unfold ret. rewrite app_nil_r. now destruct h.
  - unfold newArrayValue, allocArray, bind, ret. simpl. rewrite IH. simpl.
    rewrite length_app, Nat.add_1_r, <- app_assoc. reflexivity.
Qed.

(** X18.  [keys()], [values()] and [items()] of an object each allocate
    a new array listing the entries in insertion order: the keys as
    strings, the values, and for [items] one new two-element array [key,
    value] per entry.  The object's [Map] is not changed.  The filter
    [items] is the method, and the filter [length] counts the entries. *)
Theorem object_items_keys_values (fuel : nat) (object : Value) (m : loc) (h : Heap) :
  asObject object = Some m ->
  let entries := getMap h m in
  let first := length (arrays h) in
  let allocated (items : list (list Value)) :=
    mkHeap (maps h) (arrays h ++ items)%list in
  callObjectBuiltin "keys" m [] h
  = Ok (ArrayValue first) (allocated [map (fun e => StringValue (fst e)) entries])
  /\ callObjectBuiltin "values" m [] h = Ok (ArrayValue first) (allocated [map snd entries])
  /\ callObjectBuiltin "items" m [] h
     = Ok (ArrayValue (first + length entries))
          (allocated (map entryPair entries
                        ++ [map ArrayValue (seq first (length entries))])%list)
  /\ applyFilterIdentifier fuel object "items" h = callObjectBuiltin "items" m [] h
  /\ applyFilterIdentifier fuel object "length" h
     = Ok (IntegerValue (Int (Z.of_nat (length entries)))) h.
Proof.
  intros Hm entries first allocated. repeat split.
  - unfold callObjectBuiltin, objectItems. simpl. unfold bind, readMap.
    fold entries. rewrite itemPairs_alloc. unfold newArrayValue, allocArray, bind, ret.
    simpl. rewrite length_app, length_map, <- app_assoc. reflexivity.
  - destruct object; try discriminate Hm; injection Hm as ->; reflexivity.
  - destruct object; try discriminate Hm; injection Hm as ->; reflexivity.
Qed.

(** *** Environments and the globals *)

Lemma map_has_set_other (k k' : string) (v : Value) (m : list (string * Value)) :
  k <> k' -> map_has k (map_set k' v m) = map_has k m.
Proof. intros N. unfold map_has. now rewrite map_get_set_other. Qed.

Lemma setAll_other (bindings m : list (string * Value)) (k : string) :
  ~ In k (map fst bindings) -> map_get k (setAll bindings m) = map_get k m.
Proof.
  revert m. induction bindings as [|[k0 v0] bindings IH]; intros m N; [reflexivity|].
  simpl in *. unfold setAll in *. simpl. rewrite IH by tauto.
  apply map_get_set_other. intros ->. tauto.
Qed.

Lemma setAll_bound (bindings m : list (string * Value)) (k : string) (v : Value) :
  NoDup (map fst bindings) -> In (k, v) bindings ->
  map_get k (setAll bindings m) = Some v.
Proof.
  revert m. induction bindings as [|[k0 v0] bindings IH]; intros m D H; [destruct H|].
  simpl in D. apply NoDup_cons in D as [N D]. unfold setAll in *. simpl.
  destruct H as [[= -> ->]|H].
  - change (map_get k (setAll bindings (map_set k v m)) = Some v).
    rewrite setAll_other; [apply map_get_set_same|].
    intros I. apply N. now apply list_elem_of_In.
  - now apply IH.
Qed.

Lemma declareAll_fresh (env : Environment) (bindings : list (string * Value)) (h : Heap) :
  (variables env < length (maps h))%nat ->
  NoDup (map fst bindings) ->
  (forall name, In name (map fst bindings) ->
                map_has name (getMap h (variables env)) = false) ->
  exists h1,
    declareAll env bindings h = Ok tt h1
    /\ getMap h1 (variables env) = setAll bindings (getMap h (variables env))
    /\ length (maps h1) = length (maps h).
Proof.
  revert h. induction bindings as [|[k v] bindings IH]; intros h L D F.
  - exists h. now repeat split.
  - simpl in D. apply NoDup_cons in D as [N D].
    simpl. unfold declareVariable, bind, readMap, writeMap, ret.
    rewrite (F k) by now left.
    destruct (IH (putMap (variables env) (map_set k v (getMap h (variables env))) h))
      as (h1 & E & G & Len).
    + now rewrite length_maps_putMap.
    + exact D.
    + intros name I. rewrite getMap_putMap_same by exact L.
      rewrite map_has_set_other; [apply F; now right|].
      intros ->. apply N. now apply list_elem_of_In.
    + exists h1. rewrite E. split; [reflexivity|].
      rewrite G, getMap_putMap_same by exact L. rewrite Len, length_maps_putMap.
      now split.
Qed.

Lemma lookupVariable_own (env : Environment) (name : string) (v : Value) (h : Heap) :
  map_get name (getMap h (variables env)) = Some v -> lookupVariable h env name = v.
Proof.
  intros G. unfold lookupVariable. destruct env as [vars p]. simpl in *.
  unfold map_has. rewrite G. simpl. now rewrite G.
Qed.

(** X19.  In an environment that declares none of them yet,
    [setupGlobals] succeeds and binds [true] and [True], [false] and
    [False], [none] and [None] and the three host functions, leaving every
    other binding of the environment as it was.  Applied a second time to
    the same environment it throws "Variable already declared: false" and
    changes nothing. *)
Theorem setupGlobals_declares_once (env : Environment) (h : Heap) :
  (variables env < length (maps h))%nat ->
  (forall name, In name (map fst globals) ->
                map_has name (getMap h (variables env)) = false) ->
  exists h1,
    setupGlobals env h = Ok tt h1
    /\ (forall name value, In (name, value) globals -> lookupVariable h1 env name = value)
    /\ (forall name, ~ In name (map fst globals) ->
          map_get name (getMap h1 (variables env))
          = map_get name (getMap h (variables env)))
    /\ setupGlobals env h1 = Throw (SyntaxError "Variable already declared: false") h1.
Proof.
  intros L F.
  assert (D : NoDup (map fst globals)).
  { apply NoDup_ListNoDup. simpl. repeat constructor; simpl; intuition discriminate. }
  destruct (declareAll_fresh env globals h L D F) as (h1 & E & G & Len).
  assert (S : forall g, setupGlobals env g = declareAll env globals g).
  { intros g. unfold setupGlobals, Environment_set, globals, declareAll, bind. simpl.
    repeat (destruct (declareVariable env _ _ _) as [? ?| |]; try reflexivity). }
  exists h1. rewrite !S. split; [exact E|]. split; [|split].
  - intros name value I. apply lookupVariable_own. rewrite G. now apply setAll_bound.
  - intros name N. rewrite G. now apply setAll_other.
  - simpl. unfold declareVariable, bind, readMap, throw.
    unfold map_has. rewrite G.
    rewrite (setAll_bound globals _ "false" (BooleanValue false) D); [reflexivity|].
    now left.
Qed.

(** X20.  Where [raise_exception] is bound to the function that
    [setupGlobals] registers, the call [raise_exception("m")] throws an
    [Error] whose message is "m". *)
Theorem raise_exception_throws_message (fuel : nat) (message : string)
    (env : Environment) (h : Heap) :
  lookupVariable h env "raise_exception" = FunctionValue (HostFn "raise_exception") ->
  evaluate (S (S fuel))
    (CallExpression (Identifier "raise_exception") [StringLiteral message]) env h
  = Throw (Error message) h.
Proof.
  intros L. simpl. unfold evaluateCallExpression, evaluateArguments. simpl.
  unfold bind, ret, evaluateIdentifier, getHeap. simpl. rewrite L. reflexivity.
Qed.

Lemma namespace_call (fuel : nat) (env : Environment) (g : Heap) :
  lookupVariable g env "namespace" = FunctionValue NamespaceFn ->
  evaluate (S (S fuel)) (CallExpression (Identifier "namespace") []) env g
  = Ok (ObjectValue (length (maps g))) (mkHeap (maps g ++ [[]]) (arrays g)).
Proof.
  intros L. simpl. unfold evaluateCallExpression, evaluateArguments. simpl.
  unfold bind, ret, evaluateIdentifier, getHeap. simpl. rewrite L. reflexivity.
Qed.

(** X21.  Every new environment, a child scope as well as a global one,
    binds [namespace] in its own variables: a lookup of [namespace] from
    it finds that function whatever its ancestors bind, and [set] for the
    name [namespace], with any value that can be converted, throws
    "Variable already declared".  Calling [namespace()] there returns a new
    empty object. *)
Theorem namespace_bound_in_every_scope (fuel : nat) (parent : option Environment)
    (h : Heap) :
  let env := mkEnvironment (length (maps h)) parent in
  let h' := mkHeap (maps h ++ [initialVariables]) (arrays h) in
  newEnvironment parent h = Ok env h'
  /\ lookupVariable h' env "namespace" = FunctionValue NamespaceFn
  /\ (forall value, convertible value = true ->
        exists h2, Environment_set env "namespace" value h'
                   = Throw (SyntaxError "Variable already declared: namespace") h2)
  /\ evaluate (S (S fuel)) (CallExpression (Identifier "namespace") []) env h'
     = Ok (ObjectValue (S (length (maps h))))
          (mkHeap (maps h' ++ [[]]) (arrays h)).
Proof.
  intros env h'.
  assert (G : getMap h' (variables env) = initialVariables).
  { unfold getMap, h', env. simpl. now rewrite list_lookup_middle. }
  assert (L : lookupVariable h' env "namespace" = FunctionValue NamespaceFn).
  { apply lookupVariable_own. now rewrite G. }
  split; [reflexivity|]. split; [exact L|]. split.
  - intros value C. apply Environment_set_declared; [| |exact C].
    + unfold h', env. simpl. rewrite length_app. simpl. lia.
    + now rewrite G.
  - rewrite (namespace_call fuel env h' L). unfold h'. simpl.
    rewrite length_app. simpl. now rewrite Nat.add_1_r.
Qed.

(** *** Member access and assignment *)

Lemma resolve_ancestor (h : Heap) (name : string) (env e : Environment) :
  resolve h name env = inr e -> In e (ancestors env).
Proof.
  revert env. fix IH 1. intros [vars p]. simpl.
  destruct (map_has name (getMap h vars)).
  - clear IH. intros [= <-]. now left.
  - destruct p as [p|]; [|discriminate]. intros R. right. now apply IH.
Qed.

Lemma resolve_putMap_other (h : Heap) (name : string) (m : loc)
    (x : list (string * Value)) (env : Environment) :
  ~ In m (map variables (ancestors env)) ->
  resolve (putMap m x h) name env = resolve h name env.
Proof.
  revert env. fix IH 1. intros [vars p]. simpl. intros N.
  rewrite getMap_putMap_other by (intros ->; apply N; now left).
  destruct (map_has name (getMap h vars)); [reflexivity|].
  destruct p as [p|]; [|reflexivity]. apply IH. intros I. apply N. now right.
Qed.

Lemma lookupVariable_putMap_other (h : Heap) (name : string) (m : loc)
    (x : list (string * Value)) (env : Environment) :
  ~ In m (map variables (ancestors env)) ->
  lookupVariable (putMap m x h) env name = lookupVariable h env name.
Proof.
  intros N. unfold lookupVariable. rewrite resolve_putMap_other by exact N.
  destruct (resolve h name env) as [|e] eqn:R; [reflexivity|].
  rewrite getMap_putMap_other; [reflexivity|].
  intros Hm. apply N. rewrite <- Hm. apply in_map. now apply (resolve_ancestor h name).
Qed.

(** X22.  [{% set ns.name = value %}] on a variable bound to an object
    writes the entry [name] of that object and nothing else in it; reading
    [ns.name] afterwards gives the assigned value. *)
Theorem member_assignment_round_trip (fuel : nat) (ns name : string) (valueNode : Node)
    (computed : bool) (env : Environment) (h h1 : Heap) (rhs object : Value) (m : loc) :
  evaluate (S fuel) valueNode env h = Ok rhs h1 ->
  lookupVariable h1 env ns = object -> asObject object = Some m ->
  (m < length (maps h1))%nat ->
  ~ In m (map variables (ancestors env)) ->
  let h2 := putMap m (map_set name rhs (getMap h1 m)) h1 in
  evaluate (S (S fuel))
    (SetStatement (MemberExpression (Identifier ns) (Identifier name) computed)
       (Some valueNode) []) env h
  = Ok NullValue h2
  /\ evaluate (S (S fuel)) (MemberExpression (Identifier ns) (Identifier name) false) env h2
     = Ok rhs h2
  /\ (forall other, other <> name ->
        map_get other (getMap h2 m) = map_get other (getMap h1 m)).
Proof.
  intros E L A Hm N h2.
  assert (G : getMap h2 m = map_set name rhs (getMap h1 m)).
  { now apply getMap_putMap_same. }
  split; [|split].
  - change (evaluateSet (evaluate (S fuel))
              (MemberExpression (Identifier ns) (Identifier name) computed)
              (Some valueNode) [] env h = Ok NullValue h2).
    unfold evaluateSet, bind. rewrite E.
    change (evaluate (S fuel) (Identifier ns) env h1) with (Ok (lookupVariable h1 env ns) h1).
    rewrite L. destruct object; try discriminate A; injection A as ->; reflexivity.
  - change (evaluateMemberExpression (evaluate (S fuel)) (Identifier ns) (Identifier name)
              false env h2 = Ok rhs h2).
    unfold evaluateMemberExpression, bind.
    change (evaluate (S fuel) (Identifier ns) env h2) with (Ok (lookupVariable h2 env ns) h2).
    unfold h2 at 1. rewrite lookupVariable_putMap_other by exact N. rewrite L.
    destruct object; try discriminate A; injection A as ->; unfold getHeap, ret;
      rewrite G, map_get_set_same; reflexivity.
  - intros other O. rewrite G. now apply map_get_set_other.
Qed.

(** X23.  Indexing an array or tuple with an integer: an index from 0 to
    the length minus one selects from the start, an index from minus the
    length to -1 selects from the end, and any other index gives
    [Undefined]; no index makes the expression fail. *)
Theorem array_index_access (fuel : nat) (objectNode : Node) (z : Z) (env : Environment)
    (h h1 : Heap) (object : Value) (a : loc) :
  evaluate (S fuel) objectNode env h = Ok object h1 -> asArray object = Some a ->
  let items := getArray h1 a in
  let n := Z.of_nat (length items) in
  let result :=
    evaluate (S (S fuel)) (MemberExpression objectNode (IntegerLiteral (Int z)) true) env h in
  ((0 <= z < n)%Z -> exists x, items !! Z.to_nat z = Some x /\ result = Ok x h1)
  /\ ((- n <= z < 0)%Z -> exists x, items !! Z.to_nat (n + z) = Some x /\ result = Ok x h1)
  /\ ((z < - n \/ n <= z)%Z -> result = Ok UndefinedValue h1).
Proof.
  intros E A items n result.
  assert (R : result = Ok (default UndefinedValue (at_ items (Int z))) h1).
  { unfold result.
    change (evaluateMemberExpression (evaluate (S fuel)) objectNode (IntegerLiteral (Int z))
              true env h = Ok (default UndefinedValue (at_ items (Int z))) h1).
    unfold evaluateMemberExpression, bind. rewrite E. simpl.
    destruct object; try discriminate A; injection A as ->; reflexivity. }
  rewrite R. unfold at_. simpl. fold n. split; [|split]; intros Hz.
  - destruct (Z.ltb_spec z 0); [lia|]. destruct (Z.ltb_spec z 0); [lia|].
    destruct (lookup_lt_is_Some_2 items (Z.to_nat z)) as [x Hx]; [lia|].
    exists x. now rewrite Hx.
  - destruct (Z.ltb_spec z 0); [|lia]. destruct (Z.ltb_spec (n + z) 0); [lia|].
    destruct (lookup_lt_is_Some_2 items (Z.to_nat (n + z))) as [x Hx]; [lia|].
    exists x. now rewrite Hx.
  - destruct (Z.ltb_spec z 0).
    + destruct (Z.ltb_spec (n + z) 0); [reflexivity|lia].
    + destruct (Z.ltb_spec z 0); [lia|].
      rewrite lookup_ge_None_2; [reflexivity|lia].
Qed.

(** X24.  For a key that an object has, [object.key] and
    [object.get("key", ...)] both give its value.  For a key that it has
    not, [get] gives the fallback, or [Null] without one, while
    [object.key] gives [Undefined], unless the key is the name of one of
    the methods [get], [items], [keys], [values], which it then gives: an
    entry with such a name takes precedence over the method. *)
Theorem object_get_and_member (fuel : nat) (objectNode : Node) (key : string)
    (env : Environment) (h h1 : Heap) (object : Value) (m : loc) :
  evaluate (S fuel) objectNode env h = Ok object h1 -> asObject object = Some m ->
  let member :=
    evaluate (S (S fuel)) (MemberExpression objectNode (Identifier key) false) env h in
  let got (rest : list Value) := callObjectBuiltin "get" m (StringValue key :: rest) h1 in
  match map_get key (getMap h1 m) with
  | Some v => member = Ok v h1 /\ forall rest, got rest = Ok v h1
  | None =>
      member = Ok (if inNames key objectFunctionNames
                   then FunctionValue (ObjectBuiltin key m) else UndefinedValue) h1
      /\ got [] = Ok NullValue h1
      /\ forall fallback rest, got (fallback :: rest) = Ok fallback h1
  end.
Proof.
  intros E A member got.
  assert (R : member
              = Ok (match map_get key (getMap h1 m) with
                    | Some v => v
                    | None => default UndefinedValue (builtinsGet h1 object key)
                    end) h1).
  { unfold member.
    change (evaluateMemberExpression (evaluate (S fuel)) objectNode (Identifier key)
              false env h = Ok (match map_get key (getMap h1 m) with
                                | Some v => v
                                | None => default UndefinedValue (builtinsGet h1 object key)
                                end) h1).
    unfold evaluateMemberExpression, bind. rewrite E.
    destruct object; try discriminate A; injection A as ->; reflexivity. }
  rewrite R. destruct (map_get key (getMap h1 m)) as [v|] eqn:G.
  - split; [reflexivity|]. intros rest. unfold got, callObjectBuiltin. simpl.
    unfold bind, readMap, ret. now rewrite G.
  - split; [|split].
    + destruct object; try discriminate A; injection A as ->; unfold builtinsGet;
        now destruct (inNames key objectFunctionNames).
    + unfold got, callObjectBuiltin. simpl. unfold bind, readMap, ret. now rewrite G.
    + intros fallback rest. unfold got, callObjectBuiltin. simpl.
      unfold bind, readMap, ret. now rewrite G.
Qed.

(** *** Assignment, arguments and tests *)

Lemma unpackInSet_sets (env : Environment) (names : list string) (arr : list Value)
    (h : Heap) :
  (variables env < length (maps h))%nat ->
  exists h2,
    unpackInSet (map Identifier names) arr env h = Ok tt h2
    /\ getMap h2 (variables env) = setAll (zip names arr) (getMap h (variables env))
    /\ length (maps h2) = length (maps h).
Proof.
  revert arr h. induction names as [|k names IH]; intros arr h L.
  - exists h. now repeat split.
  - destruct arr as [|v arr]; [exists h; now repeat split|].
    simpl. unfold setVariable, bind, readMap, writeMap, ret.
    destruct (IH arr (putMap (variables env) (map_set k v (getMap h (variables env))) h))
      as (h2 & E & G & Len); [now rewrite length_maps_putMap|].
    exists h2. rewrite E. split; [reflexivity|].
    rewrite G, getMap_putMap_same by exact L. rewrite Len, length_maps_putMap.
    now split.
Qed.

Lemma zip_keys (names : list string) (arr : list Value) (k : string) :
  In k (map fst (zip names arr)) -> In k names.
Proof.
  revert arr. induction names as [|n names IH]; intros arr; [now destruct arr|].
  destruct arr as [|v arr]; simpl; [tauto|].
  intros [->|H]; [now left | right; now apply (IH arr)].
Qed.

Lemma setAll_zip_lookup (names : list string) (arr : list Value)
    (m : list (string * Value)) (i : nat) (name : string) (v : Value) :
  NoDup names -> names !! i = Some name -> arr !! i = Some v ->
  map_get name (setAll (zip names arr) m) = Some v.
Proof.
  revert arr m i. induction names as [|k names IH]; intros arr m i D Hn Ha;
    [discriminate Hn|].
  destruct arr as [|v0 arr]; [discriminate Ha|].
  apply NoDup_cons in D as [N D].
  change (map_get name (setAll (zip names arr) (map_set k v0 m)) = Some v).
  destruct i as [|i]; simpl in Hn, Ha.
  - injection Hn as ->. injection Ha as ->.
    rewrite setAll_other; [apply map_get_set_same|].
    intros I. apply N. apply list_elem_of_In. now apply (zip_keys names arr).
  - now apply (IH arr _ i).
Qed.

(** X25.  [{% set a, b, ... = value %}] with distinct names: when the
    value is no array it throws "Cannot unpack non-iterable type in set";
    when the array is shorter or longer than the list of names it throws
    "Too few" or "Too many items to unpack in set"; otherwise it binds, in
    the environment of the statement, each name to the element at its
    position. *)
Theorem set_tuple_unpacking (fuel : nat) (names : list string) (valueNode : Node)
    (env : Environment) (h h1 : Heap) (rhs : Value) :
  evaluate (S fuel) valueNode env h = Ok rhs h1 ->
  (variables env < length (maps h1))%nat ->
  NoDup names ->
  let result :=
    evaluate (S (S fuel))
      (SetStatement (TupleLiteral (map Identifier names)) (Some valueNode) []) env h in
  match asArray rhs with
  | None =>
      result = Throw (Error ("Cannot unpack non-iterable type in set: " ++ typeOf rhs)) h1
  | Some a =>
      let arr := getArray h1 a in
      if (length arr <? length names)%nat
      then result = Throw (Error "Too few items to unpack in set") h1
      else if (length names <? length arr)%nat
           then result = Throw (Error "Too many items to unpack in set") h1
           else exists h2,
               result = Ok NullValue h2
               /\ forall i name v, names !! i = Some name -> arr !! i = Some v ->
                                   lookupVariable h2 env name = v
  end.
Proof.
  intros E L D result.
  assert (R : result
              = (match asArray rhs with
                 | None => throw (Error ("Cannot unpack non-iterable type in set: "
                                           ++ typeOf rhs))
                 | Some a =>
                     arr <- readArray a ;;
                     if negb (length arr =? length (map Identifier names))%nat
                     then throw (Error ("Too " ++ (if (length arr <? length (map Identifier names))%nat
                                                   then "few" else "many")
                                          ++ " items to unpack in set"))
                     else unpackInSet (map Identifier names) arr env
                 end ;;; ret NullValue) h1).
  { unfold result.
    change (evaluate (S (S fuel))
              (SetStatement (TupleLiteral (map Identifier names)) (Some valueNode) []) env h)
      with (evaluateSet (evaluate (S fuel)) (TupleLiteral (map Identifier names))
              (Some valueNode) [] env h).
    unfold evaluateSet, bind at 1. rewrite E. reflexivity. }
  rewrite R. clear R. destruct (asArray rhs) as [a|]; [|reflexivity].
  unfold bind, readArray. rewrite length_map. simpl.
  destruct (Nat.ltb_spec (length (getArray h1 a)) (length names)) as [Lt|Ge].
  - destruct (Nat.eqb_spec (length (getArray h1 a)) (length names)); [lia|]. reflexivity.
  - destruct (Nat.ltb_spec (length names) (length (getArray h1 a))) as [Lt|Le].
    + destruct (Nat.eqb_spec (length (getArray h1 a)) (length names)); [lia|]. reflexivity.
    + destruct (Nat.eqb_spec (length (getArray h1 a)) (length names)); [|lia]. simpl.
      destruct (unpackInSet_sets env names (getArray h1 a) h1 L) as (h2 & U & G & _).
      exists h2. rewrite U. split; [reflexivity|].
      intros i name v Hn Ha. apply lookupVariable_own. rewrite G.
      now apply (setAll_zip_lookup names _ _ i).
Qed.

Lemma evaluateArgumentsFrom_app (ev : Eval) (pre post : list Node) (env : Environment)
    (pos : list Value) (kw : list (string * Value)) (h : Heap) :
  evaluateArgumentsFrom ev (pre ++ post) env pos kw h
  = match evaluateArgumentsFrom ev pre env pos kw h with
    | Ok (p, k) h1 => evaluateArgumentsFrom ev post env p k h1
    | Throw e h1 => Throw e h1
    | OutOfFuel => OutOfFuel
    end.
Proof.
  revert pos kw h. induction pre as [|argument pre IH]; intros pos kw h; [reflexivity|].
  simpl.
  destruct argument; unfold bind;
    try (destruct (0 <? length kw)%nat; [reflexivity|]);
    try match goal with
        | |- context [ev ?n env h] =>
            destruct (ev n env h) as [v h1| |]; try reflexivity
        end;
    try apply IH.
  destruct (asArray v); [apply IH | reflexivity].
Qed.

(** X26.  Once the arguments evaluated so far include a keyword argument,
    a following argument that is neither a keyword argument nor a spread
    makes the evaluation of the arguments throw, before that argument is
    evaluated. *)
Theorem positional_after_keyword_fails (ev : Eval) (pre rest : list Node)
    (argument : Node) (env : Environment) (h h1 : Heap) (pos : list Value)
    (kw : list (string * Value)) :
  evaluateArguments ev pre env h = Ok (pos, kw) h1 ->
  kw <> [] -> plainArgument argument = true ->
  evaluateArguments ev (pre ++ argument :: rest) env h
  = Throw (Error "Positional arguments must come before keyword arguments") h1.
Proof.
  unfold evaluateArguments. intros E K P.
  rewrite evaluateArgumentsFrom_app, E.
  destruct kw as [|entry kw]; [contradiction|].
  destruct argument; try discriminate P; reflexivity.
Qed.

(** X27.  In [x is t] and [x is not t]: an unknown test name throws
    "Unknown test"; when [x is t] returns a Boolean, [x is not t] returns
    its negation; the tests [eq] and [equalto], which compare with a
    second argument that a test expression never passes, throw a
    TypeError for every operand; and [defined] and [undefined] tell
    whether the operand is not, or is, [Undefined]. *)
Theorem test_expression_outcomes (fuel : nat) (operandNode : Node) (negate : bool)
    (test : string) (env : Environment) (h h1 : Heap) (operand : Value) :
  evaluate fuel operandNode env h = Ok operand h1 ->
  let tested (negate : bool) (test : string) :=
    evaluate (S fuel) (TestExpression operandNode negate test) env h in
  (lookupTest test = None -> tested negate test = Throw (Error ("Unknown test: " ++ test)) h1)
  /\ (forall b, tested false test = Ok (BooleanValue b) h1 ->
                tested true test = Ok (BooleanValue (negb b)) h1)
  /\ (In test ["eq"; "equalto"] ->
      tested negate test
      = Throw (TypeError "Cannot read properties of undefined (reading 'value')") h1)
  /\ tested false "defined" = Ok (BooleanValue (negb (isUndefined operand))) h1
  /\ tested false "undefined" = Ok (BooleanValue (isUndefined operand)) h1.
Proof.
  intros E tested.
  assert (R : forall n t, tested n t
                          = match lookupTest t with
                            | None => Throw (Error ("Unknown test: " ++ t)) h1
                            | Some f =>
                                match f operand None with
                                | inl e => Throw e h1
                                | inr r => Ok (BooleanValue (if n then negb r else r)) h1
                                end
                            end).
  { intros n t. unfold tested. simpl. unfold evaluateTestExpression, bind. rewrite E.
    destruct (lookupTest t) as [f|]; [|reflexivity].
    unfold liftTest. now destruct (f operand None). }
  split; [|split; [|split; [|split]]].
  - intros N. now rewrite R, N.
  - intros b. rewrite !R. destruct (lookupTest test) as [f|]; [|discriminate].
    destruct (f operand None); [discriminate|]. now intros [= ->].
  - intros I. rewrite R. simpl in I. destruct I as [<-|[<-|[]]]; reflexivity.
  - rewrite R. now destruct operand.
  - rewrite R. now destruct operand.
Qed.

(** *** Loops and call blocks *)

Lemma collectItems_identifier (ev : Eval) (x : string) (scope : Environment) (a : loc)
    (remaining i : nat) (items : list Value) (updates : list ScopeUpdate) (h : Heap) :
  exists more h',
    collectItems ev (Identifier x) None scope a remaining i items updates h
    = Ok ((items ++ more)%list, (updates ++ map (UpdateIdentifier x) more)%list) h'
    /\ length more = remaining
    /\ (remaining = 0%nat -> h' = h).
Proof.
  revert i items updates h.
  induction remaining as [|remaining IH]; intros i items updates h.
  - exists [], h. simpl. rewrite !app_nil_r. now repeat split.
  - simpl. unfold newEnvironment, allocMap, bind, readArray, ret. simpl.
    match goal with
    | |- context [collectItems ev _ _ _ _ remaining (S i) (items ++ [?c])%list _ ?g] =>
        destruct (IH (S i) (items ++ [c])%list
                    (updates ++ [UpdateIdentifier x c])%list g) as (more & h' & E & Len & _);
        exists (c :: more), h'
    end.
    rewrite E. simpl. rewrite <- !app_assoc. simpl.
    split; [reflexivity|]. split; [now rewrite Len | discriminate].
Qed.

Lemma iterateItems_continue (fuel : nat) (x : string) (rest : list Node)
    (scope : Environment) (items more : list Value) (i : nat) (result : string)
    (noIteration : bool) (h : Heap) :
  exists h',
    iterateItems (evaluate (S fuel)) (Continue :: rest) scope items
      (map (UpdateIdentifier x) more) i result noIteration h
    = Ok (result, noIteration) h'.
Proof.
  revert i h. induction more as [|v more IH]; intros i h; [now exists h|].
  simpl. unfold enterIteration, applyScopeUpdate, setVariable, allocMap, bind, readMap,
    writeMap, ret. simpl. apply IH.
Qed.

Lemma iterateItems_break (fuel : nat) (rest : list Node) (scope : Environment)
    (items : list Value) (updates : list ScopeUpdate) (i : nat) (result : string)
    (noIteration : bool) (h : Heap) (x : string) (more : list Value) :
  updates = map (UpdateIdentifier x) more ->
  exists h',
    iterateItems (evaluate (S fuel)) (Break :: rest) scope items updates i result
      noIteration h
    = Ok (result, noIteration) h'.
Proof.
  intros ->. destruct more as [|v more]; [now exists h|].
  simpl. unfold enterIteration, applyScopeUpdate, setVariable, allocMap, bind, readMap,
    writeMap, ret. simpl. eexists. reflexivity.
Qed.

Lemma evaluateBlock_rendered (ev : Eval) (block : list Node) (scope : Environment)
    (h : Heap) :
  (defaultEvaluated <- evaluateBlock ev block scope ;;
   ret (StringValue (EmptyString ++ stringValue defaultEvaluated))) h
  = evaluateBlock ev block scope h.
Proof.
  unfold bind, ret.
  destruct (evaluateBlock ev block scope h) as [v h'| |] eqn:E; try reflexivity.
  apply evaluateBlock_string in E as [s ->]. simpl. now rewrite append_empty_l.
Qed.

(** X28.  A [for] loop over an array, with one loop variable and no
    filter, evaluates to what its [else] block evaluates to, in the scope
    of the loop, in three cases: when the array is empty; when the body
    starts with [continue], whatever the number of items; and when the
    body starts with [break]. *)
Theorem for_loop_else_block (fuel : nat) (x : string) (iterableNode : Node)
    (body defaultBlock : list Node) (environment : Environment) (h h1 : Heap)
    (iterable : Value) (a : loc) :
  let scope := mkEnvironment (length (maps h)) (Some environment) in
  let h0 := mkHeap (maps h ++ [initialVariables]) (arrays h) in
  let loop (body : list Node) :=
    evaluate (S (S fuel)) (For (Identifier x) iterableNode body defaultBlock) environment h in
  let otherwise (g : Heap) := evaluateBlock (evaluate (S fuel)) defaultBlock scope g in
  nodeType iterableNode <> "SelectExpression" ->
  evaluate (S fuel) iterableNode scope h0 = Ok iterable h1 ->
  asArray iterable = Some a ->
  (getArray h1 a = [] -> loop body = otherwise h1)
  /\ (forall rest, exists h2, loop (Continue :: rest) = otherwise h2)
  /\ (forall rest, exists h2, loop (Break :: rest) = otherwise h2).
Proof.
  intros scope h0 loop otherwise N E A.
  assert (R : forall b,
             loop b
             = (collected <- collectItems (evaluate (S fuel)) (Identifier x) None scope a
                               (length (getArray h1 a)) 0 [] [] ;;
                let '(items, scopeUpdateFunctions) := collected in
                r <- iterateItems (evaluate (S fuel)) b scope items scopeUpdateFunctions 0
                       EmptyString true ;;
                let '(result, noIteration) := r in
                if noIteration then
                  defaultEvaluated <- evaluateBlock (evaluate (S fuel)) defaultBlock scope ;;
                  ret (StringValue (result ++ stringValue defaultEvaluated))
                else ret (StringValue result)) h1).
  { intros b. unfold loop.
    change (evaluate (S (S fuel)) (For (Identifier x) iterableNode b defaultBlock)
              environment h)
      with (evaluateFor (evaluate (S fuel)) (Identifier x) iterableNode b defaultBlock
              environment h).
    unfold evaluateFor, newEnvironment, allocMap. unfold bind at 1 2. unfold ret at 1.
    fold scope h0.
    assert (P : (match iterableNode with
                 | SelectExpression lhs test =>
                     iterable0 <- evaluate (S fuel) lhs scope ;; ret (iterable0, Some test)
                 | _ => iterable0 <- evaluate (S fuel) iterableNode scope ;;
                        ret (iterable0, None)
                 end) h0 = Ok (iterable, None) h1).
    { destruct iterableNode; try (exfalso; apply N; reflexivity);
        unfold bind, ret; now rewrite E. }
    unfold bind at 1. rewrite P.
    destruct iterable; try discriminate A; injection A as ->; reflexivity. }
  split; [|split].
  - intros Empty. rewrite R, Empty. simpl. apply evaluateBlock_rendered.
  - intros rest. rewrite R. unfold bind at 1.
    destruct (collectItems_identifier (evaluate (S fuel)) x scope a
                (length (getArray h1 a)) 0 [] [] h1) as (more & g & -> & _ & _).
    cbn [app]. unfold bind at 1.
    destruct (iterateItems_continue fuel x rest scope more more 0 EmptyString true g)
      as (g' & ->).
    exists g'. apply evaluateBlock_rendered.
  - intros rest. rewrite R. unfold bind at 1.
    destruct (collectItems_identifier (evaluate (S fuel)) x scope a
                (length (getArray h1 a)) 0 [] [] h1) as (more & g & -> & _ & _).
    cbn [app]. unfold bind at 1.
    destruct (iterateItems_break fuel rest scope more (map (UpdateIdentifier x) more) 0
                EmptyString true g x more eq_refl) as (g' & ->).
    exists g'. apply evaluateBlock_rendered.
Qed.

Lemma bindCallerArguments_sets (names : list string) (i : nat) (callerArgs : list Value)
    (env : Environment) (h : Heap) :
  (variables env < length (maps h))%nat ->
  exists h2,
    bindCallerArguments (map Identifier names) i callerArgs env h = Ok tt h2
    /\ getMap h2 (variables env)
       = setAll (zip names (callerArgumentsFrom callerArgs i (length names)))
           (getMap h (variables env))
    /\ length (maps h2) = length (maps h).
Proof.
  revert i h. induction names as [|k names IH]; intros i h L.
  - exists h. now repeat split.
  - simpl. unfold setVariable, bind, readMap, writeMap, ret.
    destruct (IH (S i) (putMap (variables env)
                         (map_set k (default UndefinedValue (callerArgs !! i))
                            (getMap h (variables env))) h))
      as (h2 & E & G & Len); [now rewrite length_maps_putMap|].
    exists h2. rewrite E. split; [reflexivity|].
    rewrite G, getMap_putMap_same by exact L. rewrite Len, length_maps_putMap.
    now split.
Qed.

(** X29.  The function bound to [caller] in a call block evaluates the
    body of the block in a new scope below the environment it is called
    from, after binding each declared parameter to the argument at its
    position, or to [Undefined] when there is none: a missing argument is
    not an error, and surplus arguments are ignored. *)
Theorem caller_binds_positionally (ev : Eval) (names : list string) (body : list Node)
    (callerArgs : list Value) (callerEnv : Environment) (h : Heap) :
  NoDup names ->
  let callBlockEnv := mkEnvironment (length (maps h)) (Some callerEnv) in
  let h1 := mkHeap (maps h ++ [initialVariables]) (arrays h) in
  (exists h2,
      callFunction ev (CallerFn (Some (map Identifier names)) body) callerArgs callerEnv h
      = evaluateBlock ev body callBlockEnv h2
      /\ forall i name, names !! i = Some name ->
                        lookupVariable h2 callBlockEnv name
                        = default UndefinedValue (callerArgs !! i))
  /\ callFunction ev (CallerFn None body) callerArgs callerEnv h
     = evaluateBlock ev body callBlockEnv h1.
Proof.
  intros D callBlockEnv h1. split; [|reflexivity].
  destruct (bindCallerArguments_sets names 0 callerArgs callBlockEnv h1)
    as (h2 & E & G & _).
  { unfold h1, callBlockEnv. simpl. rewrite length_app. simpl. lia. }
  exists h2. split.
  - unfold callFunction, callCaller, newEnvironment, allocMap. unfold bind at 1 2.
    unfold ret at 1. fold callBlockEnv h1. unfold bind. now rewrite E.
  - intros i name Hn. apply lookupVariable_own. rewrite G.
    apply (setAll_zip_lookup names _ _ i); [exact D | exact Hn |].
    unfold callerArgumentsFrom. rewrite list_lookup_fmap.
    rewrite lookup_seq_lt by (apply lookup_lt_Some in Hn; exact Hn). reflexivity.
Qed.

End Properties.

(** * Instances on the reference built-ins *)

(** C4 at [7 + 2], [7 / 2] and [7 < 2]: the sum is an Integer, the
    quotient a Float, the comparison a Boolean. *)
Lemma numeric_operators_witness :
  let result operator :=
    evaluate (js := Reference.prims) 2
      (BinaryExpression operator (IntegerLiteral (Int 7)) (IntegerLiteral (Int 2)))
      exampleEnvironment exampleHeap in
  result "+" = Ok (IntegerValue (Int 9)) exampleHeap
  /\ result "/" = Ok (FloatValue (Reference.arith OpDiv (Int 7) (Int 2))) exampleHeap
  /\ result "<" = Ok (BooleanValue false) exampleHeap.
Proof.
  destruct (numeric_operators_result_tags (js := Reference.prims) 1
              (IntegerLiteral (Int 7)) (IntegerLiteral (Int 2))
              exampleEnvironment exampleHeap exampleHeap exampleHeap
              (IntegerValue (Int 7)) (IntegerValue (Int 2)) (Int 7) (Int 2)
              eq_refl eq_refl eq_refl eq_refl)
    as (Hadd & _ & _ & _ & Hdiv & Hlt & _).
  exact (conj Hadd (conj Hdiv Hlt)).
Defined.

(** C5 at [0 | default("-", not 0)]. *)
Lemma default_filter_witness :
  applyFilter (js := Reference.prims) 2 (evaluate (js := Reference.prims) 2)
    (IntegerValue (Int 0))
    (CallExpression (Identifier "default")
       [StringLiteral "-"; UnaryExpression "not" (IntegerLiteral (Int 0))])
    exampleEnvironment exampleHeap
  = Ok (StringValue "-") exampleHeap.
Proof.
  exact (proj1 (default_filter_surface_forms (js := Reference.prims) 2
                  (evaluate (js := Reference.prims) 2) (IntegerValue (Int 0))
                  [StringLiteral "-"; UnaryExpression "not" (IntegerLiteral (Int 0))]
                  exampleEnvironment exampleHeap exampleHeap
                  [StringValue "-"; BooleanValue true] [] true eq_refl eq_refl)).
Defined.

(** C6 at ["  a b  c d ".split(None, 2)] and ["a,b,,c".split(",", 2)], and
    below -1 at ["a b c".split(None, -2)] and ["a,b,c,d".split(",", -2)],
    next to the same calls with -1. *)
Lemma split_builtin_witness :
  let splitAt (this : string) (sep : Value) (maxsplit : Z) :=
    stringSplit (js := Reference.prims) this [sep; IntegerValue (Int maxsplit)] emptyHeap in
  let allocated (parts : list string) :=
    Ok (ArrayValue 0) (mkHeap [] [map StringValue parts]) in
  (exists parts,
      splitAt "  a b  c d " NullValue 2%Z = allocated parts
      /\ WhitespaceSplit (js := Reference.prims) (Some 2%nat) "  a b  c d " parts)
  /\ (exists parts,
         splitAt "a,b,,c" (StringValue ",") 2%Z = allocated parts
         /\ SeparatorSplit "," (Some 2%nat) "a,b,,c" parts)
  /\ splitAt "a b c" NullValue (-2)%Z = allocated ["a b c"]
  /\ splitAt "a b c" NullValue (-1)%Z = allocated ["a"; "b"; "c"]
  /\ splitAt "a,b,c,d" (StringValue ",") (-2)%Z = allocated ["a"; "b"; "c,d"]
  /\ splitAt "a,b,c,d" (StringValue ",") (-1)%Z = allocated ["a"; "b"; "c"; "d"].
Proof.
  intros splitAt allocated.
  destruct (split_builtin (js := Reference.prims) "  a b  c d " 2 emptyHeap)
    as (W & _).
  destruct (split_builtin (js := Reference.prims) "a,b,,c" 2 emptyHeap)
    as (S & _).
  destruct (split_builtin (js := Reference.prims) "a b c" (-2)%Z emptyHeap)
    as (_ & N & _ & F & _).
  split; [|split; [|split; [|split; [|split]]]].
  - exact (proj1 (W ltac:(lia))).
  - exact (proj2 (S ltac:(lia)) "," ltac:(discriminate)).
  - exact (eq_trans (proj1 (N ltac:(lia))) eq_refl).
  - reflexivity.
  - exact F.
  - reflexivity.
Defined.

(** C7 at [missing + 1]. *)
Lemma undefined_operand_witness :
  evaluate (js := Reference.prims) 2
    (BinaryExpression "+" (Identifier "missing") (IntegerLiteral (Int 1)))
    exampleEnvironment exampleHeap
  = Throw (Error "Cannot perform operation + on undefined values") exampleHeap.
Proof.
  refine (proj1 (proj2 (undefined_and_null_operands (js := Reference.prims) 1 "+"
                          (Identifier "missing") (IntegerLiteral (Int 1))
                          exampleEnvironment exampleHeap exampleHeap exampleHeap
                          UndefinedValue (IntegerValue (Int 1)) _ eq_refl eq_refl))
            (or_introl eq_refl) _).
  - simpl. intros [H|[H|[H|[H|[]]]]]; discriminate H.
  - intros [H _]. discriminate H.
Defined.


(** C10 at [set("x", 1)] followed by [set("x", "s")]. *)
Lemma set_twice_witness :
  exists h1,
    Environment_set (js := Reference.prims) exampleEnvironment "x" (HNumber (Int 1))
      exampleHeap = Ok (IntegerValue (Int 1)) h1
    /\ exists h2,
        Environment_set (js := Reference.prims) exampleEnvironment "x" (HString "s") h1
        = Throw (SyntaxError "Variable already declared: x") h2.
Proof.
  eexists. split; [reflexivity|].
  exact (proj1 (set_twice_already_declared (js := Reference.prims) exampleEnvironment
                  "x" (HNumber (Int 1)) (HString "s") exampleHeap _ _
                  (le_n 1) eq_refl eq_refl)).
Defined.

(** ** Instances of the further properties *)

(** X1 at ["" and <break>]: the right operand, which would throw, is not
    evaluated. *)
Lemma short_circuit_witness :
  evaluate (js := Reference.prims) 2
    (BinaryExpression "and" (StringLiteral EmptyString) Break)
    exampleEnvironment exampleHeap
  = Ok (StringValue EmptyString) exampleHeap.
Proof.
  exact (proj1 (logical_operators_short_circuit (js := Reference.prims) 1
                  (StringLiteral EmptyString) Break exampleEnvironment
                  exampleHeap exampleHeap (StringValue EmptyString) eq_refl)).
Defined.

(** X3 at an array added to itself as a tuple. *)
Lemma array_concatenation_witness :
  binaryOperation (js := Reference.prims) "+" (ArrayValue 0) (TupleValue 0) lettersHeap
  = Ok (ArrayValue 1)
       (mkHeap [] [ [StringValue "x"; StringValue "y"; StringValue "x"];
                    [StringValue "x"; StringValue "y"; StringValue "x";
                     StringValue "x"; StringValue "y"; StringValue "x"] ]).
Proof.
  exact (proj1 (array_concatenation_fresh (js := Reference.prims)
                  (ArrayValue 0) (TupleValue 0) 0 0 lettersHeap eq_refl eq_refl)).
Defined.

(** X4 at ["y" in ["x", "y", "x"]]. *)
Lemma array_membership_witness :
  binaryOperation (js := Reference.prims) "in" (StringValue "y") (ArrayValue 0) lettersHeap
  = Ok (BooleanValue true) lettersHeap.
Proof.
  exact (proj1 (array_membership (js := Reference.prims)
                  (StringValue "y") (ArrayValue 0) 0 lettersHeap eq_refl eq_refl)).
Defined.

(** X5 at [1 ~ "a"] and [1 + "a"], and at [[1, none] ~ "x"], where the
    element [none] renders as [undefined]. *)
Lemma string_concatenation_witness :
  binaryOperation (js := Reference.prims) "~" (IntegerValue (Int 1)) (StringValue "a")
    exampleHeap
  = Ok (StringValue "1a") exampleHeap
  /\ binaryOperation (js := Reference.prims) "+" (IntegerValue (Int 1)) (StringValue "a")
       exampleHeap
     = Ok (StringValue "1a") exampleHeap
  /\ binaryOperation (js := Reference.prims) "~" (ArrayValue 0) (StringValue "x")
       nullishHeap
     = Ok (StringValue "1,undefinedx") nullishHeap.
Proof.
  destruct (string_concatenation (js := Reference.prims) (IntegerValue (Int 1))
              (StringValue "a") exampleHeap eq_refl eq_refl) as (T & P & _).
  destruct (string_concatenation (js := Reference.prims) (ArrayValue 0)
              (StringValue "x") nullishHeap eq_refl eq_refl) as (A & _).
  exact (conj T (conj (P eq_refl) A)).
Defined.

(** X7 at ["a" - "b"]. *)
Lemma arithmetic_needs_numbers_witness :
  binaryOperation (js := Reference.prims) "-" (StringValue "a") (StringValue "b")
    exampleHeap
  = Throw (unknownOperator "-" (StringValue "a") (StringValue "b")) exampleHeap.
Proof.
  exact (arithmetic_needs_numbers (js := Reference.prims) "-" (StringValue "a")
           (StringValue "b") exampleHeap (or_introl eq_refl) eq_refl eq_refl
           (or_introl eq_refl)).
Defined.

(** X8 at [not []]: false, although the empty array is falsy. *)
Lemma unary_not_witness :
  evaluate (js := Reference.prims) 2 (UnaryExpression "not" (ArrayLiteral []))
    exampleEnvironment exampleHeap
  = Ok (BooleanValue false) (mkHeap [initialVariables] [[]])
  /\ __bool__ (js := Reference.prims) (mkHeap [initialVariables] [[]]) (ArrayValue 0)
     = false.
Proof.
  destruct (unary_not_javascript_truthiness (js := Reference.prims) 1 (ArrayLiteral [])
              exampleEnvironment exampleHeap (mkHeap [initialVariables] [[]])
              (ArrayValue 0) eq_refl) as (b & E & _ & F).
  rewrite (F eq_refl) in E. exact (conj E eq_refl).
Defined.

(** X9 at ["a,b,,c".split(",") | join(",")]. *)
Lemma split_join_witness :
  exists a h',
    stringSplit (js := Reference.prims) "a,b,,c"
      [StringValue ","; IntegerValue (Int (-1))] emptyHeap
    = Ok (ArrayValue a) h'
    /\ applyFilter (js := Reference.prims) 1 (evaluate (js := Reference.prims) 1)
         (ArrayValue a) (CallExpression (Identifier "join") [StringLiteral ","])
         exampleEnvironment h'
       = Ok (StringValue "a,b,,c") h'.
Proof.
  refine (split_join_round_trip (js := Reference.prims) 1 0 "a,b,,c" "," (-1)
            exampleEnvironment emptyHeap _ _); [discriminate | lia].
Defined.

(** X10 at [["x", "y", "x"] | unique], and at [[none, missing] | unique],
    whose two elements carry the same value. *)
Lemma unique_filter_witness :
  applyFilterIdentifier (js := Reference.prims) 1 (ArrayValue 0) "unique" lettersHeap
  = Ok (ArrayValue 1)
       (mkHeap [] [ [StringValue "x"; StringValue "y"; StringValue "x"];
                    [StringValue "x"; StringValue "y"] ])
  /\ applyFilterIdentifier (js := Reference.prims) 1 (ArrayValue 1) "unique" nullishHeap
     = Ok (ArrayValue 2) (mkHeap [] (arrays nullishHeap ++ [[NullValue]])).
Proof.
  exact (conj
           (proj1 (unique_filter (js := Reference.prims) 1 (ArrayValue 0) 0 lettersHeap
                     eq_refl))
           (proj1 (unique_filter (js := Reference.prims) 1 (ArrayValue 1) 1 nullishHeap
                     eq_refl))).
Defined.

(** X11 at three records, of which one has a truthy [k], one a falsy [k]
    and one no [k]. *)
Lemma selectattr_rejectattr_witness :
  let filtered (name : string) :=
    applyFilter (js := Reference.prims) 1 (evaluate (js := Reference.prims) 1)
      (ArrayValue 0) (CallExpression (Identifier name) [StringLiteral "k"])
      exampleEnvironment recordsHeap in
  let allocated (kept : list Value) :=
    Ok (ArrayValue 1)
       (mkHeap (maps recordsHeap) (arrays recordsHeap ++ [kept])) in
  filtered "selectattr" = allocated [ObjectValue 0]
  /\ filtered "rejectattr" = allocated [ObjectValue 1; ObjectValue 2].
Proof.
  exact (selectattr_rejectattr_partition (js := Reference.prims) 1 0 (ArrayValue 0) 0 "k"
           exampleEnvironment recordsHeap eq_refl).
Defined.

(** X12 at the same records. *)
Lemma map_attribute_witness :
  applyFilter (js := Reference.prims) 1 (evaluate (js := Reference.prims) 1)
    (ArrayValue 0)
    (CallExpression (Identifier "map")
       [KeywordArgumentExpression "attribute" (StringLiteral "k")])
    exampleEnvironment recordsHeap
  = Ok (ArrayValue 1)
       (mkHeap (maps recordsHeap)
          (arrays recordsHeap
             ++ [[BooleanValue true; BooleanValue false; UndefinedValue]])).
Proof.
  exact (proj1 (map_attribute_filter (js := Reference.prims) 1 0 (ArrayValue 0) 0 "k"
                  exampleEnvironment recordsHeap eq_refl)).
Defined.

(** X14 at [["x", "y", "x"] | tojson(indent=0)]. *)
Lemma toJSON_indent_zero_witness :
  toJSON (js := Reference.prims) 2 (ArrayValue 0) (Some (Int 0)) 0 lettersHeap
  = toJSON (js := Reference.prims) 2 (ArrayValue 0) None 0 lettersHeap.
Proof.
  exact (toJSON_indent_zero (js := Reference.prims) 2 (ArrayValue 0) (Int 0) 0
           lettersHeap eq_refl).
Defined.

(** X18 at the object [{"a": "1", "b": "2"}]. *)
Lemma object_items_witness :
  callObjectBuiltin "keys" 1 [] objectHeap
  = Ok (ArrayValue 0)
       (mkHeap (maps objectHeap) [[StringValue "a"; StringValue "b"]])
  /\ callObjectBuiltin "items" 1 [] objectHeap
     = Ok (ArrayValue 2)
          (mkHeap (maps objectHeap)
             [ [StringValue "a"; StringValue "1"]; [StringValue "b"; StringValue "2"];
               [ArrayValue 0; ArrayValue 1] ]).
Proof.
  destruct (object_items_keys_values (js := Reference.prims) 1 (ObjectValue 1) 1
              objectHeap eq_refl) as (K & _ & I & _).
  exact (conj K I).
Defined.

(** X19 at a new global environment. *)
Lemma setupGlobals_witness :
  exists h1,
    setupGlobals (js := Reference.prims) exampleEnvironment exampleHeap = Ok tt h1
    /\ lookupVariable h1 exampleEnvironment "True" = BooleanValue true
    /\ setupGlobals (js := Reference.prims) exampleEnvironment h1
       = Throw (SyntaxError "Variable already declared: false") h1.
Proof.
  destruct (setupGlobals_declares_once (js := Reference.prims) exampleEnvironment
              exampleHeap (le_n 1)) as (h1 & E & L & _ & T).
  - intros name H. simpl in H.
    repeat (destruct H as [<-|H]; [reflexivity|]). destruct H.
  - exists h1. split; [exact E|]. split; [|exact T].
    apply (L "True" (BooleanValue true)). simpl. tauto.
Defined.

(** X20 at [raise_exception("boom")]. *)
Lemma raise_exception_witness :
  evaluate (js := Reference.prims) 2
    (CallExpression (Identifier "raise_exception") [StringLiteral "boom"])
    exampleEnvironment raiseHeap
  = Throw (Error "boom") raiseHeap.
Proof.
  exact (raise_exception_throws_message (js := Reference.prims) 0 "boom"
           exampleEnvironment raiseHeap eq_refl).
Defined.

(** X22 at [{% set o.c = "3" %}] followed by [o.c]. *)
Lemma member_assignment_witness :
  let h2 :=
    mkHeap [ [("namespace", FunctionValue NamespaceFn); ("o", ObjectValue 1)];
             [("a", StringValue "1"); ("b", StringValue "2"); ("c", StringValue "3")] ]
           [] in
  evaluate (js := Reference.prims) 2
    (SetStatement (MemberExpression (Identifier "o") (Identifier "c") false)
       (Some (StringLiteral "3")) []) exampleEnvironment objectHeap
  = Ok NullValue h2
  /\ evaluate (js := Reference.prims) 2
       (MemberExpression (Identifier "o") (Identifier "c") false) exampleEnvironment h2
     = Ok (StringValue "3") h2.
Proof.
  destruct (member_assignment_round_trip (js := Reference.prims) 0 "o" "c"
              (StringLiteral "3") false exampleEnvironment objectHeap objectHeap
              (StringValue "3") (ObjectValue 1) 1 eq_refl eq_refl eq_refl (le_n 2))
    as (S & G & _).
  - simpl. intros [H|[]]. discriminate H.
  - exact (conj S G).
Defined.

(** X23 at [["a", "b"][-1]]. *)
Lemma array_index_witness :
  evaluate (js := Reference.prims) 3
    (MemberExpression (ArrayLiteral [StringLiteral "a"; StringLiteral "b"])
       (IntegerLiteral (Int (-1))) true) exampleEnvironment exampleHeap
  = Ok (StringValue "b")
       (mkHeap [initialVariables] [[StringValue "a"; StringValue "b"]]).
Proof.
  destruct (array_index_access (js := Reference.prims) 1
              (ArrayLiteral [StringLiteral "a"; StringLiteral "b"]) (-1)
              exampleEnvironment exampleHeap
              (mkHeap [initialVariables] [[StringValue "a"; StringValue "b"]])
              (ArrayValue 0) 0 eq_refl eq_refl) as (_ & N & _).
  destruct N as (x & Hx & R); [simpl; lia|].
  injection Hx as <-. exact R.
Defined.

(** X24 at the keys "a", which the object has, and "z" and "items",
    which it has not. *)
Lemma object_get_witness :
  let member (key : string) :=
    evaluate (js := Reference.prims) 2
      (MemberExpression (Identifier "o") (Identifier key) false)
      exampleEnvironment objectHeap in
  let got (key : string) := callObjectBuiltin "get" 1 [StringValue key] objectHeap in
  member "a" = Ok (StringValue "1") objectHeap
  /\ got "a" = Ok (StringValue "1") objectHeap
  /\ member "z" = Ok UndefinedValue objectHeap
  /\ got "z" = Ok NullValue objectHeap
  /\ member "items" = Ok (FunctionValue (ObjectBuiltin "items" 1)) objectHeap.
Proof.
  pose proof (object_get_and_member (js := Reference.prims) 0 (Identifier "o") "a"
                exampleEnvironment objectHeap objectHeap (ObjectValue 1) 1
                eq_refl eq_refl) as (Ma & Ga).
  pose proof (object_get_and_member (js := Reference.prims) 0 (Identifier "o") "z"
                exampleEnvironment objectHeap objectHeap (ObjectValue 1) 1
                eq_refl eq_refl) as (Mz & Gz & _).
  pose proof (object_get_and_member (js := Reference.prims) 0 (Identifier "o") "items"
                exampleEnvironment objectHeap objectHeap (ObjectValue 1) 1
                eq_refl eq_refl) as (Mi & _).
  exact (conj Ma (conj (Ga []) (conj Mz (conj Gz Mi)))).
Defined.

(** X25 at [{% set a, b = ["1", "2"] %}]. *)
Lemma set_tuple_witness :
  exists h2,
    evaluate (js := Reference.prims) 3
      (SetStatement (TupleLiteral [Identifier "a"; Identifier "b"])
         (Some (ArrayLiteral [StringLiteral "1"; StringLiteral "2"])) [])
      exampleEnvironment exampleHeap
    = Ok NullValue h2
    /\ lookupVariable h2 exampleEnvironment "b" = StringValue "2".
Proof.
  destruct (set_tuple_unpacking (js := Reference.prims) 1 ["a"; "b"]
              (ArrayLiteral [StringLiteral "1"; StringLiteral "2"])
              exampleEnvironment exampleHeap
              (mkHeap [initialVariables] [[StringValue "1"; StringValue "2"]])
              (ArrayValue 0) eq_refl (le_n 1)) as (h2 & R & L).
  - apply NoDup_ListNoDup. repeat constructor; simpl; intuition discriminate.
  - exists h2. split; [exact R|]. exact (L 1%nat "b" (StringValue "2") eq_refl eq_refl).
Defined.

(** X26 at the arguments [(a="x", "y")]. *)
Lemma positional_after_keyword_witness :
  evaluateArguments (evaluate (js := Reference.prims) 1)
    [KeywordArgumentExpression "a" (StringLiteral "x"); StringLiteral "y"]
    exampleEnvironment exampleHeap
  = Throw (Error "Positional arguments must come before keyword arguments") exampleHeap.
Proof.
  refine (positional_after_keyword_fails (evaluate (js := Reference.prims) 1)
            [KeywordArgumentExpression "a" (StringLiteral "x")] [] (StringLiteral "y")
            exampleEnvironment exampleHeap exampleHeap [] [("a", StringValue "x")]
            eq_refl _ eq_refl).
  discriminate.
Defined.

(** X27 at [missing is defined] and [missing is eq]. *)
Lemma test_expression_witness :
  evaluate (js := Reference.prims) 2 (TestExpression (Identifier "missing") false "defined")
    exampleEnvironment exampleHeap
  = Ok (BooleanValue false) exampleHeap
  /\ evaluate (js := Reference.prims) 2 (TestExpression (Identifier "missing") false "eq")
       exampleEnvironment exampleHeap
     = Throw (TypeError "Cannot read properties of undefined (reading 'value')")
         exampleHeap.
Proof.
  destruct (test_expression_outcomes (js := Reference.prims) 1 (Identifier "missing")
              false "eq" exampleEnvironment exampleHeap exampleHeap UndefinedValue
              eq_refl) as (_ & _ & E & D & _).
  exact (conj D (E (or_introl eq_refl))).
Defined.

(** X28 at [{% for x in ["a"] %}{% continue %}{% else %}none{% endfor %}]. *)
Lemma for_loop_else_witness :
  exists h2,
    evaluate (js := Reference.prims) 3
      (For (Identifier "x") (ArrayLiteral [StringLiteral "a"]) [Continue]
         [StringLiteral "none"]) exampleEnvironment exampleHeap
    = Ok (StringValue "none") h2.
Proof.
  destruct (for_loop_else_block (js := Reference.prims) 1 "x"
              (ArrayLiteral [StringLiteral "a"]) [] [StringLiteral "none"]
              exampleEnvironment exampleHeap
              (mkHeap [initialVariables; initialVariables] [[StringValue "a"]])
              (ArrayValue 0) 0) as (_ & C & _).
  - discriminate.
  - reflexivity.
  - reflexivity.
  - destruct (C []) as (h2 & R). exists h2. exact R.
Defined.

(** X29 at a call block with the parameters [a] and [b] called with one
    argument. *)
Lemma caller_binds_witness :
  let callBlockEnv := mkEnvironment 1 (Some exampleEnvironment) in
  exists h2,
    callFunction (js := Reference.prims) (evaluate (js := Reference.prims) 1)
      (CallerFn (Some [Identifier "a"; Identifier "b"]) [Identifier "a"])
      [StringValue "1"] exampleEnvironment exampleHeap
    = evaluateBlock (js := Reference.prims) (evaluate (js := Reference.prims) 1)
        [Identifier "a"] callBlockEnv h2
    /\ lookupVariable h2 callBlockEnv "a" = StringValue "1"
    /\ lookupVariable h2 callBlockEnv "b" = UndefinedValue.
Proof.
  destruct (caller_binds_positionally (js := Reference.prims)
              (evaluate (js := Reference.prims) 1) ["a"; "b"]
              [Identifier "a"] [StringValue "1"] exampleEnvironment exampleHeap)
    as ((h2 & R & L) & _).
  - apply NoDup_ListNoDup. repeat constructor; simpl; intuition discriminate.
  - exists h2. split; [exact R|].
    exact (conj (L 0%nat "a" eq_refl) (L 1%nat "b" eq_refl)).
Defined.
